(** * procS1StackRTC: the stack reconciliation pipeline of hyp3-giant

    A shallow embedding of [src/procS1StackRTC.py] (Python 2).

    Modelling conventions.
    - Python [str] values are [string]s; the string methods the program
      uses ([find], slicing, [replace], [split], [in], [os.path.basename],
      [re.search] with the two patterns of [fix_projections]) are written
      out as functions below.
    - Raster files live in a store [gmap string raster] keyed by the path
      as the program spells it. Every raster operation of the program runs
      from inside the scratch directory, so one spelling denotes one file.
    - The run log, its open/closed state, the directories the program has
      made and the calls to the operating system are fields of [world];
      console output ([print]) is not modelled.
    - A call either returns, leaves through [exit(code)] or dies with an
      uncaught exception: [outcome].
    - Pixel values, geotransform entries and the other floats that are only
      handed to GDAL are kept abstract; the collaborators themselves
      (GDAL, the speckle filter, ImageMagick, the download client) are
      parameters of the section. A coverage fraction is the exact
      rational count / (x*y); numpy adds the ones up in 32-bit floats,
      which is exact up to [2 ^ 24] pixels.
    - For the round trip between amplitude and power the pixels are IEEE
      754 binary32 numbers ([Binary32]), with the multiplication and the
      square root of the Standard Library's [SpecFloat]. *)

From Stdlib Require Import ZArith QArith Ascii String List Lia.
From Stdlib Require Import DecimalString Sorted Permutation Orders OrdersEx.
From Stdlib Require Import SpecFloat Qabs.
From stdpp Require Import base option gmap strings list.

Local Open Scope string_scope.
Local Open Scope Z_scope.

(** ** Python string primitives *)

Module PyStr.

(** [s.find(sub)]: index of the first occurrence, or -1. *)
Fixpoint find (sub s : string) : Z :=
  if String.prefix sub s then 0
  else match s with
       | EmptyString => -1
       | String _ s' => let r := find sub s' in if r <? 0 then -1 else r + 1
       end.

(** [sub in s] *)
Definition contains (sub s : string) : bool := negb (find sub s <? 0).

Fixpoint drop (n : nat) (s : string) : string :=
  match n, s with
  | O, _ => s
  | S _, EmptyString => EmptyString
  | S n', String _ s' => drop n' s'
  end.

(** [s[ptr:]], with Python's reading of a negative start. *)
Definition slice_from (s : string) (ptr : Z) : string :=
  let len := Z.of_nat (String.length s) in
  let start := if ptr <? 0 then Z.max 0 (len + ptr) else Z.min ptr len in
  drop (Z.to_nat start) s.

(** [s.replace(old, new)] for a non-empty [old]: every non-overlapping
    occurrence, left to right. [skip] counts the characters of a matched
    occurrence that are still to be dropped. *)
Fixpoint replace_from (old new s : string) (skip : nat) : string :=
  match s with
  | EmptyString => EmptyString
  | String c s' =>
      match skip with
      | S k => replace_from old new s' k
      | O => if String.prefix old s
             then new ++ replace_from old new s' (Nat.pred (String.length old))
             else String c (replace_from old new s' O)
      end
  end.

Definition replace (old new s : string) : string := replace_from old new s O.

(** [s.split(sep)] for a one-character separator. *)
Fixpoint split (sep : ascii) (s : string) : list string :=
  match s with
  | EmptyString => [EmptyString]
  | String c s' =>
      if Ascii.eqb c sep then EmptyString :: split sep s'
      else match split sep s' with
           | [] => [String c EmptyString]
           | w :: ws => String c w :: ws
           end
  end.

(** [os.path.basename(p)]: what follows the last slash. *)
Definition basename (p : string) : string :=
  List.last (split "/" p) EmptyString.

(** [os.path.join(a, b)] *)
Definition join (a b : string) : string :=
  if String.prefix "/" b then b
  else match a with
       | EmptyString => b
       | _ => if Ascii.eqb (List.last (list_ascii_of_string a) "/"%char) "/"%char
              then a ++ b else a ++ "/" ++ b
       end.

(** [l[i]] on a Python list. *)
Definition index {A} (l : list A) (i : nat) : option A := nth_error l i.

Definition is_digit (c : ascii) : bool :=
  let n := nat_of_ascii c in (48 <=? n)%nat && (n <=? 57)%nat.

(** The longest prefix of digits, and what follows it. *)
Fixpoint span_digits (s : string) : string * string :=
  match s with
  | EmptyString => (EmptyString, EmptyString)
  | String c s' =>
      if is_digit c
      then let (ds, rest) := span_digits s' in (String c ds, rest)
      else (EmptyString, s)
  end.

(** [int(ds)] for a string of decimal digits. *)
Definition digit_value (c : ascii) : Z := Z.of_nat (nat_of_ascii c) - 48.

Fixpoint int_acc (acc : Z) (ds : string) : Z :=
  match ds with
  | EmptyString => acc
  | String c ds' => int_acc (10 * acc + digit_value c) ds'
  end.

Definition int (ds : string) : Z := int_acc 0 ds.

(** ['%s' % n] and ["{}".format(n)] for an integer. *)
Definition str_of_int (n : Z) : string := NilZero.string_of_int (Z.to_int n).

(** ['%02d' % n] *)
Definition fmt_02d (n : Z) : string :=
  let s := str_of_int n in
  if (String.length s <? 2)%nat then "0" ++ s else s.

(** [re.search("(\d+)", s).groups()]: the leftmost longest run of
    digits, [None] when [s] has no digit. *)
Fixpoint re_search_digits (s : string) : option string :=
  match s with
  | EmptyString => None
  | String c s' =>
      if is_digit c then Some (fst (span_digits s))
      else re_search_digits s'
  end.

Fixpoint str_removelast (s : string) : string :=
  match s with
  | EmptyString => EmptyString
  | String c EmptyString => EmptyString
  | String c s' => String c (str_removelast s')
  end.

Fixpoint str_last (s : string) (d : ascii) : ascii :=
  match s with
  | EmptyString => d
  | String c EmptyString => c
  | String _ s' => str_last s' d
  end.

Definition newline : ascii := ascii_of_nat 10.

(** [re.search("(\d+)(.)", s).groups()]: at the leftmost digit the
    engine takes the longest run of digits and then needs one more
    character that is not a newline; failing that it gives the last digit
    of the run back to [.]; a lone digit that ends the string (or a line)
    does not match and the search moves on. *)
Fixpoint re_search_digits_any (s : string) : option (string * string) :=
  match s with
  | EmptyString => None
  | String c s' =>
      if is_digit c then
        let (ds, rest) := span_digits s in
        let backtrack :=
          match ds with
          | String _ (String _ _) =>
              Some (str_removelast ds, String (str_last ds c) EmptyString)
          | _ => re_search_digits_any s'
          end in
        match rest with
        | String d _ =>
            if Ascii.eqb d newline then backtrack
            else Some (ds, String d EmptyString)
        | EmptyString => backtrack
        end
      else re_search_digits_any s'
  end.

End PyStr.

(** ** Outcomes of a call *)

(** The uncaught Python exceptions the program can die with.
    [RasterError] stands for whatever the raster collaborator raises when
    it is handed a dataset that could not be opened. *)
Inductive exn : Type :=
| IndexError
| AttributeError
| NameError (name : string)
| ValueError
| IOError (path : string)
| OSError (path : string)
| RasterError (path : string).

Inductive outcome (W A : Type) : Type :=
| Ret (a : A) (w : W)
| Exit (code : Z) (w : W)
| Raise (e : exn) (w : W).

Arguments Ret {W A} a w.
Arguments Exit {W A} code w.
Arguments Raise {W A} e w.

(** State of the global [log] file object. *)
Inductive log_state : Type := LogUnset | LogOpen | LogClosed.

(** Calls to [os], [shutil] and [execute], in program order. *)
Inductive os_call : Type :=
| Mkdir (d : string)
| Rmtree (d : string)
| Chdir (d : string)
| Symlink (src dst : string)
| Remove (f : string)
| Move (src dst : string)
| Execute (cmd : string).

(** [frac < thresh] on exact rationals. *)
Definition Qlt_bool (a b : Q) : bool := negb (Qle_bool b a).

(** The [thresh=0.4] of [cut], [procS1StackRTC] and the [--black] option. *)
Definition default_thresh : Q := 4 # 10.

(** Python's for loop that appends one result per element. *)
Section ForEach.
Context {W A B : Type}.

Fixpoint for_each (f : A -> W -> outcome W B) (l : list A) (w : W)
  : outcome W (list B) :=
  match l with
  | [] => Ret [] w
  | a :: l' =>
      match f a w with
      | Ret b w1 =>
          match for_each f l' w1 with
          | Ret bs w2 => Ret (b :: bs) w2
          | Exit c w2 => Exit c w2
          | Raise e w2 => Raise e w2
          end
      | Exit c w1 => Exit c w1
      | Raise e w1 => Raise e w1
      end
  end.

End ForEach.

(** ** The world and the collaborators *)

(** A float32 pixel value with the numpy operations the program applies,
    the floats that the program only passes on (geotransform entries, clip
    corners, the target resolution, the dB range), and Python's formatting
    of floats and lists. *)
Class Floats : Type := {
  pixel : Type;
  pix_is_zero : pixel -> bool;
  pix_mul : pixel -> pixel -> pixel;
  pix_sqrt : pixel -> pixel;
  pix_log : pixel -> pixel;
  pix_ten : pixel;
  coord : Type;
  int_of_coord : coord -> Z;
  coord_of_Z : Z -> coord;
  fmt_coord : coord -> string;
  fmt_frac : Q -> string;
  repr_list : list string -> string }.

Section Model.

Context {F : Floats}.

Record geotransform : Type := {
  gt0 : coord; gt1 : coord; gt2 : coord; gt3 : coord; gt4 : coord; gt5 : coord }.

(** What [saa.read_gdal_file] returns: [(x, y, trans, proj, data)]. *)
Record raster : Type := {
  r_x : positive;
  r_y : positive;
  r_trans : geotransform;
  r_proj : string;
  r_data : list pixel }.

Definition with_data (r : raster) (d : list pixel) : raster :=
  {| r_x := r_x r; r_y := r_y r; r_trans := r_trans r; r_proj := r_proj r;
     r_data := d |}.

Record world : Type := {
  files : gmap string raster;
  log : list string;
  log_st : log_state;
  calls : list os_call }.

Definition set_files (f : gmap string raster) (w : world) : world :=
  {| files := f; log := log w; log_st := log_st w; calls := calls w |}.

Definition set_log_st (s : log_state) (w : world) : world :=
  {| files := files w; log := log w; log_st := s; calls := calls w |}.

Definition add_log (msg : string) (w : world) : world :=
  {| files := files w; log := log w ++ [msg]; log_st := log_st w;
     calls := calls w |}.

Definition add_call (c : os_call) (w : world) : world :=
  {| files := files w; log := log w; log_st := log_st w;
     calls := calls w ++ [c] |}.

(** GDAL by the option it is called with; the imported
    [cutGeotiffsByLine]; the [enh_lee] filter between its two byte swaps;
    the statistics of [get2sigmacutoffs]; what a shell command leaves in
    the raster store; the answers of the operating system about what
    lies outside the raster store, as given when the program asks; and
    what the download, the unpacking of an archive and the linking of a
    product directory add to the raster store. *)
Class Collaborators : Type := {
  gdal_projWin : coord * coord * coord * coord -> raster -> raster;
  gdal_scale_byte : coord -> coord -> raster -> raster;
  gdal_sigma_byte : coord * coord -> raster -> raster;
  gdal_resample : coord -> raster -> raster;
  gdal_png : raster -> raster;
  gdal_warp : string -> coord -> raster -> raster;
  cutGeotiffsByLine :
    list string -> gmap string raster -> list string * gmap string raster;
  enh_lee : positive -> list pixel -> list pixel;
  sigma_cutoffs : list pixel -> coord * coord;
  shell : string -> gmap string raster -> gmap string raster;
  os_getcwd : string;
  os_isfile : string -> bool;
  os_isdir : string -> bool;
  os_listdir : string -> list string;
  os_glob : string -> list string;
  read_lines : string -> option (list string);
  hyp3_download : string -> gmap string raster -> gmap string raster;
  zip_extractall : string -> gmap string raster -> gmap string raster;
  symlink_product :
    string -> string -> gmap string raster -> gmap string raster }.

Context {C : Collaborators}.

(** *** The monad of calls *)

Definition M (A : Type) : Type := world -> outcome world A.

Definition ret {A} (a : A) : M A := fun w => Ret a w.

Definition bind {A B} (m : M A) (k : A -> M B) : M B := fun w =>
  match m w with
  | Ret a w' => k a w'
  | Exit c w' => Exit c w'
  | Raise e w' => Raise e w'
  end.

Definition raise {A} (e : exn) : M A := fun w => Raise e w.

Notation "'do' x <- m ; k" := (bind m (fun x => k))
  (at level 10, x name, m at level 100, k at level 200).
Notation "'do' ' p <- m ; k" := (bind m (fun x => let 'p := x in k))
  (at level 10, p pattern, m at level 100, k at level 200).
Notation "'run' m ; k" := (bind m (fun _ => k))
  (at level 10, m at level 100, k at level 200).

(** [l[i]], raising [IndexError] out of range. *)
Definition item {A} (l : list A) (i : nat) : M A :=
  match nth_error l i with
  | Some a => ret a
  | None => raise IndexError
  end.

(** lines 253-256 *)
Definition plog (msg : string) : M unit := fun w =>
  match log_st w with
  | LogOpen => Ret tt (add_log msg w)
  | LogClosed => Raise ValueError w
  | LogUnset => Raise (NameError "log") w
  end.

(** lines 258-261 *)
Definition mexit {A} (code : Z) : M A := fun w =>
  match log_st w with
  | LogUnset => Raise (NameError "log") w
  | _ => Exit code (set_log_st LogClosed w)
  end.

Definition os_do (c : os_call) : M unit := fun w => Ret tt (add_call c w).

(** A collaborator that only adds to or changes the raster store. *)
Definition store_do (f : gmap string raster -> gmap string raster) : M unit :=
  fun w => Ret tt (set_files (f (files w)) w).

(** [execute(cmd)] *)
Definition execute (cmd : string) : M unit := fun w =>
  Ret tt (add_call (Execute cmd) (set_files (shell cmd (files w)) w)).

(** [os.remove(f)] on a raster. *)
Definition os_remove (f : string) : M unit := fun w =>
  match files w !! f with
  | Some _ => Ret tt (add_call (Remove f) (set_files (delete f (files w)) w))
  | None => Raise (OSError f) w
  end.

(** [os.path.isfile(f)] from inside the scratch directory. *)
Definition raster_isfile (f : string) : M bool := fun w =>
  Ret (match files w !! f with Some _ => true | None => false end) w.

(** [os.symlink(src, dst)] of a raster: [dst] then reads as [src]. *)
Definition os_symlink (src dst : string) : M unit := fun w =>
  match files w !! dst with
  | Some _ => Raise (OSError dst) w
  | None =>
      Ret tt (add_call (Symlink src dst)
                (match files w !! src with
                 | Some r => set_files (<[dst := r]> (files w)) w
                 | None => w
                 end))
  end.

(** [shutil.move(src, dstdir)] of a raster. *)
Definition shutil_move (src dstdir : string) : M unit := fun w =>
  match files w !! src with
  | Some r =>
      Ret tt (add_call (Move src dstdir)
                (set_files (<[PyStr.join dstdir (PyStr.basename src) := r]>
                              (delete src (files w))) w))
  | None => Raise (IOError src) w
  end.

(** lines 48-54 *)
Definition createCleanDir (dirName : string) : M unit :=
  if negb (os_isdir dirName) then os_do (Mkdir dirName)
  else (run plog ("Cleaning up old " ++ dirName ++ " directory");
        run os_do (Rmtree dirName);
        os_do (Mkdir dirName)).

(** *** Raster input and output *)

(** [saa.open_gdal_file] and [gdal.Open]: [None] when the file is absent. *)
Definition open_gdal_file (fi : string) : M (option raster) := fun w =>
  Ret (files w !! fi) w.

Definition read_gdal_file (fi : string) (ds : option raster) : M raster :=
  match ds with
  | Some r => ret r
  | None => raise (RasterError fi)
  end.

Definition write_gdal_file_float (outfile : string) (r : raster) : M unit :=
  fun w => Ret tt (set_files (<[outfile := r]> (files w)) w).

(** [gdal.Translate(outfile, fi, ...)] and [gdal.Warp(outfile, fi, ...)]:
    the result is written to [outfile] and returned, [None] when [fi]
    cannot be opened. *)
Definition gdal_call (outfile fi : string) (f : raster -> raster)
  : M (option raster) := fun w =>
  match files w !! fi with
  | Some r => Ret (Some (f r)) (set_files (<[outfile := f r]> (files w)) w)
  | None => Ret None w
  end.

(** *** Radiometric transforms *)

(** lines 56-80 *)
Definition apply_speckle_filter (fi : string) : M string :=
  let outfile := PyStr.replace ".tif" "_sf.tif" fi in
  do ds <- open_gdal_file fi;
  do r <- read_gdal_file fi ds;
  run execute "swap_bytes tmp.bin tmp2.bin 4";
  run execute ("enh_lee tmp2.bin tmp3.bin "
               ++ PyStr.str_of_int (Z.pos (r_x r)) ++ " 1 4 7 7");
  run execute "swap_bytes tmp3.bin tmp4.bin 4";
  run write_gdal_file_float outfile (with_data r (enh_lee (r_x r) (r_data r)));
  run os_do (Remove "tmp.bin");
  run os_do (Remove "tmp2.bin");
  run os_do (Remove "tmp3.bin");
  run os_do (Remove "tmp4.bin");
  ret outfile.

(** line 90: [10 * np.log(data)] *)
Definition dB_of (p : pixel) : pixel := pix_mul pix_ten (pix_log p).

(** lines 82-94 *)
Definition create_dB (fi : string) : M string :=
  do ds <- open_gdal_file fi;
  do r <- read_gdal_file fi ds;
  let dBdata := map dB_of (r_data r) in
  let outfile := PyStr.replace ".tif" "_dB.tif" fi in
  run write_gdal_file_float outfile (with_data r dBdata);
  ret outfile.

(** lines 96-101 *)
Definition pwr2amp (fi : string) : M string :=
  do ds <- open_gdal_file fi;
  do r <- read_gdal_file fi ds;
  let ampdata := map pix_sqrt (r_data r) in
  let outfile := PyStr.replace ".tif" "_amp.tif" fi in
  run write_gdal_file_float outfile (with_data r ampdata);
  ret outfile.

(** lines 103-110 *)
Definition amp2pwr (filelist : list string) : M (list string) :=
  for_each (fun fi =>
    do ds <- open_gdal_file fi;
    do r <- read_gdal_file fi ds;
    let pwrdata := map (fun p => pix_mul p p) (r_data r) in
    let outfile := PyStr.replace ".tif" "_amp.tif" fi in
    run write_gdal_file_float outfile (with_data r pwrdata);
    ret outfile) filelist.

(** lines 112-116 *)
Definition byteScale (fi : string) (lower upper : coord) : M string :=
  let outfile :=
    PyStr.replace ".tif"
      (PyStr.str_of_int (int_of_coord lower) ++ "_"
       ++ PyStr.str_of_int (int_of_coord upper) ++ ".tif") fi in
  do ds <- open_gdal_file fi;
  do _ <- read_gdal_file fi ds;
  do _ <- gdal_call outfile fi (gdal_scale_byte lower upper);
  ret outfile.

(** lines 118-126 *)
Definition get2sigmacutoffs (fi : string) : M (coord * coord) :=
  do ds <- open_gdal_file fi;
  do r <- read_gdal_file fi ds;
  ret (sigma_cutoffs (r_data r)).

(** lines 128-131 *)
Definition changeRes (res : coord) (fi : string) : M string :=
  let outfile :=
    PyStr.replace ".tif" ("_" ++ PyStr.str_of_int (int_of_coord res) ++ "m.tif")
      fi in
  do _ <- gdal_call outfile fi (gdal_resample res);
  ret outfile.

(** lines 138-139: the fraction of pixels that are not zero. *)
Definition coverage (r : raster) : Q :=
  Z.of_nat (length (List.filter (fun p => negb (pix_is_zero p)) (r_data r)))
  # (r_x r * r_y r).

(** lines 133-144; [None] for [thresh] is a call that leaves it out. *)
Definition cut (pt1 pt2 pt3 pt4 : coord) (fi : string) (thresh : option Q)
  : M (option string * Q) :=
  let thresh := default default_thresh thresh in
  let outfile := PyStr.replace ".tif" "_clipped.tif" fi in
  let coords := (pt1, pt2, pt3, pt4) in
  do dst <- gdal_call outfile fi (gdal_projWin coords);
  do r <- read_gdal_file outfile dst;
  let frac := coverage r in
  if Qlt_bool frac thresh then
    run plog ("    Image fraction (" ++ fmt_frac frac
              ++ ") less than threshold of " ++ fmt_frac thresh
              ++ " discarding");
    run os_remove outfile;
    ret (None, frac)
  else ret (Some outfile, frac).

(** lines 152-160, for one file. *)
Definition getDate (myfile : string) : option string :=
  let myfile := PyStr.basename myfile in
  match nth_error (PyStr.split "-" myfile) 4 with
  | None => None
  | Some s =>
      if (String.length s <=? 26)%nat
      then nth_error (PyStr.split "_" s) 0
      else nth_error (PyStr.split "_" s) 4
  end.

(** lines 149-162 *)
Definition getDates (filelist : list string) : M (list string) :=
  for_each (fun myfile =>
    match getDate myfile with
    | Some t => ret t
    | None => raise IndexError
    end) filelist.

(** lines 164-170 *)
Definition report_stats (myfile : string) (tmpfile : option string) (frac : Q)
  : M unit :=
  let msg := myfile ++ " : " ++ fmt_frac frac ++ " : " in
  match tmpfile with
  | None => plog (msg ++ "discarded")
  | Some _ => plog (msg ++ "kept")
  end.

(** lines 173-177 *)
Definition filterStack (filelist : list string) : M (list string) :=
  run plog "Applying speckle filter";
  for_each apply_speckle_filter filelist.

(** lines 179-183 *)
Definition changeResStack (filelist : list string) (res : coord)
  : M (list string) :=
  run plog ("Changing resolution to " ++ fmt_coord res);
  for_each (changeRes res) filelist.

(** *** Projection reconciliation *)

(** lines 210-213: the target spatial reference of a reprojection. *)
Definition dstSRS (zone1 : Z) (hemi : string) : string :=
  if String.eqb hemi "N" then "EPSG:326" ++ PyStr.fmt_02d zone1
  else "EPSG:327" ++ PyStr.fmt_02d zone1.

(** lines 197-216: the body of the loop, for [file2 = filelist[x+1]];
    returns what [filelist[x+1]] holds afterwards. *)
Definition reconcile (zone1 : Z) (hemi : string) (pixsize : coord)
  (file2 : string) : M string :=
  do dst2 <- open_gdal_file file2;
  do p2 <- match dst2 with
           | Some r2 => ret (r_proj r2)
           | None => raise AttributeError
           end;
  let ptr := PyStr.find "UTM zone " p2 in
  do zone2 <- match PyStr.re_search_digits (PyStr.slice_from p2 ptr) with
              | Some g => ret (PyStr.int g)
              | None => raise AttributeError
              end;
  if negb (zone1 =? zone2) then
    let proj := dstSRS zone1 hemi in
    let name := PyStr.replace ".tif" "_reproj.tif" file2 in
    do _ <- gdal_call name file2 (gdal_warp proj pixsize);
    ret name
  else ret file2.

(** lines 186-217 *)
Definition fix_projections (filelist : list string) : M (list string) :=
  do file1 <- item filelist 0;
  do ds <- open_gdal_file file1;
  do r <- read_gdal_file file1 ds;
  let proj := r_proj r in
  let pixsize := gt1 (r_trans r) in
  let ptr := PyStr.find "UTM zone " proj in
  if negb (ptr =? -1) then
    do '(zone1, hemi) <-
      match PyStr.re_search_digits_any (PyStr.slice_from proj ptr) with
      | Some (g1, g2) => ret (PyStr.int g1, g2)
      | None => raise AttributeError
      end;
    do rest <- for_each (reconcile zone1 hemi pixsize) (tail filelist);
    ret (file1 :: rest)
  else ret filelist.

(** *** The stack cutter *)

(** lines 234-238: one round of the bounding-box loop. *)
Definition clip_scene (clip : coord * coord * coord * coord) (thresh : Q)
  (fi : string) : M (option string) :=
  let '(pt1, pt2, pt3, pt4) := clip in
  do '(myfile, frac) <- cut pt1 pt2 pt3 pt4 fi (Some thresh);
  run report_stats fi myfile frac;
  ret myfile.

(** lines 243-247: one round of the shapefile loop. Its first statement
    reads [fi], a name that is bound neither in [cutStack] nor in the
    module. *)
Definition shape_scene (shape fi_i : string) : M (option string) :=
  raise (NameError "fi").

(** The survivors of a loop that appends only what is not [None]. *)
Definition kept (l : list (option string)) : list string :=
  omap (fun o => o) l.

(** lines 219-251 *)
Definition cutStack (filelist : list string) (overlap : bool)
  (clip : option (coord * coord * coord * coord)) (shape : option string)
  (thresh : Q) : M (list string) :=
  if overlap then
    run plog "Cutting files to common overlap";
    do filelist <- fix_projections filelist;
    fun w =>
      let '(power_filelist, fs) := cutGeotiffsByLine filelist (files w) in
      Ret power_filelist (set_files fs w)
  else match clip with
  | Some (pt1, pt2, pt3, pt4) =>
      do filelist <- fix_projections filelist;
      run plog ("Clipping to bounding box " ++ fmt_coord pt1 ++ " "
                ++ fmt_coord pt2 ++ " " ++ fmt_coord pt3 ++ " "
                ++ fmt_coord pt4);
      run plog "Statistics for clipping:";
      run plog "file name : percent overlap : result";
      do results <- for_each (clip_scene (pt1, pt2, pt3, pt4) thresh) filelist;
      ret (kept results)
  | None =>
      match shape with
      | Some shape =>
          run plog ("Clipping to shape file " ++ shape);
          do filelist <- fix_projections filelist;
          do results <- for_each (shape_scene shape) filelist;
          ret (kept results)
      | None => ret filelist
      end
  end.

(** *** Reference election *)

(** lines 270-275: the search for the best overlap, with the running
    [max_frac] and [max_file]. *)
Fixpoint best_overlap (clip : coord * coord * coord * coord)
  (l : list string) (max_frac : Q) (max_file : option string)
  : M (Q * option string) :=
  match l with
  | [] => ret (max_frac, max_file)
  | fi :: l' =>
      let '(pt1, pt2, pt3, pt4) := clip in
      do '(myfile, frac) <- cut pt1 pt2 pt3 pt4 fi (Some (1 # 100));
      if Qlt_bool max_frac frac
      then best_overlap clip l' frac (Some fi)
      else best_overlap clip l' max_frac max_file
  end.

(** [l.index(x)] *)
Fixpoint py_index (x : string) (l : list string) : option nat :=
  match l with
  | [] => None
  | y :: l' => if String.eqb y x then Some O else option_map S (py_index x l')
  end.

(** lines 263-288; the list is changed in place, so its new value is
    what the caller goes on with. *)
Definition fix_file_list (filelist : list string)
  (clip : coord * coord * coord * coord) : M (list string) :=
  do '(max_frac, max_file) <- best_overlap clip filelist 0%Q None;
  run (if Qeq_bool max_frac 0
       then run plog "ERROR: None of the input scenes overlap with your area of interest!";
            mexit 1
       else ret tt);
  do max_file <- match max_file with
                 | Some f => ret f
                 | None => raise (NameError "max_file")
                 end;
  do loc <- match py_index max_file filelist with
            | Some i => ret i
            | None => raise ValueError
            end;
  do tmp <- item filelist 0;
  do best <- item filelist loc;
  ret (<[loc := tmp]> (<[O := best]> filelist)).

(** *** The direction filter *)

(** lines 293-297: the scan of the lines of the metadata file. *)
Fixpoint scan_direction (content : list string) : option string :=
  match content with
  | [] => None
  | item :: rest =>
      if PyStr.contains "ascending" item then Some "a"
      else if PyStr.contains "descending" item then Some "d"
      else scan_direction rest
  end.

(** lines 290-297 *)
Definition getAscDesc (myxml : string) : M (option string) :=
  match read_lines myxml with
  | Some content => ret (scan_direction content)
  | None => raise (IOError myxml)
  end.

(** lines 299-309 *)
Definition getXmlFiles (filelist : list string) : M (list string) :=
  do dates <- getDates filelist;
  for_each (fun date =>
    do mydir <- item (os_glob ("*" ++ date ++ "*-rtc-gamma")) 0;
    item (os_glob (mydir ++ "/*.iso.xml")) 0) dates.

(** ["{}".format(ad)] *)
Definition fmt_ad (ad : option string) : string :=
  match ad with
  | Some s => s
  | None => "None"
  end.

Definition same_direction (ad : option string) (direction : string) : bool :=
  match ad with
  | Some s => String.eqb s direction
  | None => false
  end.

(** lines 315-324 *)
Fixpoint cull_loop (filelist xmlFiles : list string) (direction : string)
  : M (list string) :=
  match filelist with
  | [] => ret []
  | myfile :: filelist' =>
      run plog ("Checking file " ++ myfile ++ " for flight direction");
      do xml <- item xmlFiles 0;
      do ad <- getAscDesc xml;
      run plog ("    Found adflag " ++ fmt_ad ad);
      if same_direction ad direction then
        run plog "    Keeping";
        do newlist <- cull_loop filelist' (tail xmlFiles) direction;
        ret (myfile :: newlist)
      else
        run plog "    Discarding";
        cull_loop filelist' (tail xmlFiles) direction
  end.

(** lines 311-325 *)
Definition cull_list_by_direction (filelist : list string)
  (direction : string) : M (list string) :=
  do xmlFiles <- getXmlFiles filelist;
  cull_loop filelist xmlFiles direction.

(** *** The driver *)

(** The keyword arguments of [procS1StackRTC] (lines 327-329). *)
Record options : Type := {
  o_outfile : option string;
  o_infiles : option (list string);
  o_path : option string;
  o_res : option coord;
  o_filter : bool;
  o_type : string;
  o_scale : coord * coord;
  o_clip : option (coord * coord * coord * coord);
  o_shape : option string;
  o_overlap : bool;
  o_zipFlag : bool;
  o_leave : bool;
  o_thresh : Q;
  o_font : Z;
  o_quick : bool;
  o_amp : bool;
  o_hyp : option string;
  o_keep : option string }.


(** Truth value of an optional string: [None] and [""] are false. *)
Definition truthy (s : option string) : bool :=
  match s with
  | Some (String _ _) => true
  | _ => false
  end.

(** [s[0]] *)
Definition first_char (s : string) : M ascii :=
  match s with
  | String c _ => ret c
  | EmptyString => raise IndexError
  end.

Definition logFile (o : options) : string :=
  match o_outfile o with
  | Some outfile => outfile ++ "_run_stats.txt"
  | None => "run_stats.txt"
  end.

(** line 336: [log = open(logFile, "w")] *)
Definition open_log : M unit := fun w =>
  Ret tt {| files := files w; log := []; log_st := LogOpen; calls := calls w |}.

(** line 529: [log.close()] *)
Definition close_log : M unit := fun w =>
  match log_st w with
  | LogUnset => Raise (NameError "log") w
  | _ => Ret tt (set_log_st LogClosed w)
  end.

Definition types : list string := ["dB"; "sigma-byte"; "dB-byte"; "amp"; "power"].

(** lines 338-366 *)
Definition check_options (o : options) : M unit :=
  run (if negb (existsb (String.eqb (o_type o)) types)
       then plog ("ERROR: unknown output type " ++ o_type o)
       else plog ("Creating " ++ o_type o ++ " output frames"));
  run (match o_keep o with
       | Some keep =>
           if String.eqb keep "a" then plog "Keeping only ascending images"
           else if String.eqb keep "d" then plog "Keeping only descending images"
           else (run plog ("ERROR: Unknown keep value " ++ keep
                           ++ " - must be either 'a' or 'a'");
                 mexit 1)
       | None => ret tt
       end);
  run (match o_shape o with
       | Some shape =>
           run (if negb (os_isfile shape)
                then (run plog ("ERROR: Shape file " ++ shape
                                ++ " does not exist");
                      mexit 1)
                else ret tt);
           run (match o_clip o with
                | Some _ =>
                    run plog "ERROR: Can not use both shapefile and image clipping options";
                    mexit 1
                | None => ret tt
                end);
           if o_overlap o
           then (run plog "ERROR: Can not use both shapefile and clip to overlap options";
                 mexit 1)
           else ret tt
       | None => ret tt
       end);
  match o_clip o with
  | Some _ =>
      if o_overlap o
      then (run plog "ERROR: Can not use both clip to overlap and image clipping options";
            mexit 1)
      else ret tt
  | None => ret tt
  end.

(** lines 368-375 *)
Definition resolve_path (o : options) : M string :=
  match o_path o with
  | None => ret os_getcwd
  | Some path =>
      do c <- first_char path;
      let path := if negb (Ascii.eqb c "/") then PyStr.join os_getcwd path
                  else path in
      if negb (os_isdir path)
      then (run plog ("ERROR: Unable to find directory " ++ path); mexit 1)
      else ret path
  end.

(** lines 382-414: no input files were given. *)
Definition discover (o : options) (path : string) : M (list string) :=
  do '(zipFlag, path) <-
    match o_hyp o with
    | Some (String c h) =>
        let hyp := String c h in
        run plog ("Using Hyp3 subscription named " ++ hyp
                  ++ " to download input files");
        run store_do (hyp3_download hyp);
        ret (true, "hyp3-products")
    | _ => ret (o_zipFlag o, path)
    end;
  run (if zipFlag : bool then
         run plog ("No input files given, using hyp3 zip files from " ++ path);
         do _ <- for_each (fun myfile =>
                   if PyStr.contains ".zip" myfile then
                     run plog ("    unzipping file " ++ myfile);
                     store_do (zip_extractall (PyStr.join path myfile))
                   else ret tt) (os_listdir path);
         ret tt
       else
         run plog ("No input files given, using already unzipped hyp3 files in "
                   ++ path);
         run os_do (Chdir "TEMP");
         do _ <- for_each (fun myfile =>
                   if os_isdir (PyStr.join path myfile)
                      && PyStr.contains "m-rtc-" myfile
                   then
                     run os_do (Symlink (PyStr.join path myfile)
                                  (PyStr.basename myfile));
                     store_do (symlink_product (PyStr.join path myfile)
                                 (PyStr.basename myfile))
                   else ret tt) (os_listdir path);
         os_do (Chdir ".."));
  run os_do (Chdir "TEMP");
  let filelist := os_glob "*/*vv*.tif" in
  let filelist := if (length filelist =? 0)%nat then os_glob "*vv*.tif"
                  else filelist in
  do filelist <- (match truthy (o_hyp o), o_clip o with
                  | true, Some clip => fix_file_list filelist clip
                  | _, _ => ret filelist
                  end);
  run os_do (Chdir "..");
  ret filelist.

(** lines 416-423: the caller's input files. *)
Definition take_infiles (infiles : list string) : M (list string) :=
  run plog "Infiles found; using them";
  for_each (fun myfile =>
    run (if negb (os_isfile myfile)
         then (run plog ("ERROR: Can't find input file " ++ myfile); mexit 1)
         else ret tt);
    do c <- first_char myfile;
    ret (if negb (Ascii.eqb c "/") then PyStr.join os_getcwd myfile
         else myfile)) infiles.

(** lines 379-427: the file list, and [infiles] as line 381 leaves it. *)
Definition find_files (o : options) (path : string)
  : M (option (list string) * list string) :=
  do '(infiles, filelist) <-
    match o_infiles o with
    | None | Some [] =>
        do filelist <- discover o path;
        ret (None, filelist)
    | Some infiles =>
        do filelist <- take_infiles infiles;
        ret (Some infiles, filelist)
    end;
  run (if (length filelist =? 0)%nat
       then (run plog "ERROR: Found no files to process."; mexit 1)
       else ret tt);
  ret (infiles, filelist).

(** lines 429-439 *)
Definition link_files (filelist : list string) : M (list string) :=
  run os_do (Chdir "TEMP");
  do filelist <- for_each (fun fi =>
      if PyStr.contains "/" fi then
        run os_symlink fi (PyStr.basename fi);
        ret (PyStr.basename fi)
      else
        do present <- raster_isfile fi;
        if negb present then run os_symlink ("../" ++ fi) fi; ret fi
        else ret fi) filelist;
  run plog "List of files to operate on";
  run plog (repr_list filelist);
  ret filelist.

(** lines 331-439: everything up to the assembled catalog. *)
Definition catalog (o : options) : M (option (list string) * list string) :=
  run open_log;
  run check_options o;
  do path <- resolve_path o;
  run createCleanDir "TEMP";
  do '(infiles, filelist) <- find_files o path;
  do filelist <- link_files filelist;
  ret (infiles, filelist).

(** lines 441-442 *)
Definition direction_filter (keep : option string)
  (infiles : option (list string)) (filelist : list string)
  : M (list string) :=
  match keep, infiles with
  | Some keep, None => cull_list_by_direction filelist keep
  | _, _ => ret filelist
  end.

(** lines 447-460 *)
Definition cut_stage (o : options) (filelist : list string)
  : M (list string) :=
  let filter_and_resample filelist :=
    do filelist <- (if o_filter o then filterStack filelist else ret filelist);
    match o_res o with
    | Some res => changeResStack filelist res
    | None => ret filelist
    end in
  if o_quick o then
    do filelist <- cutStack filelist (o_overlap o) (o_clip o) (o_shape o)
                     (o_thresh o);
    if negb (length filelist =? 0)%nat then filter_and_resample filelist
    else ret filelist
  else
    do filelist <- filter_and_resample filelist;
    cutStack filelist (o_overlap o) (o_clip o) (o_shape o) (o_thresh o).

(** lines 331-460: the run up to and including the stack cutter. *)
Definition run_to_cut (o : options)
  : M (option (list string) * list string) :=
  do '(infiles, filelist) <- catalog o;
  do filelist <- direction_filter (o_keep o) infiles filelist;
  do filelist <- (if o_amp o then amp2pwr filelist else ret filelist);
  do power_filelist <- cut_stage o filelist;
  ret (infiles, power_filelist).

(** lines 462-471 *)
Definition check_survivors (o : options) (power_filelist : list string)
  : M unit :=
  if (length power_filelist =? 0)%nat then
    run plog "ERROR: No images survived the clipping process.";
    run (if o_overlap o
         then plog "ERROR: The image stack does not have overlap."
         else ret tt);
    run (match o_shape o with
         | Some _ =>
             plog "ERROR: The image stack does not overlap with the shape file."
         | None => ret tt
         end);
    run (match o_clip o with
         | Some _ =>
             run plog "ERROR: None of the images have sufficient overlap with the area of interest.";
             plog "ERROR: You might try lowering the --black value or picking an new area of interest."
         | None => ret tt
         end);
    mexit 1
  else ret tt.

(** lines 473-477 *)
Definition scale_to_dB (power_filelist : list string) : M (list string) :=
  run plog "Scaling to dB";
  for_each create_dB power_filelist.

(** lines 479-483 *)
Definition scale_to_byte (scale : coord * coord) (dB_filelist : list string)
  : M (list string) :=
  run plog ("Byte scaling from " ++ fmt_coord (fst scale) ++ " to "
            ++ fmt_coord (snd scale));
  for_each (fun tmpfile => byteScale tmpfile (fst scale) (snd scale))
    dB_filelist.

(** lines 485-489 *)
Definition make_pngs (byte_filelist : list string) : M (list string) :=
  for_each (fun myfile =>
    let pngFile := PyStr.replace ".tif" ".png" myfile in
    do _ <- gdal_call pngFile myfile gdal_png;
    ret pngFile) byte_filelist.

(** line 499: the annotation command. *)
Definition annotate_cmd (FILE FILE2 DATE : string) (FONT : Z) : string :=
  "convert " ++ FILE ++ " -pointsize " ++ PyStr.str_of_int FONT
  ++ " -gravity north -stroke '#000C' -strokewidth 2 -annotate +0+5 '"
  ++ DATE ++ "' -stroke none -fill white -annotate +0+5 '" ++ DATE ++ "' "
  ++ FILE2.

(** lines 495-506: the pairs [[newFile, dates[cnt]]], in list order. *)
Fixpoint pair_with_dates (infiles : option (list string)) (font : Z)
  (png_filelist dates : list string) : M (list (string * string)) :=
  match png_filelist with
  | [] => ret []
  | myfile :: png_filelist' =>
      do newFile <-
        match infiles with
        | None =>
            let newFile := "anno_" ++ myfile in
            do date <- item dates 0;
            run execute (annotate_cmd myfile newFile date font);
            run os_remove myfile;
            ret newFile
        | Some _ => ret myfile
        end;
      do date <- item dates 0;
      do rest <- pair_with_dates infiles font png_filelist' (tail dates);
      ret ((newFile, date) :: rest)
  end.

(** [list.sort(key=...)]: Python's sort is stable and orders the keys
    with [<]; [x] is put in front of the first element whose key is not
    smaller than its own. *)
Fixpoint sort_insert (x : string * string) (l : list (string * string))
  : list (string * string) :=
  match l with
  | [] => [x]
  | y :: l' =>
      if String.ltb (snd y) (snd x) then y :: sort_insert x l'
      else x :: y :: l'
  end.

(** line 508: [date_and_file.sort(key = lambda row: row[1])] *)
Definition sort_by_date (l : list (string * string))
  : list (string * string) :=
  fold_right sort_insert [] l.

(** lines 491-508: the frames in the order of the animation. *)
Definition date_and_file (infiles : option (list string)) (font : Z)
  (png_filelist : list string) : M (list (string * string)) :=
  do dates <- getDates png_filelist;
  do pairs <- pair_with_dates infiles font png_filelist dates;
  ret (sort_by_date pairs).

(** lines 516-518; [date_and_file] is as long as [png_filelist]. *)
Definition frame_string (frames : list (string * string)) : string :=
  fold_left (fun s m => s ++ " " ++ fst m) frames "".

(** lines 510-520 *)
Definition animate (o : options) (frames : list (string * string))
  : M string :=
  let output := match o_outfile o with
                | Some outfile => outfile ++ ".gif"
                | None => "animation.gif"
                end in
  run execute ("convert -delay 120 -loop 0 " ++ frame_string frames ++ " "
               ++ output);
  ret output.

(** lines 533-551 *)
Definition move_products (o : options) (prodDir : string)
  (power_filelist dB_filelist byte_filelist : list string) : M unit :=
  let move_all l := do _ <- for_each (fun f => shutil_move f prodDir) l; ret tt in
  if String.eqb (o_type o) "power" then move_all power_filelist
  else if String.eqb (o_type o) "dB" then move_all dB_filelist
  else if String.eqb (o_type o) "dB-byte" then move_all byte_filelist
  else if String.eqb (o_type o) "amp" || String.eqb (o_type o) "sigma-byte" then
    do _ <- for_each (fun myfile =>
        do ampfile <- pwr2amp myfile;
        if String.eqb (o_type o) "amp" then shutil_move ampfile prodDir
        else
          do myrange <- get2sigmacutoffs ampfile;
          let newFile := PyStr.replace ".tif" "_sigma.tif" ampfile in
          do _ <- gdal_call newFile ampfile (gdal_sigma_byte myrange);
          shutil_move newFile prodDir) power_filelist;
    ret tt
  else ret tt.

(** lines 523-526: the product directory. *)
Definition prodDir (o : options) : string :=
  match o_outfile o with
  | Some outfile => "../PRODUCT_" ++ outfile
  | None => "PRODUCT"
  end.

(** lines 522-559 *)
Definition publish (o : options) (output : string)
  (power_filelist dB_filelist byte_filelist : list string) : M unit :=
  let prodDir := prodDir o in
  run createCleanDir prodDir;
  run close_log;
  run os_do (Move ("../" ++ logFile o) prodDir);
  run shutil_move output prodDir;
  run move_products o prodDir power_filelist dB_filelist byte_filelist;
  run os_do (Chdir "..");
  if negb (o_leave o) then os_do (Rmtree "TEMP") else ret tt.

(** lines 479-559: what follows the decibel conversion. *)
Definition finish (o : options) (infiles : option (list string))
  (power_filelist dB_filelist : list string) : M unit :=
  do byte_filelist <- scale_to_byte (o_scale o) dB_filelist;
  do png_filelist <- make_pngs byte_filelist;
  do frames <- date_and_file infiles (o_font o) png_filelist;
  do output <- animate o frames;
  publish o output power_filelist dB_filelist byte_filelist.

(** lines 473-559: what is done with a stack that survived the cut. *)
Definition produce (o : options) (infiles : option (list string))
  (power_filelist : list string) : M unit :=
  do dB_filelist <- scale_to_dB power_filelist;
  finish o infiles power_filelist dB_filelist.

(** lines 462-559 *)
Definition after_cut (o : options) (infiles : option (list string))
  (power_filelist : list string) : M unit :=
  run check_survivors o power_filelist;
  produce o infiles power_filelist.

(** lines 327-559 *)
Definition procS1StackRTC (o : options) : M unit :=
  do '(infiles, power_filelist) <- run_to_cut o;
  after_cut o infiles power_filelist.

(** ** Vocabulary of the statements *)

(** The world an outcome ends in, and the value of a call that returned. *)
Definition world_of {A} (o : outcome world A) : world :=
  match o with
  | Ret _ w => w
  | Exit _ w => w
  | Raise _ w => w
  end.

Definition returned {A} (o : outcome world A) : option A :=
  match o with
  | Ret a _ => Some a
  | _ => None
  end.

Definition clipped_name (fi : string) : string :=
  PyStr.replace ".tif" "_clipped.tif" fi.

Definition reproj_name (fi : string) : string :=
  PyStr.replace ".tif" "_reproj.tif" fi.

Definition dB_name (fi : string) : string :=
  PyStr.replace ".tif" "_dB.tif" fi.

(** No raster written for one scene of [l] takes the place of a scene
    that is read later in the loop. *)
Fixpoint no_clobber (out : string -> string) (l : list string) : Prop :=
  match l with
  | [] => True
  | f :: l' => Forall (fun g => out f <> g) l' /\ no_clobber out l'
  end.

Definition readable (fs : gmap string raster) (l : list string) : Prop :=
  Forall (fun f => is_Some (fs !! f)) l.

(** The coverage fraction of the scene stored at [f] against a box. *)
Definition CoverageFraction (clip : coord * coord * coord * coord)
  (fs : gmap string raster) (f : string) : Q :=
  match fs !! f with
  | Some r => coverage (gdal_projWin clip r)
  | None => 0
  end.

(** The zone and hemisphere that line 195 reads off a projection that
    contains the zone token. *)
Definition reference_zone (proj : string) : option (Z * string) :=
  let ptr := PyStr.find "UTM zone " proj in
  if ptr =? -1 then None
  else match PyStr.re_search_digits_any (PyStr.slice_from proj ptr) with
       | Some (g1, g2) => Some (PyStr.int g1, g2)
       | None => None
       end.

(** The zone that lines 204-206 read off a projection. *)
Definition later_zone (proj : string) : option Z :=
  option_map PyStr.int
    (PyStr.re_search_digits
       (PyStr.slice_from proj (PyStr.find "UTM zone " proj))).

Definition zone_at (fs : gmap string raster) (f : string) : option Z :=
  match fs !! f with
  | Some r => later_zone (r_proj r)
  | None => None
  end.

(** What projection reconciliation against zone [zone1] makes of the
    path [f], and of the store. *)
Definition reconciled_name (zone1 : Z) (fs : gmap string raster) (f : string)
  : string :=
  match zone_at fs f with
  | Some z => if z =? zone1 then f else reproj_name f
  | None => f
  end.

Definition reconcile_store (zone1 : Z) (hemi : string) (pixsize : coord)
  (fs0 fs : gmap string raster) (f : string) : gmap string raster :=
  match fs0 !! f, zone_at fs0 f with
  | Some r, Some z =>
      if z =? zone1 then fs
      else <[reproj_name f := gdal_warp (dstSRS zone1 hemi) pixsize r]> fs
  | _, _ => fs
  end.

Definition reconciled_store (zone1 : Z) (hemi : string) (pixsize : coord)
  (fs0 : gmap string raster) (l : list string) : gmap string raster :=
  fold_left (reconcile_store zone1 hemi pixsize fs0) l fs0.


(** The two decimal digits of a zone number below 100. *)
Definition two_digits (z : Z) : string :=
  String (ascii_of_nat (48 + Z.to_nat (z / 10)))
    (String (ascii_of_nat (48 + Z.to_nat (z mod 10))) EmptyString).

(** The raster that the decibel conversion writes for [r]. *)
Definition dB_raster (r : raster) : raster :=
  with_data r (map dB_of (r_data r)).

Definition dB_write (fs0 fs : gmap string raster) (f : string)
  : gmap string raster :=
  match fs0 !! f with
  | Some r => <[dB_name f := dB_raster r]> fs
  | None => fs
  end.

Definition dB_store (fs0 : gmap string raster) (l : list string)
  : gmap string raster :=
  fold_left (dB_write fs0) l fs0.

(** The verdicts of the direction filter: the files whose metadata
    names the requested direction. *)
Definition direction_of (xml : string) : option string :=
  match read_lines xml with
  | Some content => scan_direction content
  | None => None
  end.

Definition matching_direction (direction : string)
  (filelist xmlFiles : list string) : list string :=
  map fst (List.filter (fun fx => same_direction (direction_of (snd fx)) direction)
             (combine filelist xmlFiles)).

(** The diagnostics of lines 463-470. *)
Definition no_survivor_messages (o : options) : list string :=
  ["ERROR: No images survived the clipping process."]
  ++ (if o_overlap o then ["ERROR: The image stack does not have overlap."]
      else [])
  ++ (match o_shape o with
      | Some _ =>
          ["ERROR: The image stack does not overlap with the shape file."]
      | None => []
      end)
  ++ (match o_clip o with
      | Some _ =>
          ["ERROR: None of the images have sufficient overlap with the area of interest.";
           "ERROR: You might try lowering the --black value or picking an new area of interest."]
      | None => []
      end).

(** [m] keeps the property [P] of the world when it returns. *)
Definition preserves {A} (P : world -> Prop) (m : M A) : Prop :=
  forall w a w', P w -> m w = Ret a w' -> P w'.

(** [P] does not look at the raster store. *)
Definition store_only (P : world -> Prop) : Prop :=
  forall w fs, P w -> P (set_files fs w).

Definition is_mkdir (c : os_call) : bool :=
  match c with
  | Mkdir _ => true
  | _ => false
  end.

(** The only directory made so far, if any, is the scratch directory. *)
Definition only_scratch_made (cs : list os_call) : Prop :=
  Forall (fun c => is_mkdir c = true -> c = Mkdir "TEMP") cs.

(** The state of a run between the opening of the log and the end of the
    stack cutter. *)
Definition running (w : world) : Prop :=
  log_st w = LogOpen /\ only_scratch_made (calls w).

(** The name of the frame made from the image [png]: the annotated copy
    when the scenes were discovered, the image itself when the caller named
    the input files. *)
Definition frame_name (infiles : option (list string)) (png : string)
  : string :=
  match infiles with
  | None => "anno_" ++ png
  | Some _ => png
  end.

(** The dates that [getDates] extracts from a list of files. *)
Definition dates_of (filelist dates : list string) : Prop :=
  Forall2 (fun f d => getDate f = Some d) filelist dates.

(** Non-decreasing by date. *)
Definition date_le (a b : string * string) : Prop :=
  String.leb (snd a) (snd b) = true.

Definition with_date (d : string) (l : list (string * string))
  : list (string * string) :=
  List.filter (fun m => String.eqb (snd m) d) l.

(** ** Vocabulary of the further properties *)

(** The number of occurrences of the character [c] in [s]. *)
Fixpoint count_char (c : ascii) (s : string) : nat :=
  match s with
  | EmptyString => O
  | String d s' => ((if Ascii.eqb d c then 1 else 0) + count_char c s')%nat
  end.

(** Nothing, or something that starts with the separator [c]. *)
Definition starts_field (c : ascii) (rest : string) : Prop :=
  rest = "" \/ exists r, rest = String c r.

(** The file [base], alone or under a directory. *)
Definition in_dir (dir : option string) (base : string) : string :=
  match dir with
  | Some d => d ++ "/" ++ base
  | None => base
  end.

(** A file name of five dash-separated fields, the last one followed by
    [tail]. *)
Definition product_name (p0 p1 p2 p3 field tail : string) : string :=
  p0 ++ "-" ++ p1 ++ "-" ++ p2 ++ "-" ++ p3 ++ "-" ++ field ++ tail.

(** lines 418-423: one round of the loop over the caller's input files. *)
Definition take_one (myfile : string) : M string :=
  run (if negb (os_isfile myfile)
       then (run plog ("ERROR: Can't find input file " ++ myfile); mexit 1)
       else ret tt);
  do c <- first_char myfile;
  ret (if negb (Ascii.eqb c "/") then PyStr.join os_getcwd myfile
       else myfile).

(** lines 421-422: the path under which an input file is taken. *)
Definition absolute (myfile : string) : string :=
  match myfile with
  | String c _ =>
      if Ascii.eqb c "/" then myfile else PyStr.join os_getcwd myfile
  | EmptyString => myfile
  end.

(** lines 432-437: one round of the linking loop. *)
Definition link_one (fi : string) : M string :=
  if PyStr.contains "/" fi then
    run os_symlink fi (PyStr.basename fi);
    ret (PyStr.basename fi)
  else
    do present <- raster_isfile fi;
    if negb present then run os_symlink ("../" ++ fi) fi; ret fi
    else ret fi.

(** What lines 338-348 write to the log when they find nothing wrong. *)
Definition option_messages (o : options) : list string :=
  (if existsb (String.eqb (o_type o)) types
   then "Creating " ++ o_type o ++ " output frames"
   else "ERROR: unknown output type " ++ o_type o)
  :: match o_keep o with
     | Some keep =>
         if String.eqb keep "a" then ["Keeping only ascending images"]
         else if String.eqb keep "d" then ["Keeping only descending images"]
         else []
     | None => []
     end.

(** The complaints of lines 344-351, 353-362 and 363-366. *)
Definition keep_error (o : options) : option string :=
  match o_keep o with
  | Some keep =>
      if String.eqb keep "a" || String.eqb keep "d" then None
      else Some ("ERROR: Unknown keep value " ++ keep
                 ++ " - must be either 'a' or 'a'")
  | None => None
  end.

Definition shape_error (o : options) : option string :=
  match o_shape o with
  | Some shape =>
      if negb (os_isfile shape)
      then Some ("ERROR: Shape file " ++ shape ++ " does not exist")
      else match o_clip o with
           | Some _ =>
               Some "ERROR: Can not use both shapefile and image clipping options"
           | None =>
               if o_overlap o
               then Some "ERROR: Can not use both shapefile and clip to overlap options"
               else None
           end
  | None => None
  end.

Definition clip_error (o : options) : option string :=
  match o_clip o with
  | Some _ =>
      if o_overlap o
      then Some "ERROR: Can not use both clip to overlap and image clipping options"
      else None
  | None => None
  end.

(** The complaint that ends the run, if any: the first of the three. *)
Definition option_error (o : options) : option string :=
  match keep_error o, shape_error o with
  | Some e, _ => Some e
  | None, Some e => Some e
  | None, None => clip_error o
  end.

(** lines 305-306: the metadata file that [getXmlFiles] picks for a
    date, the first match of each of the two patterns. *)
Definition xml_of (date : string) : option string :=
  match os_glob ("*" ++ date ++ "*-rtc-gamma") with
  | mydir :: _ =>
      match os_glob (mydir ++ "/*.iso.xml") with
      | myfile :: _ => Some myfile
      | [] => None
      end
  | [] => None
  end.

(** A line that names neither flight direction. *)
Definition silent (line : string) : Prop :=
  PyStr.contains "ascending" line = false
  /\ PyStr.contains "descending" line = false.

Definition amp_name (fi : string) : string :=
  PyStr.replace ".tif" "_amp.tif" fi.

Definition sigma_name (fi : string) : string :=
  PyStr.replace ".tif" "_sigma.tif" fi.

(** The rasters that the amplitude and the power conversion write for
    [r]. *)
Definition amp_raster (r : raster) : raster :=
  with_data r (map pix_sqrt (r_data r)).

Definition pwr_raster (r : raster) : raster :=
  with_data r (map (fun p => pix_mul p p) (r_data r)).

Definition pwr_write (fs0 fs : gmap string raster) (f : string)
  : gmap string raster :=
  match fs0 !! f with
  | Some r => <[amp_name f := pwr_raster r]> fs
  | None => fs
  end.

Definition pwr_store (fs0 : gmap string raster) (l : list string)
  : gmap string raster :=
  fold_left (pwr_write fs0) l fs0.

(** lines 105-109: one round of the loop of [amp2pwr]. *)
Definition amp2pwr_one (fi : string) : M string :=
  do ds <- open_gdal_file fi;
  do r <- read_gdal_file fi ds;
  let pwrdata := map (fun p => pix_mul p p) (r_data r) in
  let outfile := PyStr.replace ".tif" "_amp.tif" fi in
  run write_gdal_file_float outfile (with_data r pwrdata);
  ret outfile.

(** The rasters that lines 533-551 move to the product directory. *)
Definition published (o : options)
  (power_filelist dB_filelist byte_filelist : list string) : list string :=
  if String.eqb (o_type o) "power" then power_filelist
  else if String.eqb (o_type o) "dB" then dB_filelist
  else if String.eqb (o_type o) "dB-byte" then byte_filelist
  else if String.eqb (o_type o) "amp" then map amp_name power_filelist
  else if String.eqb (o_type o) "sigma-byte"
       then map (fun f => sigma_name (amp_name f)) power_filelist
  else [].

(** The calls, the log and its state are where they were. *)
Definition quiet (w w' : world) : Prop :=
  calls w' = calls w /\ log w' = log w /\ log_st w' = log_st w.

(** [m], started in a world where [P] holds, returns in a world where [P]
    holds, or leaves through [exit] with a code and a world that [E]
    accepts, or dies of an exception that [X] accepts in the world it
    leaves behind. *)
Definition along {A} (P : world -> Prop) (E : Z -> world -> Prop)
  (X : exn -> world -> Prop) (m : M A) : Prop :=
  forall w, P w ->
    match m w with
    | Ret _ w' => P w'
    | Exit c w' => E c w'
    | Raise e w' => X e w'
    end.

(** A call that makes or removes no directory other than the scratch
    directory and the product directory of the run. *)
Definition spares_other_dirs (o : options) (c : os_call) : Prop :=
  match c with
  | Mkdir d | Rmtree d => d = "TEMP" \/ d = prodDir o
  | _ => True
  end.

Definition is_chdir (c : os_call) : bool :=
  match c with
  | Chdir _ => true
  | _ => false
  end.

(** The changes of directory among the calls. *)
Definition chdirs (cs : list os_call) : list os_call :=
  List.filter is_chdir cs.

(** Whether lines 382-397 take the scenes from zip files. *)
Definition from_zip (o : options) : bool := truthy (o_hyp o) || o_zipFlag o.

(** The changes of directory of a run that returns (lines 400-414, 429
    and 553). *)
Definition run_chdirs (o : options) : list os_call :=
  (match o_infiles o with
   | Some (_ :: _) => []
   | _ =>
       (if from_zip o then [] else [Chdir "TEMP"; Chdir ".."])
       ++ [Chdir "TEMP"; Chdir ".."]
   end ++ [Chdir "TEMP"; Chdir ".."])%list.

(** The name of the animation (lines 511-514). *)
Definition animation (o : options) : string :=
  match o_outfile o with
  | Some outfile => outfile ++ ".gif"
  | None => "animation.gif"
  end.

(** lines 382-389: the download from a subscription, with the [zipFlag]
    and the [path] that the lines below it go on with. *)
Definition download (o : options) (path : string) : M (bool * string) :=
  match o_hyp o with
  | Some (String c h) =>
      let hyp := String c h in
      run plog ("Using Hyp3 subscription named " ++ hyp
                ++ " to download input files");
      run store_do (hyp3_download hyp);
      ret (true, "hyp3-products")
  | _ => ret (o_zipFlag o, path)
  end.

(** lines 393-397: one round of the loop over the zip files. *)
Definition unzip_one (path myfile : string) : M unit :=
  if PyStr.contains ".zip" myfile then
    run plog ("    unzipping file " ++ myfile);
    store_do (zip_extractall (PyStr.join path myfile))
  else ret tt.

(** lines 391-397 *)
Definition unzip_all (path : string) : M unit :=
  run plog ("No input files given, using hyp3 zip files from " ++ path);
  do _ <- for_each (unzip_one path) (os_listdir path);
  ret tt.

(** lines 402-403: one round of the loop over the product directories. *)
Definition link_product (path myfile : string) : M unit :=
  if os_isdir (PyStr.join path myfile) && PyStr.contains "m-rtc-" myfile
  then
    run os_do (Symlink (PyStr.join path myfile) (PyStr.basename myfile));
    store_do (symlink_product (PyStr.join path myfile)
                (PyStr.basename myfile))
  else ret tt.

(** lines 399-404 *)
Definition link_products (path : string) : M unit :=
  run plog ("No input files given, using already unzipped hyp3 files in "
            ++ path);
  run os_do (Chdir "TEMP");
  do _ <- for_each (link_product path) (os_listdir path);
  os_do (Chdir "..").

(** lines 406-410: the scenes found in the scratch directory. *)
Definition found_scenes : list string :=
  if (length (os_glob "*/*vv*.tif") =? 0)%nat then os_glob "*vv*.tif"
  else os_glob "*/*vv*.tif".

(** lines 405-414 *)
Definition glob_scenes (o : options) : M (list string) :=
  run os_do (Chdir "TEMP");
  do filelist <- (match truthy (o_hyp o), o_clip o with
                  | true, Some clip => fix_file_list found_scenes clip
                  | _, _ => ret found_scenes
                  end);
  run os_do (Chdir "..");
  ret filelist.

(** line 113: the name of the byte-scaled version of [fi]. *)
Definition byte_name (scale : coord * coord) (fi : string) : string :=
  PyStr.replace ".tif"
    (PyStr.str_of_int (int_of_coord (fst scale)) ++ "_"
     ++ PyStr.str_of_int (int_of_coord (snd scale)) ++ ".tif") fi.

(** The calls of lines 527-557 for a stack of power rasters: the product
    directory is made, the log, the animation and the rasters of the
    output type are moved into it, and the scratch directory is left and,
    unless it is to stay, removed. *)
Definition publishing_calls (o : options) (power_filelist : list string)
  : list os_call :=
  let dB_filelist := map dB_name power_filelist in
  let byte_filelist := map (byte_name (o_scale o)) dB_filelist in
  ([Mkdir (prodDir o);
    Move ("../" ++ logFile o) (prodDir o);
    Move (animation o) (prodDir o)]
   ++ map (fun f => Move f (prodDir o))
        (published o power_filelist dB_filelist byte_filelist)
   ++ Chdir ".." :: (if o_leave o then [] else [Rmtree "TEMP"]))%list.

(** [m], when it returns, has added the changes of directory [cs] to the
    calls. *)
Definition moves {A} (cs : list os_call) (m : M A) : Prop :=
  forall w a w',
    m w = Ret a w' -> chdirs (calls w') = (chdirs (calls w) ++ cs)%list.

(** [m] returns whenever the log is open, and leaves it open. *)
Definition returns_open {A} (m : M A) : Prop :=
  forall w, log_st w = LogOpen ->
            exists a w', m w = Ret a w' /\ log_st w' = LogOpen.

(** A string of decimal digits only. *)
Fixpoint digits_only (s : string) : bool :=
  match s with
  | EmptyString => true
  | String c s' => PyStr.is_digit c && digits_only s'
  end.

(** A projection whose first zone token comes after [a] and is followed
    by the digits [ds], the character [h] and then [b]. *)
Definition tagged (proj a ds : string) (h : ascii) (b : string) : Prop :=
  proj = a ++ "UTM zone " ++ ds ++ String h b
  /\ PyStr.find "UTM zone " proj = Z.of_nat (String.length a)
  /\ ds <> ""
  /\ digits_only ds = true
  /\ PyStr.is_digit h = false
  /\ h <> PyStr.newline.

End Model.

(** ** Pixels of 32-bit floats *)

(** The rasters of the program hold 32-bit floats: it is the type that
    [saa.write_gdal_file_float] writes, and numpy multiplies and takes
    square roots of such an array in IEEE 754 binary32, rounding to
    nearest even. [SFmul] and [SFsqrt] of the Standard Library at
    precision 24 and maximal exponent 128 are these two operations. *)
Module Binary32.

Definition prec : Z := 24.
Definition emax : Z := 128.

(** [data * data], one pixel *)
Definition mul : spec_float -> spec_float -> spec_float := SFmul prec emax.

(** [np.sqrt(data)], one pixel *)
Definition sqrt : spec_float -> spec_float := SFsqrt prec emax.

(** [data != 0]: false on the two zeros only. *)
Definition is_zero (x : spec_float) : bool :=
  match x with
  | S754_zero _ => true
  | _ => false
  end.

(** The factor [10] of [10 * np.log(data)]. *)
Definition ten : spec_float := S754_finite false 10485760 (-20).







(** The pixels of the program as 32-bit floats. The natural logarithm
    of numpy and the floats that the program only passes on are taken
    as they come. *)
Section Instance.

Variable np_log : spec_float -> spec_float.
Variable passed_on : Floats.

Definition floats32 : Floats := {|
  pixel := spec_float;
  pix_is_zero := is_zero;
  pix_mul := mul;
  pix_sqrt := sqrt;
  pix_log := np_log;
  pix_ten := ten;
  coord := @coord passed_on;
  int_of_coord := @int_of_coord passed_on;
  coord_of_Z := @coord_of_Z passed_on;
  fmt_coord := @fmt_coord passed_on;
  fmt_frac := @fmt_frac passed_on;
  repr_list := @repr_list passed_on |}.

End Instance.

End Binary32.

(** ** A small instance to run the pipeline on *)

Module Demo.

(** Integer pixels; [np.log] and [np.sqrt] are stood in for by the integer
    logarithm and square root. *)
#[export] Instance floats : Floats := {|
  pixel := Z;
  pix_is_zero := Z.eqb 0;
  pix_mul := Z.mul;
  pix_sqrt := Z.sqrt;
  pix_log := Z.log2;
  pix_ten := 10;
  coord := Z;
  int_of_coord := fun z => z;
  coord_of_Z := fun z => z;
  fmt_coord := PyStr.str_of_int;
  fmt_frac := fun q =>
    PyStr.str_of_int (Qnum q) ++ "/" ++ PyStr.str_of_int (Z.pos (Qden q));
  repr_list := String.concat "," |}.

Definition blank : raster :=
  {| r_x := 1; r_y := 1;
     r_trans := {| gt0 := 0; gt1 := 1; gt2 := 0; gt3 := 0; gt4 := 0; gt5 := -1 |};
     r_proj := ""; r_data := [0] |}.

(** GDAL leaves the pixels alone, a warp rewrites the projection, a
    shell command creates the file named by its last word, and the
    metadata of a product lies in the directory named after its date. *)
#[export] Instance collaborators : Collaborators := {|
  gdal_projWin := fun _ r => r;
  gdal_scale_byte := fun _ _ r => r;
  gdal_sigma_byte := fun _ r => r;
  gdal_resample := fun _ r => r;
  gdal_png := fun r => r;
  gdal_warp := fun proj _ r =>
    {| r_x := r_x r; r_y := r_y r; r_trans := r_trans r; r_proj := proj;
       r_data := r_data r |};
  cutGeotiffsByLine := fun l fs => (l, fs);
  enh_lee := fun _ d => d;
  sigma_cutoffs := fun _ => (0, 0);
  shell := fun cmd fs => <[List.last (PyStr.split " " cmd) "" := blank]> fs;
  os_getcwd := "/data";
  os_isfile := fun _ => true;
  os_isdir := fun _ => false;
  os_listdir := fun _ => [];
  os_glob := fun pattern =>
    if PyStr.contains ".iso.xml" pattern
    then [PyStr.replace "*" "meta" pattern]
    else if PyStr.contains "-rtc-gamma" pattern
    then [PyStr.replace "*" "" pattern]
    else [];
  read_lines := fun f =>
    if String.eqb f "20180118T031947-rtc-gamma/meta.iso.xml"
    then Some ["<gml:description>ascending</gml:description>"]
    else if String.eqb f "20180211T031947-rtc-gamma/meta.iso.xml"
    then Some ["<gml:description>descending</gml:description>"]
    else Some ["<gml:description/>"];
  hyp3_download := fun _ fs => fs;
  zip_extractall := fun _ fs => fs;
  symlink_product := fun _ _ fs => fs |}.

Definition gt : geotransform :=
  {| gt0 := 0; gt1 := 30; gt2 := 0; gt3 := 0; gt4 := 0; gt5 := -30 |}.

(** A raster of 5 by 2 pixels. *)
Definition img (proj : string) (d : list Z) : raster :=
  {| r_x := 5; r_y := 2; r_trans := gt; r_proj := proj; r_data := d |}.

Definition utm5 : string := "PROJCS[WGS 84 / UTM zone 5N,GEOGCS[WGS 84]]".
Definition utm6 : string := "PROJCS[WGS 84 / UTM zone 6N,GEOGCS[WGS 84]]".
Definition geographic : string := "GEOGCS[WGS 84,DATUM[WGS_1984]]".

(** Three scenes: full coverage in zone 5, a tenth in zone 6, four tenths
    in zone 5. *)
Definition store3 : gmap string raster :=
  <["a.tif" := img utm5 [1; 1; 1; 1; 1; 1; 1; 1; 1; 1]]>
  (<["b.tif" := img utm6 [1; 0; 0; 0; 0; 0; 0; 0; 0; 0]]>
  (<["c.tif" := img utm5 [1; 1; 1; 1; 0; 0; 0; 0; 0; 0]]> ∅)).

Definition w3 : world :=
  {| files := store3; log := []; log_st := LogOpen; calls := [] |}.

Definition box : Z * Z * Z * Z := (0, 10, 10, 0).

Definition scenes3 : list string := ["a.tif"; "b.tif"; "c.tif"].

Definition w3_reconciled : world := world_of (fix_projections scenes3 w3).

(** Two scenes that the box misses altogether. *)
Definition store_dark : gmap string raster :=
  <["a.tif" := img utm5 [0; 0; 0; 0; 0; 0; 0; 0; 0; 0]]>
  (<["c.tif" := img utm5 [0; 0; 0; 0; 0; 0; 0; 0; 0; 0]]> ∅).

Definition w_dark : world :=
  {| files := store_dark; log := []; log_st := LogOpen; calls := [] |}.

(** A zone-tagged scene followed by one in geographic coordinates. *)
Definition store_mixed : gmap string raster :=
  <["a.tif" := img utm5 [1; 1; 1; 1; 1; 1; 1; 1; 1; 1]]>
  (<["g.tif" := img geographic [1; 1; 1; 1; 1; 1; 1; 1; 1; 1]]> ∅).

Definition w_mixed : world :=
  {| files := store_mixed; log := []; log_st := LogOpen; calls := [] |}.

(** A zone-tagged scene followed by one whose projection has no zone token
    and ends in a digit. *)
Definition proj4_longlat : string := "+proj=longlat +datum=WGS84 +towgs84=0,0,0".

Definition store_proj4 : gmap string raster :=
  <["a.tif" := img utm5 [1; 1; 1; 1; 1; 1; 1; 1; 1; 1]]>
  (<["e.tif" := img proj4_longlat [1; 1; 1; 1; 1; 1; 1; 1; 1; 1]]> ∅).

Definition w_proj4 : world :=
  {| files := store_proj4; log := []; log_st := LogOpen; calls := [] |}.

(** A run over one input file that covers a tenth of the box. *)
Definition scene_jan : string :=
  "/d/s1b-iw-rtcm-vv-20180118T031947_G.tif".

Definition store_run : gmap string raster :=
  <[scene_jan := img utm5 [1; 0; 0; 0; 0; 0; 0; 0; 0; 0]]> ∅.

Definition w_run : world :=
  {| files := store_run; log := []; log_st := LogUnset; calls := [] |}.

Definition opts_run : options :=
  {| o_outfile := None; o_infiles := Some [scene_jan]; o_path := None;
     o_res := None; o_filter := false; o_type := "dB-byte";
     o_scale := (-40, 0); o_clip := Some box; o_shape := None;
     o_overlap := false; o_zipFlag := false; o_leave := false;
     o_thresh := default_thresh; o_font := 24; o_quick := false;
     o_amp := false; o_hyp := None; o_keep := Some "a" |}.

(** Two images whose names sort against their dates. *)
Definition png_feb : string :=
  "s1a-iw-rtcm-vv-20180211T031947_dB-40_0.png".

Definition png_jan : string :=
  "s1b-iw-rtcm-vv-20180118T031947_dB-40_0.png".

(** *** More of the small instance *)

(** A second operating system: one input file and one directory exist,
    no pattern matches and no metadata can be read. *)
Definition bare : Collaborators := {|
  gdal_projWin := fun _ r => r;
  gdal_scale_byte := fun _ _ r => r;
  gdal_sigma_byte := fun _ r => r;
  gdal_resample := fun _ r => r;
  gdal_png := fun r => r;
  gdal_warp := fun _ _ r => r;
  cutGeotiffsByLine := fun l fs => (l, fs);
  enh_lee := fun _ d => d;
  sigma_cutoffs := fun _ => (0, 0);
  shell := fun _ fs => fs;
  os_getcwd := "/data";
  os_isfile := String.eqb "/d/a.tif";
  os_isdir := String.eqb "/data/in";
  os_listdir := fun _ => [];
  os_glob := fun _ => [];
  read_lines := fun _ => None;
  hyp3_download := fun _ fs => fs;
  zip_extractall := fun _ fs => fs;
  symlink_product := fun _ _ fs => fs |}.

(** The run of [w_run] with the log already open. *)
Definition w_open : world :=
  {| files := store_run; log := []; log_st := LogOpen; calls := [] |}.

(** The same scene under another directory. *)
Definition scene_jan_copy : string :=
  "/e/s1b-iw-rtcm-vv-20180118T031947_G.tif".

(** Options without clipping, for a run that goes through. *)
Definition opts_pass : options :=
  {| o_outfile := None; o_infiles := Some [scene_jan]; o_path := None;
     o_res := None; o_filter := false; o_type := "dB-byte";
     o_scale := (-40, 0); o_clip := None; o_shape := None;
     o_overlap := false; o_zipFlag := false; o_leave := false;
     o_thresh := default_thresh; o_font := 24; o_quick := false;
     o_amp := false; o_hyp := None; o_keep := None |}.

(** Options that ask for a box and for the common overlap at once. *)
Definition opts_clash : options :=
  {| o_outfile := None; o_infiles := Some [scene_jan]; o_path := None;
     o_res := None; o_filter := false; o_type := "dB-byte";
     o_scale := (-40, 0); o_clip := Some box; o_shape := None;
     o_overlap := true; o_zipFlag := false; o_leave := false;
     o_thresh := default_thresh; o_font := 24; o_quick := false;
     o_amp := false; o_hyp := None; o_keep := None |}.

(** Options with an output type that does not exist. *)
Definition opts_odd : options :=
  {| o_outfile := None; o_infiles := Some [scene_jan]; o_path := None;
     o_res := None; o_filter := false; o_type := "jpeg";
     o_scale := (-40, 0); o_clip := None; o_shape := None;
     o_overlap := false; o_zipFlag := false; o_leave := false;
     o_thresh := default_thresh; o_font := 24; o_quick := false;
     o_amp := false; o_hyp := None; o_keep := None |}.

(** Options that name a directory of products and no input files. *)
Definition opts_dir (path : string) : options :=
  {| o_outfile := None; o_infiles := None; o_path := Some path;
     o_res := None; o_filter := false; o_type := "dB-byte";
     o_scale := (-40, 0); o_clip := None; o_shape := None;
     o_overlap := false; o_zipFlag := false; o_leave := false;
     o_thresh := default_thresh; o_font := 24; o_quick := false;
     o_amp := false; o_hyp := None; o_keep := None |}.

(** Options that give nothing at all. *)
Definition opts_none : options :=
  {| o_outfile := None; o_infiles := None; o_path := None;
     o_res := None; o_filter := false; o_type := "dB-byte";
     o_scale := (-40, 0); o_clip := None; o_shape := None;
     o_overlap := false; o_zipFlag := false; o_leave := false;
     o_thresh := default_thresh; o_font := 24; o_quick := false;
     o_amp := false; o_hyp := None; o_keep := None |}.

(** Zone 5 on the southern hemisphere, and a stack with one scene on
    each side of the equator. *)
Definition utm5s : string := "PROJCS[WGS 84 / UTM zone 5S,GEOGCS[WGS 84]]".

Definition store_hemi : gmap string raster :=
  <["n.tif" := img utm5 [1; 1; 1; 1; 1; 1; 1; 1; 1; 1]]>
  (<["s.tif" := img utm5s [1; 1; 1; 1; 1; 1; 1; 1; 1; 1]]> ∅).

Definition w_hemi : world :=
  {| files := store_hemi; log := []; log_st := LogOpen; calls := [] |}.

(** Three scenes of which the last two cover the box equally well. *)
Definition store_tie : gmap string raster :=
  <["b.tif" := img utm5 [1; 0; 0; 0; 0; 0; 0; 0; 0; 0]]>
  (<["c.tif" := img utm5 [1; 1; 1; 1; 0; 0; 0; 0; 0; 0]]>
  (<["d.tif" := img utm5 [0; 0; 0; 0; 0; 0; 1; 1; 1; 1]]> ∅)).

Definition w_tie : world :=
  {| files := store_tie; log := []; log_st := LogOpen; calls := [] |}.

(** The product name of the comment above [getDates] (line 146). *)
Definition long_field : string :=
  "S1B_IW_GRDH_1SDV_20180118T031947_20180118T032012_009220_01084D_97C9_clipped_dB".

(** A scene whose projection has the zone token and no zone number. *)
Definition utm_unnumbered : string := "PROJCS[WGS 84 / UTM zone unknown]".

Definition store_unnumbered : gmap string raster :=
  <["u.tif" := img utm_unnumbered [1; 1; 1; 1; 1; 1; 1; 1; 1; 1]]> ∅.

Definition w_unnumbered : world :=
  {| files := store_unnumbered; log := []; log_st := LogOpen; calls := [] |}.

(** *** Rasters of 32-bit floats *)

(** The pixels as 32-bit floats, the logarithm left out. *)
Definition floats32 : Floats := Binary32.floats32 (fun x => x) floats.







End Demo.

(** * Properties *)

(** ** The string primitives on the names the program meets *)

Example find_utm :
  PyStr.find "UTM zone " "PROJCS[WGS 84 / UTM zone 5N,GEOGCS" = 16.
Proof. reflexivity. Qed.

Example find_absent : PyStr.find "UTM zone " "GEOGCS[WGS 84]" = -1.
Proof. reflexivity. Qed.

Example slice_minus_one : PyStr.slice_from "GEOGCS[WGS 84]" (-1) = "]".
Proof. reflexivity. Qed.

Example replace_tif : PyStr.replace ".tif" "_clipped.tif" "a.tif" = "a_clipped.tif".
Proof. reflexivity. Qed.

Example split_dash :
  PyStr.split "-" "s1b-iw-rtcm-vv-X_Y" = ["s1b"; "iw"; "rtcm"; "vv"; "X_Y"].
Proof. reflexivity. Qed.

Example search_zone :
  PyStr.re_search_digits_any "UTM zone 5N,GEOGCS" = Some ("5", "N").
Proof. reflexivity. Qed.

Example search_zone_backtrack :
  PyStr.re_search_digits_any "UTM zone 15" = Some ("1", "5").
Proof. reflexivity. Qed.

Example fmt_zone : PyStr.fmt_02d 5 = "05".
Proof. reflexivity. Qed.

Section Facts.

Context {F : Floats} {C : Collaborators}.

(** ** The monad *)

Lemma bind_Ret {A B} (m : M A) (k : A -> M B) w a w' :
  m w = Ret a w' -> bind m k w = k a w'.
Proof. intros H. unfold bind. now rewrite H. Qed.

Lemma bind_inv_Ret {A B} (m : M A) (k : A -> M B) w b w2 :
  bind m k w = Ret b w2 -> exists a w1, m w = Ret a w1 /\ k a w1 = Ret b w2.
Proof.
  unfold bind. destruct (m w) as [a w1| |]; try discriminate.
  intros H. now exists a, w1.
Qed.

Lemma for_each_cons_inv {A B} (f : A -> M B) a l w bs w' :
  for_each f (a :: l) w = Ret bs w' ->
  exists b w1 bs', f a w = Ret b w1 /\ for_each f l w1 = Ret bs' w'
                   /\ bs = b :: bs'.
Proof.
  cbn [for_each]. destruct (f a w) as [b w1| |] eqn:E1; try discriminate.
  destruct (for_each f l w1) as [bs' w2| |] eqn:E2; try discriminate.
  intros H. inversion H; subst. exists b, w1, bs'. repeat split. exact E2.
Qed.

Lemma plog_open msg w :
  log_st w = LogOpen -> plog msg w = Ret tt (add_log msg w).
Proof. intros H. unfold plog. now rewrite H. Qed.

Lemma set_files_same (w : world) : set_files (files w) w = w.
Proof. now destruct w. Qed.

(** ** One call of [cut] *)

Lemma coverage_nonneg (r : raster) : (0 <= coverage r)%Q.
Proof. unfold coverage, Qle. simpl. lia. Qed.

Lemma cut_returns pt1 pt2 pt3 pt4 fi t w r :
  files w !! fi = Some r ->
  log_st w = LogOpen ->
  let q := coverage (gdal_projWin (pt1, pt2, pt3, pt4) r) in
  exists w',
    cut pt1 pt2 pt3 pt4 fi (Some t) w
    = Ret (if Qlt_bool q t then None else Some (clipped_name fi), q) w'
    /\ log_st w' = LogOpen
    /\ (forall g, g <> clipped_name fi -> files w' !! g = files w !! g)
    /\ (exists lines, log w' = (log w ++ lines)%list)
    /\ (Qlt_bool q t = false ->
        log w' = log w /\ calls w' = calls w
        /\ files w' !! clipped_name fi
           = Some (gdal_projWin (pt1, pt2, pt3, pt4) r)).
Proof.
  intros Hfi Hlog q.
  unfold cut, gdal_call, bind. rewrite Hfi. cbn.
  fold (clipped_name fi). fold q.
  destruct (Qlt_bool q t) eqn:Hq.
  - unfold plog, os_remove. cbn. rewrite Hlog. cbn.
    rewrite lookup_insert_eq. cbn.
    eexists. split; [reflexivity|]. cbn. split; [assumption|]. split; [|split].
    + intros g Hg. rewrite lookup_delete_ne by congruence.
      now rewrite lookup_insert_ne by congruence.
    + eexists. reflexivity.
    + discriminate.
  - eexists. split; [reflexivity|]. cbn. split; [assumption|]. split; [|split].
    + intros g Hg. now rewrite lookup_insert_ne by congruence.
    + exists []. now rewrite app_nil_r.
    + intros _. now rewrite lookup_insert_eq.
Qed.

(** ** Invariants of the world along a call *)

Lemma preserves_ret {A} P (a : A) : preserves P (ret a).
Proof. intros w a' w' HP H. now inversion H; subst. Qed.

Lemma preserves_raise {A} P e : preserves P (@raise _ A e).
Proof. intros w a' w' HP H. discriminate. Qed.

Lemma preserves_bind {A B} P (m : M A) (k : A -> M B) :
  preserves P m -> (forall a, preserves P (k a)) -> preserves P (bind m k).
Proof.
  intros Hm Hk w b w2 HP H.
  apply bind_inv_Ret in H as (a & w1 & H1 & H2).
  eapply Hk; [|exact H2]. eapply Hm; eassumption.
Qed.

Lemma preserves_for_each {A B} P (f : A -> M B) l :
  (forall a, preserves P (f a)) -> preserves P (for_each f l).
Proof.
  intros Hf. induction l as [|a l IH]; intros w bs w' HP H.
  - now inversion H; subst.
  - apply for_each_cons_inv in H as (b & w1 & bs' & E1 & E2 & ->).
    eapply IH; [|exact E2]. eapply Hf; eassumption.
Qed.

Lemma preserves_item {A} P (l : list A) i : preserves P (item l i).
Proof.
  unfold item.
  destruct (nth_error l i); [apply preserves_ret|apply preserves_raise].
Qed.

Lemma preserves_mexit {A} P c : preserves P (@mexit _ A c).
Proof.
  intros w a w' _ H. unfold mexit in H. destruct (log_st w); discriminate.
Qed.

(** Calls that touch nothing but the raster store. *)

Section StoreOnly.
Variable P : world -> Prop.
Hypothesis HP : store_only P.

Lemma preserves_open_gdal_file fi : preserves P (open_gdal_file fi).
Proof. intros w a w' Hw H. now inversion H; subst. Qed.

Lemma preserves_read_gdal_file fi ds : preserves P (read_gdal_file fi ds).
Proof. destruct ds; [apply preserves_ret|apply preserves_raise]. Qed.

Lemma preserves_write_gdal_file_float fi r :
  preserves P (write_gdal_file_float fi r).
Proof. intros w a w' Hw H. inversion H; subst. now apply HP. Qed.

Lemma preserves_gdal_call out fi f : preserves P (gdal_call out fi f).
Proof.
  intros w a w' Hw H. unfold gdal_call in H.
  destruct (files w !! fi); inversion H; subst; [now apply HP|assumption].
Qed.

Lemma preserves_store_do f : preserves P (store_do f).
Proof. intros w a w' Hw H. inversion H; subst. now apply HP. Qed.

Lemma preserves_raster_isfile f : preserves P (raster_isfile f).
Proof. intros w a w' Hw H. now inversion H; subst. Qed.

Lemma preserves_reconcile zone1 hemi pixsize file2 :
  preserves P (reconcile zone1 hemi pixsize file2).
Proof.
  unfold reconcile.
  apply preserves_bind; [apply preserves_open_gdal_file|intros dst2].
  apply preserves_bind;
    [destruct dst2; [apply preserves_ret|apply preserves_raise]|intros p2].
  apply preserves_bind.
  { destruct (PyStr.re_search_digits _);
      [apply preserves_ret|apply preserves_raise]. }
  intros zone2. destruct (negb _); [|apply preserves_ret].
  apply preserves_bind; [apply preserves_gdal_call|intros _; apply preserves_ret].
Qed.

Lemma preserves_fix_projections filelist :
  preserves P (fix_projections filelist).
Proof.
  unfold fix_projections.
  apply preserves_bind; [apply preserves_item|intros file1].
  apply preserves_bind; [apply preserves_open_gdal_file|intros ds].
  apply preserves_bind; [apply preserves_read_gdal_file|intros r].
  destruct (negb _); [|apply preserves_ret].
  apply preserves_bind.
  { destruct (PyStr.re_search_digits_any _) as [[g1 g2]|];
      [apply preserves_ret|apply preserves_raise]. }
  intros [zone1 hemi].
  apply preserves_bind; [|intros rest; apply preserves_ret].
  apply preserves_for_each. intros file2. apply preserves_reconcile.
Qed.

End StoreOnly.


(** ** The bounding-box loop of the stack cutter *)



(** ** Projection reconciliation *)

Lemma reconcile_returns zone1 hemi pixsize file2 w r2 z2 :
  files w !! file2 = Some r2 ->
  later_zone (r_proj r2) = Some z2 ->
  reconcile zone1 hemi pixsize file2 w
  = Ret (if z2 =? zone1 then file2 else reproj_name file2)
        (if z2 =? zone1 then w
         else set_files (<[reproj_name file2 :=
                             gdal_warp (dstSRS zone1 hemi) pixsize r2]>
                           (files w)) w).
Proof.
  intros Hf Hz. unfold later_zone in Hz.
  unfold reconcile, bind, open_gdal_file. rewrite Hf. cbn.
  destruct (PyStr.re_search_digits _) as [g|]; [|discriminate].
  cbn in Hz. injection Hz as <-. cbn.
  rewrite (Z.eqb_sym zone1).
  destruct (PyStr.int g =? zone1); cbn; [reflexivity|].
  unfold gdal_call. now rewrite Hf.
Qed.

Lemma reconcile_loop_returns zone1 hemi pixsize fs0 l : forall w,
  (forall g, In g l -> files w !! g = fs0 !! g) ->
  Forall (fun f => is_Some (zone_at fs0 f)) l ->
  no_clobber reproj_name l ->
  for_each (reconcile zone1 hemi pixsize) l w
  = Ret (map (reconciled_name zone1 fs0) l)
        (set_files (fold_left (reconcile_store zone1 hemi pixsize fs0) l
                      (files w)) w).
Proof.
  induction l as [|f l IH]; intros w Hagree Hzone Hfresh.
  - cbn. now rewrite set_files_same.
  - inversion Hzone as [|? ? [z Hz] Hzone']; subst.
    destruct Hfresh as [Hf Hfresh'].
    rewrite List.Forall_forall in Hf.
    unfold zone_at in Hz.
    destruct (fs0 !! f) as [r|] eqn:Hr; [|discriminate].
    assert (Hw : files w !! f = Some r)
      by (rewrite Hagree; [assumption|now left]).
    cbn [for_each map fold_left].
    rewrite (reconcile_returns zone1 hemi pixsize f w r z Hw Hz).
    unfold reconciled_name at 1, reconcile_store at 2, zone_at.
    rewrite Hr, Hz.
    destruct (z =? zone1).
    + rewrite IH; auto. intros g Hg. apply Hagree. now right.
    + rewrite IH; auto.
      intros g Hg. cbn. rewrite lookup_insert_ne.
      * apply Hagree. now right.
      * now apply Hf.
Qed.

Lemma reconcile_grows zone1 hemi pixsize f w n w' :
  reconcile zone1 hemi pixsize f w = Ret n w' ->
  is_Some (files w' !! n)
  /\ forall g, is_Some (files w !! g) -> is_Some (files w' !! g).
Proof.
  unfold reconcile, bind, open_gdal_file.
  destruct (files w !! f) as [r|] eqn:Hf; cbn; [|discriminate].
  destruct (PyStr.re_search_digits _); cbn; [|discriminate].
  destruct (negb _); cbn.
  - unfold gdal_call. rewrite Hf. cbn. intros H. inversion H; subst. cbn. split.
    + rewrite lookup_insert_eq. eauto.
    + intros g Hg. rewrite lookup_insert. case_decide; eauto.
  - intros H. inversion H; subst. split; [rewrite Hf|]; eauto.
Qed.

Lemma reconcile_loop_grows zone1 hemi pixsize l : forall w ns w',
  for_each (reconcile zone1 hemi pixsize) l w = Ret ns w' ->
  readable (files w') ns
  /\ forall g, is_Some (files w !! g) -> is_Some (files w' !! g).
Proof.
  induction l as [|f l IH]; intros w ns w' H.
  - inversion H; subst. split; [constructor|auto].
  - apply for_each_cons_inv in H as (n & w1 & ns' & E1 & E2 & ->).
    apply reconcile_grows in E1 as [Hn Hmono1].
    apply IH in E2 as [Hns Hmono2].
    split; [constructor; auto|auto].
Qed.

Lemma fmt_02d_two_digits z : 0 <= z < 100 -> PyStr.fmt_02d z = two_digits z.
Proof.
  intros Hz.
  assert (H : forallb (fun n => String.eqb (PyStr.fmt_02d (Z.of_nat n))
                                  (two_digits (Z.of_nat n))) (seq 0 100) = true)
    by (vm_compute; reflexivity).
  rewrite forallb_forall in H.
  specialize (H (Z.to_nat z)). rewrite Z2Nat.id in H by lia.
  apply String.eqb_eq, H, in_seq. lia.
Qed.

(** ** Reference election *)

Lemma Qlt_bool_iff (a b : Q) : Qlt_bool a b = true <-> (a < b)%Q.
Proof.
  unfold Qlt_bool. split.
  - intros H. apply Qnot_le_lt. rewrite <- Qle_bool_iff.
    now destruct (Qle_bool b a).
  - intros H. apply Qlt_not_le in H. rewrite <- Qle_bool_iff in H.
    now destruct (Qle_bool b a).
Qed.

Lemma Qlt_bool_false (a b : Q) : Qlt_bool a b = false -> (b <= a)%Q.
Proof.
  unfold Qlt_bool. intros H. apply Qle_bool_iff.
  now destruct (Qle_bool b a).
Qed.

Lemma CoverageFraction_nonneg clip fs f : (0 <= CoverageFraction clip fs f)%Q.
Proof.
  unfold CoverageFraction. destruct (fs !! f); [apply coverage_nonneg|].
  apply Qle_refl.
Qed.

Lemma best_overlap_returns clip fs0 l : forall w mf mfile,
  log_st w = LogOpen ->
  (forall g, In g l -> files w !! g = fs0 !! g) ->
  readable fs0 l ->
  no_clobber clipped_name l ->
  exists w' mf' mfile',
    best_overlap clip l mf mfile w = Ret (mf', mfile') w'
    /\ log_st w' = LogOpen
    /\ (exists lines, log w' = (log w ++ lines)%list)
    /\ (mf <= mf')%Q
    /\ Forall (fun f => (CoverageFraction clip fs0 f <= mf')%Q) l
    /\ ((mf' = mf /\ mfile' = mfile)
        \/ ((mf < mf')%Q
            /\ exists best, In best l /\ mfile' = Some best
                            /\ CoverageFraction clip fs0 best = mf')).
Proof.
  destruct clip as [[[pt1 pt2] pt3] pt4].
  induction l as [|f l IH]; intros w mf mfile Hlog Hagree Hread Hfresh.
  - exists w, mf, mfile. cbn. repeat split; auto.
    + exists []. now rewrite app_nil_r.
    + apply Qle_refl.
  - inversion Hread as [|? ? [r Hr] Hread']; subst.
    destruct Hfresh as [Hf Hfresh'].
    rewrite List.Forall_forall in Hf.
    assert (Hw : files w !! f = Some r)
      by (rewrite Hagree; [assumption|now left]).
    destruct (cut_returns pt1 pt2 pt3 pt4 f (1 # 100) w r Hw Hlog)
      as (w1 & Hcut & Hlog1 & Hother & Hlines1 & _).
    set (q := coverage (gdal_projWin (pt1, pt2, pt3, pt4) r)) in *.
    assert (Hq : CoverageFraction (pt1, pt2, pt3, pt4) fs0 f = q)
      by (unfold CoverageFraction; now rewrite Hr).
    assert (Hagree1 : forall g, In g l -> files w1 !! g = fs0 !! g).
    { intros g Hg. rewrite Hother.
      - apply Hagree. now right.
      - intros ->. now apply (Hf _ Hg). }
    cbn [best_overlap]. rewrite (bind_Ret _ _ _ _ _ Hcut).
    destruct Hlines1 as [lines1 Hlines1].
    destruct (Qlt_bool mf q) eqn:Hcmp.
    + apply Qlt_bool_iff in Hcmp.
      destruct (IH w1 q (Some f) Hlog1 Hagree1 Hread' Hfresh')
        as (w2 & mf' & mfile' & Hrun & Hlog2 & [lines2 Hlines2] & Hle & Hall & Hbest).
      exists w2, mf', mfile'. split; [assumption|]. split; [assumption|].
      split; [exists (lines1 ++ lines2)%list; now rewrite Hlines2, Hlines1, app_assoc|].
      split; [apply Qlt_le_weak; eapply Qlt_le_trans; eassumption|].
      split; [constructor; [now rewrite Hq|assumption]|].
      right. split; [eapply Qlt_le_trans; eassumption|].
      destruct Hbest as [[-> ->]|[_ (best & Hin & -> & Hb)]].
      * exists f. repeat split; auto. now left.
      * exists best. repeat split; auto. now right.
    + apply Qlt_bool_false in Hcmp.
      destruct (IH w1 mf mfile Hlog1 Hagree1 Hread' Hfresh')
        as (w2 & mf' & mfile' & Hrun & Hlog2 & [lines2 Hlines2] & Hle & Hall & Hbest).
      exists w2, mf', mfile'. split; [assumption|]. split; [assumption|].
      split; [exists (lines1 ++ lines2)%list; now rewrite Hlines2, Hlines1, app_assoc|].
      split; [assumption|].
      split; [constructor; [rewrite Hq; eapply Qle_trans; eassumption|assumption]|].
      destruct Hbest as [[-> ->]|[Hlt (best & Hin & -> & Hb)]]; [now left|].
      right. split; [assumption|]. exists best. repeat split; auto. now right.
Qed.

Lemma py_index_In x l :
  In x l -> exists loc, py_index x l = Some loc /\ nth_error l loc = Some x.
Proof.
  induction l as [|y l IH]; [intros []|]. intros Hin. cbn [py_index].
  destruct (String.eqb y x) eqn:E.
  - apply String.eqb_eq in E as ->. now exists O.
  - destruct Hin as [->|Hin]; [now rewrite String.eqb_refl in E|].
    destruct (IH Hin) as (loc & -> & Hnth). now exists (S loc).
Qed.


(** ** The decibel loop *)

Lemma create_dB_returns fi w r :
  files w !! fi = Some r ->
  create_dB fi w
  = Ret (dB_name fi) (set_files (<[dB_name fi := dB_raster r]> (files w)) w).
Proof.
  intros Hf. unfold create_dB, bind, open_gdal_file. rewrite Hf. reflexivity.
Qed.

Lemma set_files_twice fs fs' (w : world) :
  set_files fs (set_files fs' w) = set_files fs w.
Proof. reflexivity. Qed.

Lemma dB_loop_returns fs0 l : forall w,
  (forall g, In g l -> files w !! g = fs0 !! g) ->
  readable fs0 l ->
  no_clobber dB_name l ->
  for_each create_dB l w
  = Ret (map dB_name l) (set_files (fold_left (dB_write fs0) l (files w)) w).
Proof.
  induction l as [|f l IH]; intros w Hagree Hread Hfresh.
  - cbn. now rewrite set_files_same.
  - inversion Hread as [|? ? [r Hr] Hread']; subst.
    destruct Hfresh as [Hf Hfresh'].
    rewrite List.Forall_forall in Hf.
    assert (Hw : files w !! f = Some r)
      by (rewrite Hagree; [assumption|now left]).
    cbn [for_each map fold_left].
    rewrite (create_dB_returns f w r Hw).
    unfold dB_write at 2. rewrite Hr.
    rewrite IH; auto.
    intros g Hg. cbn. rewrite lookup_insert_ne.
    + apply Hagree. now right.
    + now apply Hf.
Qed.

(** ** What holds from the opening of the log to the end of the cutter *)

Create HintDb pres.

Section Invariant.

Variable P : world -> Prop.
Hypothesis P_store : store_only P.
Hypothesis P_log : forall w msg, P w -> P (add_log msg w).
Hypothesis P_call :
  forall w c, (is_mkdir c = true -> c = Mkdir "TEMP") -> P w -> P (add_call c w).

Lemma preserves_plog msg : preserves P (plog msg).
Proof.
  intros w a w' Hw H. unfold plog in H.
  destruct (log_st w); inversion H; subst. now apply P_log.
Qed.

Lemma preserves_os_do c :
  (is_mkdir c = true -> c = Mkdir "TEMP") -> preserves P (os_do c).
Proof. intros Hc w a w' Hw H. inversion H; subst. now apply P_call. Qed.

Lemma preserves_execute cmd : preserves P (execute cmd).
Proof.
  intros w a w' Hw H. inversion H; subst.
  apply P_call; [discriminate|]. now apply P_store.
Qed.

Lemma preserves_os_remove f : preserves P (os_remove f).
Proof.
  intros w a w' Hw H. unfold os_remove in H.
  destruct (files w !! f); inversion H; subst.
  apply P_call; [discriminate|]. now apply P_store.
Qed.

Lemma preserves_os_symlink src dst : preserves P (os_symlink src dst).
Proof.
  intros w a w' Hw H. unfold os_symlink in H.
  destruct (files w !! dst); inversion H; subst.
  apply P_call; [discriminate|].
  destruct (files w !! src); [now apply P_store|assumption].
Qed.

Ltac pres :=
  repeat first
    [ solve [auto with pres nocore]
    | apply preserves_ret
    | apply preserves_raise
    | apply preserves_mexit
    | apply preserves_item
    | apply preserves_plog
    | apply preserves_execute
    | apply preserves_os_remove
    | apply preserves_os_symlink
    | apply preserves_os_do; cbn; intros; congruence
    | apply (preserves_open_gdal_file P)
    | apply (preserves_read_gdal_file P)
    | apply (preserves_write_gdal_file_float P P_store)
    | apply (preserves_gdal_call P P_store)
    | apply (preserves_store_do P P_store)
    | apply (preserves_raster_isfile P)
    | apply (preserves_fix_projections P P_store)
    | apply preserves_bind; [|intros ?]
    | apply preserves_for_each; intros ?
    | progress cbv zeta
    | match goal with
      | |- preserves _ (match ?x with _ => _ end) => destruct x
      end
    ].

Lemma preserves_createCleanDir_TEMP : preserves P (createCleanDir "TEMP").
Proof. unfold createCleanDir. pres. Qed.

Lemma preserves_cut pt1 pt2 pt3 pt4 fi thresh :
  preserves P (cut pt1 pt2 pt3 pt4 fi thresh).
Proof. unfold cut. pres. Qed.

Local Hint Resolve preserves_createCleanDir_TEMP preserves_cut : pres.

Lemma preserves_report_stats myfile tmpfile frac :
  preserves P (report_stats myfile tmpfile frac).
Proof. unfold report_stats. pres. Qed.

Local Hint Resolve preserves_report_stats : pres.

Lemma preserves_clip_scene clip thresh fi :
  preserves P (clip_scene clip thresh fi).
Proof.
  unfold clip_scene. destruct clip as [[[pt1 pt2] pt3] pt4].
  pres.
Qed.

Lemma preserves_cutGeotiffsByLine filelist :
  preserves P (fun w =>
    let '(power_filelist, fs) := cutGeotiffsByLine filelist (files w) in
    Ret power_filelist (set_files fs w)).
Proof.
  intros w a w' Hw H. destruct (cutGeotiffsByLine _ _).
  inversion H; subst. now apply P_store.
Qed.

Local Hint Resolve preserves_clip_scene preserves_cutGeotiffsByLine : pres.

Lemma preserves_cutStack filelist overlap clip shape thresh :
  preserves P (cutStack filelist overlap clip shape thresh).
Proof. unfold cutStack, shape_scene. pres. Qed.

Lemma preserves_best_overlap clip l : forall mf mfile,
  preserves P (best_overlap clip l mf mfile).
Proof.
  destruct clip as [[[pt1 pt2] pt3] pt4].
  induction l as [|f l IH]; intros mf mfile; cbn [best_overlap]; pres.
Qed.

Local Hint Resolve preserves_cutStack preserves_best_overlap : pres.

Lemma preserves_fix_file_list filelist clip :
  preserves P (fix_file_list filelist clip).
Proof. unfold fix_file_list. pres. Qed.

Lemma preserves_getDates filelist : preserves P (getDates filelist).
Proof. unfold getDates. pres. Qed.

Local Hint Resolve preserves_fix_file_list preserves_getDates : pres.

Lemma preserves_getXmlFiles filelist : preserves P (getXmlFiles filelist).
Proof. unfold getXmlFiles. pres. Qed.

Lemma preserves_getAscDesc myxml : preserves P (getAscDesc myxml).
Proof. unfold getAscDesc. pres. Qed.

Local Hint Resolve preserves_getXmlFiles preserves_getAscDesc : pres.

Lemma preserves_cull_loop filelist direction : forall xmlFiles,
  preserves P (cull_loop filelist xmlFiles direction).
Proof.
  induction filelist as [|f l IH]; intros xmlFiles; cbn [cull_loop]; pres.
Qed.

Local Hint Resolve preserves_cull_loop : pres.

Lemma preserves_cull_list_by_direction filelist direction :
  preserves P (cull_list_by_direction filelist direction).
Proof. unfold cull_list_by_direction. pres. Qed.

Lemma preserves_apply_speckle_filter fi :
  preserves P (apply_speckle_filter fi).
Proof. unfold apply_speckle_filter. pres. Qed.

Lemma preserves_changeRes res fi : preserves P (changeRes res fi).
Proof. unfold changeRes. pres. Qed.

Local Hint Resolve preserves_cull_list_by_direction
  preserves_apply_speckle_filter preserves_changeRes : pres.

Lemma preserves_filterStack filelist : preserves P (filterStack filelist).
Proof. unfold filterStack. pres. Qed.

Lemma preserves_changeResStack filelist res :
  preserves P (changeResStack filelist res).
Proof. unfold changeResStack. pres. Qed.

Lemma preserves_amp2pwr filelist : preserves P (amp2pwr filelist).
Proof. unfold amp2pwr. pres. Qed.

Local Hint Resolve preserves_filterStack preserves_changeResStack
  preserves_amp2pwr : pres.

Lemma preserves_check_options o : preserves P (check_options o).
Proof. unfold check_options. pres. Qed.

Lemma preserves_resolve_path o : preserves P (resolve_path o).
Proof. unfold resolve_path, first_char. pres. Qed.

Lemma preserves_discover o path : preserves P (discover o path).
Proof. unfold discover. pres. Qed.

Lemma preserves_take_infiles infiles : preserves P (take_infiles infiles).
Proof. unfold take_infiles, first_char. pres. Qed.

Local Hint Resolve preserves_check_options preserves_resolve_path
  preserves_discover preserves_take_infiles : pres.

Lemma preserves_find_files o path : preserves P (find_files o path).
Proof. unfold find_files. pres. Qed.

Lemma preserves_link_files filelist : preserves P (link_files filelist).
Proof. unfold link_files. pres. Qed.

Lemma preserves_direction_filter keep infiles filelist :
  preserves P (direction_filter keep infiles filelist).
Proof. unfold direction_filter. pres. Qed.

Lemma preserves_cut_stage o filelist : preserves P (cut_stage o filelist).
Proof. unfold cut_stage. pres. Qed.

Local Hint Resolve preserves_find_files preserves_link_files
  preserves_direction_filter preserves_cut_stage : pres.

(** Lines 338-460, the run after the log has been opened. *)
Lemma preserves_after_open_log o :
  preserves P
    (bind (bind (check_options o) (fun _ =>
             bind (resolve_path o) (fun path =>
             bind (createCleanDir "TEMP") (fun _ =>
             bind (find_files o path) (fun r =>
               let '(infiles, filelist) := r in
               bind (link_files filelist) (fun filelist =>
               ret (infiles, filelist)))))))
       (fun r =>
          let '(infiles, filelist) := r in
          bind (direction_filter (o_keep o) infiles filelist) (fun filelist =>
          bind (if o_amp o then amp2pwr filelist else ret filelist)
            (fun filelist =>
          bind (cut_stage o filelist) (fun power_filelist =>
          ret (infiles, power_filelist)))))).
Proof. pres. Qed.

End Invariant.

Lemma running_store_only : store_only running.
Proof. intros w fs Hw. exact Hw. Qed.

Lemma running_add_log w msg : running w -> running (add_log msg w).
Proof. intros Hw. exact Hw. Qed.

Lemma running_add_call w c :
  (is_mkdir c = true -> c = Mkdir "TEMP") -> running w -> running (add_call c w).
Proof.
  intros Hc [Hlog Hcalls]. split; [exact Hlog|].
  unfold only_scratch_made in *. cbn. apply Forall_app. split; [assumption|].
  constructor; [assumption|constructor].
Qed.

Lemma run_to_cut_running o w r w1 :
  only_scratch_made (calls w) ->
  run_to_cut o w = Ret r w1 ->
  running w1.
Proof.
  intros Hcalls H.
  eapply (preserves_after_open_log running running_store_only
            running_add_log running_add_call o
            {| files := files w; log := []; log_st := LogOpen;
               calls := calls w |}); [|exact H].
  split; [reflexivity|exact Hcalls].
Qed.

Lemma check_survivors_empty o w :
  log_st w = LogOpen ->
  check_survivors o [] w
  = Exit 1 {| files := files w;
              log := (log w ++ no_survivor_messages o)%list;
              log_st := LogClosed; calls := calls w |}.
Proof.
  intros Hlog. unfold check_survivors, no_survivor_messages.
  cbn [length Nat.eqb].
  destruct (o_overlap o), (o_shape o), (o_clip o);
    unfold bind, ret, plog, mexit; cbn; repeat (rewrite Hlog; cbn);
    unfold set_log_st, add_log; cbn; rewrite <- ?app_assoc; reflexivity.
Qed.

Lemma prodDir_not_scratch o : prodDir o <> "TEMP".
Proof. unfold prodDir. destruct (o_outfile o); discriminate. Qed.

(** ** The order of the frames *)

Lemma String_compare_OT a b : String_as_OT.compare a b = String.compare a b.
Proof.
  revert b. induction a as [|c a IH]; intros [|d b]; reflexivity.
Qed.

Lemma String_lt_irrefl x : ~ String_as_OT.lt x x.
Proof. apply (@StrictOrder_Irreflexive _ _ String_as_OT.lt_strorder). Qed.

Lemma String_lt_trans x y z :
  String_as_OT.lt x y -> String_as_OT.lt y z -> String_as_OT.lt x z.
Proof. apply (@StrictOrder_Transitive _ _ String_as_OT.lt_strorder). Qed.

Lemma String_leb_trans a b c :
  String.leb a b = true -> String.leb b c = true -> String.leb a c = true.
Proof.
  unfold String.leb. change String.compare with String_as_OT.compare.
  destruct (String_as_OT.compare_spec a b) as [Hab|Hab|Hab];
    destruct (String_as_OT.compare_spec b c) as [Hbc|Hbc|Hbc];
    destruct (String_as_OT.compare_spec a c) as [Hac|Hac|Hac];
    try reflexivity; try discriminate; intros _ _; exfalso;
    unfold String_as_OT.eq in *; subst.
  - exact (String_lt_irrefl _ Hac).
  - exact (String_lt_irrefl _ (String_lt_trans _ _ _ Hbc Hac)).
  - exact (String_lt_irrefl _ (String_lt_trans _ _ _ Hab Hac)).
  - exact (String_lt_irrefl _
             (String_lt_trans _ _ _ (String_lt_trans _ _ _ Hab Hbc) Hac)).
Qed.

Lemma String_ltb_false_leb a b :
  String.ltb a b = false -> String.leb b a = true.
Proof.
  unfold String.ltb, String.leb. rewrite (String.compare_antisym a b).
  now destruct (String.compare b a).
Qed.

Lemma String_ltb_leb a b : String.ltb a b = true -> String.leb a b = true.
Proof. unfold String.ltb, String.leb. now destruct (String.compare a b). Qed.

Lemma String_ltb_neq a b : String.ltb a b = true -> a <> b.
Proof.
  unfold String.ltb. intros H ->.
  assert (E : String.compare b b = Eq).
  { rewrite <- String_compare_OT.
    destruct (String_as_OT.compare_spec b b) as [_|H'|H'];
      [reflexivity| |]; now apply String_lt_irrefl in H'. }
  now rewrite E in H.
Qed.

Lemma sort_insert_perm x l : Permutation (x :: l) (sort_insert x l).
Proof.
  induction l as [|y l IH]; cbn [sort_insert]; [reflexivity|].
  destruct (String.ltb (snd y) (snd x)); [|reflexivity].
  rewrite perm_swap. now constructor.
Qed.

Lemma sort_insert_sorted x l :
  StronglySorted date_le l -> StronglySorted date_le (sort_insert x l).
Proof.
  induction l as [|y l IH]; intros Hs; cbn [sort_insert].
  - repeat constructor.
  - inversion Hs as [|? ? Hs' Hall]; subst.
    destruct (String.ltb (snd y) (snd x)) eqn:E.
    + constructor; [now apply IH|].
      rewrite List.Forall_forall in *. intros z Hz.
      apply (Permutation_in _ (Permutation_sym (sort_insert_perm x l))) in Hz.
      destruct Hz as [<-|Hz]; [now apply String_ltb_leb|now apply Hall].
    + apply String_ltb_false_leb in E.
      constructor; [assumption|]. constructor; [assumption|].
      rewrite List.Forall_forall in *. intros z Hz.
      eapply String_leb_trans; [exact E|]. now apply Hall.
Qed.

Lemma sort_by_date_sorted l : StronglySorted date_le (sort_by_date l).
Proof.
  induction l as [|x l IH]; cbn; [constructor|]. now apply sort_insert_sorted.
Qed.

Lemma sort_by_date_perm l : Permutation l (sort_by_date l).
Proof.
  induction l as [|x l IH]; cbn; [reflexivity|].
  rewrite <- sort_insert_perm. now constructor.
Qed.

Lemma with_date_sort_insert d x l :
  with_date d (sort_insert x l) = with_date d (x :: l).
Proof.
  induction l as [|y l IH]; cbn [sort_insert]; [reflexivity|].
  destruct (String.ltb (snd y) (snd x)) eqn:E; [|reflexivity].
  apply String_ltb_neq in E.
  unfold with_date in *. cbn [List.filter] in *. rewrite IH.
  destruct (String.eqb (snd x) d) eqn:Ex, (String.eqb (snd y) d) eqn:Ey;
    try reflexivity.
  apply String.eqb_eq in Ex, Ey. congruence.
Qed.

Lemma with_date_sort_by_date d l :
  with_date d (sort_by_date l) = with_date d l.
Proof.
  induction l as [|x l IH]; [reflexivity|].
  cbn [sort_by_date fold_right]. fold (sort_by_date l).
  rewrite with_date_sort_insert. unfold with_date in *. cbn [List.filter].
  now rewrite IH.
Qed.


(** ** Dates and frames *)

Lemma getDates_returns filelist dates w :
  dates_of filelist dates -> getDates filelist w = Ret dates w.
Proof.
  unfold getDates. intros H. induction H as [|f d l ds Hd _ IH]; [reflexivity|].
  cbn [for_each]. rewrite Hd. cbn [ret]. now rewrite IH.
Qed.

Lemma getDates_inv filelist : forall dates w w',
  getDates filelist w = Ret dates w' -> w' = w /\ dates_of filelist dates.
Proof.
  unfold getDates.
  induction filelist as [|f l IH]; intros dates w w' H.
  - inversion H; subst. split; [reflexivity|constructor].
  - apply for_each_cons_inv in H as (d & w1 & ds & Hd & Hl & ->).
    destruct (getDate f) as [d'|] eqn:E; [|discriminate].
    inversion Hd; subst. apply IH in Hl as [-> Hds].
    split; [reflexivity|]. now constructor.
Qed.

Lemma pair_with_dates_inv infiles font png : forall dates w pairs w',
  length dates = length png ->
  pair_with_dates infiles font png dates w = Ret pairs w' ->
  pairs = combine (map (frame_name infiles) png) dates.
Proof.
  induction png as [|f l IH]; intros dates w pairs w' Hlen H.
  - inversion H; subst. reflexivity.
  - destruct dates as [|d ds]; [discriminate|].
    cbn [pair_with_dates] in H.
    apply bind_inv_Ret in H as (newFile & w1 & Hnew & H).
    apply bind_inv_Ret in H as (date & w2 & Hdate & H).
    apply bind_inv_Ret in H as (rest & w3 & Hrest & H).
    inversion H; subst. inversion Hdate; subst.
    cbn [tail] in Hrest. apply IH in Hrest; [|now injection Hlen].
    subst rest. cbn [map combine]. f_equal. f_equal.
    destruct infiles as [inf|].
    + now inversion Hnew.
    + apply bind_inv_Ret in Hnew as (? & ? & _ & Hnew).
      apply bind_inv_Ret in Hnew as (? & ? & _ & Hnew).
      apply bind_inv_Ret in Hnew as (? & ? & _ & Hnew).
      now inversion Hnew.
Qed.

Lemma pair_with_dates_explicit inf font png : forall dates w,
  length dates = length png ->
  pair_with_dates (Some inf) font png dates w = Ret (combine png dates) w.
Proof.
  induction png as [|f l IH]; intros dates w Hlen; [reflexivity|].
  destruct dates as [|d ds]; [discriminate|].
  cbn [pair_with_dates combine]. unfold bind at 1. cbn [ret].
  unfold bind at 1. cbn [item nth_error ret tail].
  unfold bind at 1. rewrite IH by (now injection Hlen). reflexivity.
Qed.

Lemma os_remove_returns f w r :
  files w !! f = Some r ->
  os_remove f w
  = Ret tt (add_call (Remove f) (set_files (delete f (files w)) w)).
Proof. intros H. unfold os_remove. now rewrite H. Qed.

Lemma pair_with_dates_annotated font png : forall dates w,
  (forall cmd fs f, is_Some (fs !! f) -> is_Some (shell cmd fs !! f)) ->
  length dates = length png ->
  List.NoDup png ->
  readable (files w) png ->
  exists w',
    pair_with_dates None font png dates w
    = Ret (combine (map (frame_name None) png) dates) w'.
Proof.
  intros dates w Hshell. revert dates w.
  induction png as [|f l IH]; intros dates w Hlen Hnd Hread.
  - exists w. reflexivity.
  - destruct dates as [|d ds]; [discriminate|].
    inversion Hnd as [|? ? Hnotin Hnd']; subst.
    inversion Hread as [|? ? Hf Hread']; subst.
    set (cmd := annotate_cmd f ("anno_" ++ f) d font).
    set (w1 := add_call (Execute cmd) (set_files (shell cmd (files w)) w)).
    destruct (Hshell cmd (files w) f Hf) as [r Hr].
    assert (Hr1 : files w1 !! f = Some r) by exact Hr.
    set (w2 := add_call (Remove f) (set_files (delete f (files w1)) w1)).
    destruct (IH ds w2) as (w' & Hrun); [now injection Hlen|assumption| |].
    { unfold readable in *. rewrite List.Forall_forall in *. intros g Hg.
      cbn. rewrite lookup_delete_ne by (intros ->; contradiction).
      apply Hshell. now apply Hread'. }
    exists w'. cbn [pair_with_dates map combine frame_name].
    assert (Hnew : bind (item (d :: ds) 0) (fun date =>
                     bind (execute (annotate_cmd f ("anno_" ++ f) date font))
                       (fun _ => bind (os_remove f)
                                   (fun _ => ret ("anno_" ++ f)))) w
                   = Ret ("anno_" ++ f) w2).
    { unfold bind at 1. cbn [item nth_error ret]. fold cmd.
      unfold bind at 1. unfold execute. fold w1.
      unfold bind at 1. now rewrite (os_remove_returns f w1 r Hr1). }
    rewrite (bind_Ret _ _ _ _ _ Hnew).
    unfold bind at 1. cbn [item nth_error ret tail].
    now rewrite (bind_Ret _ _ _ _ _ Hrun).
Qed.

Lemma dates_of_length filelist dates :
  dates_of filelist dates -> length dates = length filelist.
Proof. intros H. symmetry. exact (Forall2_length _ _ _ H). Qed.

(** ** The direction filter *)

Lemma for_each_length {A B} (f : A -> M B) l : forall w bs w',
  for_each f l w = Ret bs w' -> length bs = length l.
Proof.
  induction l as [|a l IH]; intros w bs w' H.
  - now inversion H; subst.
  - apply for_each_cons_inv in H as (b & w1 & bs' & _ & Hl & ->).
    cbn. f_equal. eapply IH, Hl.
Qed.

Lemma getXmlFiles_length filelist w xmlFiles w1 :
  getXmlFiles filelist w = Ret xmlFiles w1 ->
  length xmlFiles = length filelist.
Proof.
  unfold getXmlFiles. intros H.
  apply bind_inv_Ret in H as (dates & w' & Hd & Hx).
  apply for_each_length in Hd, Hx. congruence.
Qed.

Lemma getXmlFiles_log_st filelist w xmlFiles w1 :
  getXmlFiles filelist w = Ret xmlFiles w1 -> log_st w1 = log_st w.
Proof.
  intros H.
  apply (preserves_getXmlFiles (fun w' => log_st w' = log_st w)) in H; auto.
Qed.

Lemma cull_loop_returns direction filelist : forall xmlFiles w,
  log_st w = LogOpen ->
  length xmlFiles = length filelist ->
  Forall (fun x => is_Some (read_lines x)) xmlFiles ->
  exists w',
    cull_loop filelist xmlFiles direction w
    = Ret (matching_direction direction filelist xmlFiles) w'
    /\ log_st w' = LogOpen.
Proof.
  induction filelist as [|f l IH]; intros xmlFiles w Hlog Hlen Hxml.
  - exists w. split; [|assumption]. now destruct xmlFiles.
  - destruct xmlFiles as [|x xs]; [discriminate|].
    inversion Hxml as [|? ? [content Hx] Hxs]; subst.
    cbn [cull_loop]. rewrite (bind_Ret _ _ _ _ _ (plog_open _ w Hlog)).
    unfold bind at 1. cbn [item nth_error ret].
    unfold bind at 1. unfold getAscDesc at 1. rewrite Hx. cbn [ret].
    set (w1 := add_log _ w).
    assert (Hlog1 : log_st w1 = LogOpen) by exact Hlog.
    rewrite (bind_Ret _ _ _ _ _ (plog_open _ w1 Hlog1)).
    set (w2 := add_log _ w1).
    assert (Hlog2 : log_st w2 = LogOpen) by exact Hlog.
    unfold matching_direction. cbn [combine List.filter snd].
    unfold direction_of at 1. rewrite Hx. cbn [tail].
    destruct (same_direction (scan_direction content) direction).
    + rewrite (bind_Ret _ _ _ _ _ (plog_open _ w2 Hlog2)).
      destruct (IH xs (add_log "    Keeping" w2)) as (w3 & Hrun & Hlog3); auto.
      exists w3. split; [|assumption].
      rewrite (bind_Ret _ _ _ _ _ Hrun). reflexivity.
    + rewrite (bind_Ret _ _ _ _ _ (plog_open _ w2 Hlog2)).
      destruct (IH xs (add_log "    Discarding" w2)) as (w3 & Hrun & Hlog3);
        auto.
Qed.

Lemma catalog_keeps_infiles o w infiles filelist w1 :
  catalog o w = Ret (infiles, filelist) w1 ->
  infiles = match o_infiles o with
            | Some (x :: l) => Some (x :: l)
            | _ => None
            end.
Proof.
  unfold catalog. intros H.
  apply bind_inv_Ret in H as (? & ? & _ & H).
  apply bind_inv_Ret in H as (? & ? & _ & H).
  apply bind_inv_Ret in H as (path & ? & _ & H).
  apply bind_inv_Ret in H as (? & ? & _ & H).
  apply bind_inv_Ret in H as ([inf fl] & ? & Hfind & H).
  apply bind_inv_Ret in H as (fl' & ? & _ & H).
  inversion H; subst.
  unfold find_files in Hfind.
  apply bind_inv_Ret in Hfind as ([inf' fl''] & ? & Hsrc & Hfind).
  apply bind_inv_Ret in Hfind as (? & ? & _ & Hfind).
  inversion Hfind; subst.
  destruct (o_infiles o) as [[|i0 il]|].
  - apply bind_inv_Ret in Hsrc as (? & ? & _ & Hsrc). now inversion Hsrc.
  - apply bind_inv_Ret in Hsrc as (? & ? & _ & Hsrc). now inversion Hsrc.
  - apply bind_inv_Ret in Hsrc as (? & ? & _ & Hsrc). now inversion Hsrc.
Qed.


End Facts.

(** * The claims *)

Section Claims.

Context {F : Floats} {C : Collaborators}.


(** C3. When the projection of the first scene names a UTM zone, every
    later scene whose zone differs from it is warped to the EPSG code of
    the reference zone (326 and the two digits of the zone in the north,
    327 and the two digits in the south) at the pixel size of the first
    scene and takes the name of the warped raster, while every later scene
    of the same zone keeps its path and is not written to. *)
Theorem fix_projections_reconciles :
  forall file1 rest w r1 zone1 hemi,
    files w !! file1 = Some r1 ->
    reference_zone (r_proj r1) = Some (zone1, hemi) ->
    Forall (fun f => is_Some (zone_at (files w) f)) rest ->
    no_clobber reproj_name rest ->
    let pixsize := gt1 (r_trans r1) in
    fix_projections (file1 :: rest) w
    = Ret (file1 :: map (reconciled_name zone1 (files w)) rest)
          (set_files (reconciled_store zone1 hemi pixsize (files w) rest) w)
    /\ (forall f z, zone_at (files w) f = Some z -> z <> zone1 ->
          reconciled_name zone1 (files w) f = reproj_name f
          /\ forall fs r, files w !! f = Some r ->
               reconcile_store zone1 hemi pixsize (files w) fs f
               = <[reproj_name f := gdal_warp (dstSRS zone1 hemi) pixsize r]> fs)
    /\ (forall f, zone_at (files w) f = Some zone1 ->
          reconciled_name zone1 (files w) f = f
          /\ forall fs, reconcile_store zone1 hemi pixsize (files w) fs f = fs)
    /\ (0 <= zone1 < 100 ->
          dstSRS zone1 "N" = "EPSG:326" ++ two_digits zone1
          /\ dstSRS zone1 "S" = "EPSG:327" ++ two_digits zone1).
Proof.
  intros file1 rest w r1 zone1 hemi Hf Href Hzone Hfresh pixsize.
  split; [|split; [|split]].
  - unfold reference_zone in Href.
    unfold fix_projections, bind, item, open_gdal_file.
    cbn [nth_error ret]. rewrite Hf. cbn [read_gdal_file ret].
    destruct (PyStr.find "UTM zone " (r_proj r1) =? -1); [discriminate|].
    cbn [negb].
    destruct (PyStr.re_search_digits_any _) as [[g1 g2]|]; [|discriminate].
    injection Href as <- <-. cbn [ret tail].
    rewrite (reconcile_loop_returns _ _ _ (files w)); auto.
  - intros f z Hz Hne. unfold reconciled_name, reconcile_store. rewrite Hz.
    apply Z.eqb_neq in Hne. rewrite Hne. split; [reflexivity|].
    intros fs r Hr. now rewrite Hr.
  - intros f Hz. unfold reconciled_name, reconcile_store. rewrite Hz.
    rewrite Z.eqb_refl. split; [reflexivity|].
    intros fs. now destruct (files w !! f).
  - intros Hrange. unfold dstSRS.
    rewrite (fmt_02d_two_digits zone1 Hrange). split; reflexivity.
Qed.

(** C2. Reference election over the downloaded scenes: when every
    scene has coverage fraction 0 against the box, the run ends with exit
    status 1 and a closed log whose last line speaks of the area of
    interest; otherwise a scene of greatest coverage fraction is put at
    position 0, the scene that was there takes its position, and nothing
    else moves. *)
Theorem fix_file_list_elects_best_overlap :
  forall filelist clip w,
    log_st w = LogOpen ->
    readable (files w) filelist ->
    no_clobber clipped_name filelist ->
    let frac := CoverageFraction clip (files w) in
    let msg :=
      "ERROR: None of the input scenes overlap with your area of interest!" in
    (Forall (fun f => (frac f == 0)%Q) filelist ->
     exists w' lines,
       fix_file_list filelist clip w = Exit 1 w'
       /\ log_st w' = LogClosed
       /\ log w' = (log w ++ lines ++ [msg])%list
       /\ PyStr.contains "area of interest" msg = true)
    /\ (Exists (fun f => ~ (frac f == 0)%Q) filelist ->
        exists w' loc first best,
          fix_file_list filelist clip w
          = Ret (<[loc := first]> (<[O := best]> filelist)) w'
          /\ nth_error filelist O = Some first
          /\ nth_error filelist loc = Some best
          /\ Forall (fun f => (frac f <= frac best)%Q) filelist
          /\ ~ (frac best == 0)%Q).
Proof.
  intros filelist clip w Hlog Hread Hfresh frac msg.
  destruct (best_overlap_returns clip (files w) filelist w 0%Q None)
    as (w1 & mf & mfile & Hrun & Hlog1 & [lines Hlines] & Hle & Hall & Hbest);
    auto.
  split.
  - intros Hzero.
    assert (Hmf : mf = 0%Q /\ mfile = None).
    { destruct Hbest as [|[Hlt (best & Hin & _ & Hb)]]; [assumption|].
      exfalso. rewrite List.Forall_forall in Hzero.
      specialize (Hzero best Hin). fold frac in Hb. rewrite Hb in Hzero.
      rewrite Hzero in Hlt. now apply Qlt_irrefl in Hlt. }
    destruct Hmf as [-> ->].
    unfold fix_file_list. rewrite (bind_Ret _ _ _ _ _ Hrun).
    change (Qeq_bool 0 0) with true. cbv iota. subst msg.
    unfold bind. rewrite plog_open by assumption.
    unfold mexit. cbn [log_st add_log]. rewrite Hlog1.
    eexists. exists lines. split; [reflexivity|]. cbn.
    split; [reflexivity|]. split; [|reflexivity].
    now rewrite Hlines, app_assoc.
  - intros Hpos.
    assert (Hmf : (0 < mf)%Q).
    { apply List.Exists_exists in Hpos as (f & Hin & Hf).
      rewrite List.Forall_forall in Hall. specialize (Hall f Hin).
      fold frac in Hall.
      destruct (Qlt_le_dec 0 (frac f)) as [Hlt|Hge].
      - eapply Qlt_le_trans; eassumption.
      - exfalso. apply Hf. apply Qle_antisym; [assumption|].
        apply CoverageFraction_nonneg. }
    destruct Hbest as [[-> _]|[_ (best & Hin & -> & Hb)]];
      [now apply Qlt_irrefl in Hmf|].
    fold frac in Hb.
    destruct (py_index_In best filelist Hin) as (loc & Hidx & Hnth).
    destruct filelist as [|first rest]; [destruct Hin|].
    assert (Hne : Qeq_bool mf 0 = false).
    { destruct (Qeq_bool mf 0) eqn:E; [|reflexivity].
      apply Qeq_bool_eq in E. rewrite E in Hmf. now apply Qlt_irrefl in Hmf. }
    exists w1, loc, first, best.
    split; [|split; [reflexivity|split; [assumption|split]]].
    + unfold fix_file_list. rewrite (bind_Ret _ _ _ _ _ Hrun).
      rewrite Hne. unfold bind, ret, item. rewrite Hidx. cbn [nth_error].
      now rewrite Hnth.
    + rewrite Hb. exact Hall.
    + rewrite Hb. intros E. rewrite E in Hmf. now apply Qlt_irrefl in Hmf.
Qed.

(** C6. Whenever the stack cutter hands back no survivor, the run ends
    with exit status 1: the log receives the general diagnostic and then
    the one of each active clip strategy (no overlap, no intersection with
    the shape file, or insufficient coverage with the advice to lower the
    threshold or move the area of interest) and is closed, nothing else is
    done, and the product directory has not been made. *)
Theorem no_survivors_is_fatal :
  forall o w infiles w1,
    only_scratch_made (calls w) ->
    run_to_cut o w = Ret (infiles, []) w1 ->
    exists w2,
      procS1StackRTC o w = Exit 1 w2
      /\ log_st w2 = LogClosed
      /\ log w2 = (log w1 ++ no_survivor_messages o)%list
      /\ calls w2 = calls w1
      /\ files w2 = files w1
      /\ ~ In (Mkdir (prodDir o)) (calls w2).
Proof.
  intros o w infiles w1 Hcalls Hrun.
  destruct (run_to_cut_running o w _ w1 Hcalls Hrun) as [Hlog Hmade].
  eexists. split.
  - unfold procS1StackRTC. rewrite (bind_Ret _ _ _ _ _ Hrun).
    unfold after_cut, bind. rewrite (check_survivors_empty o w1 Hlog).
    reflexivity.
  - cbn. repeat split.
    intros Hin. unfold only_scratch_made in Hmade.
    rewrite List.Forall_forall in Hmade.
    specialize (Hmade _ Hin eq_refl). injection Hmade as Hname.
    now apply (prodDir_not_scratch o).
Qed.

(** C7. The decibel conversion runs once over the rasters that survived
    the cut, after the cut: it returns one decibel raster per survivor, in
    order, each holding 10 * log of every pixel of the survivor it was
    made from, whatever the pixel values are. *)
Theorem dB_once_per_survivor :
  forall o infiles power_filelist w,
    log_st w = LogOpen ->
    readable (files w) power_filelist ->
    no_clobber dB_name power_filelist ->
    scale_to_dB power_filelist w
    = Ret (map dB_name power_filelist)
          (set_files (dB_store (files w) power_filelist)
             (add_log "Scaling to dB" w))
    /\ (forall r,
          dB_raster r
          = with_data r (map (fun power => pix_mul pix_ten (pix_log power))
                           (r_data r)))
    /\ (forall fs r f, files w !! f = Some r ->
          dB_write (files w) fs f = <[dB_name f := dB_raster r]> fs)
    /\ (power_filelist <> [] ->
        after_cut o infiles power_filelist w
        = bind (scale_to_dB power_filelist)
            (finish o infiles power_filelist) w)
    /\ (forall w0,
          procS1StackRTC o w0
          = bind (run_to_cut o) (fun r => after_cut o (fst r) (snd r)) w0).
Proof.
  intros o infiles pfl w Hlog Hread Hfresh.
  split; [|split; [|split; [|split]]].
  - unfold scale_to_dB. rewrite (bind_Ret _ _ _ _ _ (plog_open _ w Hlog)).
    rewrite (dB_loop_returns (files w)); auto.
  - reflexivity.
  - intros fs r f Hf. unfold dB_write. now rewrite Hf.
  - intros Hne. destruct pfl as [|f l]; [congruence|]. reflexivity.
  - intros w0. unfold procS1StackRTC, bind.
    now destruct (run_to_cut o w0) as [[inf l] w1| |].
Qed.

(** C8. The frames handed to the animation are the images paired with
    the date extracted from their file name and sorted by that date:
    non-decreasing, a rearrangement of the pairs, and with frames of one
    date in the order they had before the sort; this holds for every order
    of the input, so two orders of the same images give rearrangements of
    one another. When the caller named the input files the pairing
    succeeds as soon as every name holds a date; when the scenes were
    discovered it succeeds as soon as the images are distinct files that
    the annotation tool leaves in place. *)
Theorem frames_in_date_order :
  forall infiles font png_filelist,
    (forall w frames w',
        date_and_file infiles font png_filelist w = Ret frames w' ->
        exists dates,
          dates_of png_filelist dates
          /\ frames
             = sort_by_date
                 (combine (map (frame_name infiles) png_filelist) dates))
    /\ (forall dates w,
          dates_of png_filelist dates ->
          (infiles <> None
           \/ ((forall cmd fs f,
                   is_Some (fs !! f) -> is_Some (shell cmd fs !! f))
               /\ List.NoDup png_filelist
               /\ readable (files w) png_filelist)) ->
          exists w',
            date_and_file infiles font png_filelist w
            = Ret (sort_by_date
                     (combine (map (frame_name infiles) png_filelist) dates))
                  w')
    /\ (forall pairs,
          StronglySorted date_le (sort_by_date pairs)
          /\ Permutation pairs (sort_by_date pairs)
          /\ forall d, with_date d (sort_by_date pairs) = with_date d pairs)
    /\ (forall pairs1 pairs2,
          Permutation pairs1 pairs2 ->
          Permutation (sort_by_date pairs1) (sort_by_date pairs2)).
Proof.
  intros infiles font png.
  split; [|split; [|split]].
  - intros w frames w' H. unfold date_and_file in H.
    apply bind_inv_Ret in H as (dates & w1 & Hd & H).
    apply bind_inv_Ret in H as (pairs & w2 & Hp & H).
    inversion H; subst.
    apply getDates_inv in Hd as [-> Hd].
    exists dates. split; [assumption|]. f_equal.
    eapply pair_with_dates_inv; [|exact Hp]. now apply dates_of_length.
  - intros dates w Hd Hmode. unfold date_and_file.
    rewrite (bind_Ret _ _ _ _ _ (getDates_returns png dates w Hd)).
    apply dates_of_length in Hd.
    destruct infiles as [inf|].
    + exists w. unfold bind. rewrite pair_with_dates_explicit by assumption.
      cbn [frame_name]. now rewrite map_id.
    + destruct Hmode as [Hmode|(Hshell & Hnd & Hread)]; [congruence|].
      destruct (pair_with_dates_annotated font png dates w Hshell Hd Hnd Hread)
        as (w' & Hrun).
      exists w'. unfold bind. now rewrite Hrun.
  - intros pairs. split; [apply sort_by_date_sorted|].
    split; [apply sort_by_date_perm|]. intros d. apply with_date_sort_by_date.
  - intros pairs1 pairs2 Hperm.
    rewrite <- (sort_by_date_perm pairs1), <- (sort_by_date_perm pairs2).
    exact Hperm.
Qed.

(** C10. The direction filter runs only when the caller named no input
    file. With a non-empty list of input files the catalog goes on
    unchanged whatever the keep value; with none (or an empty list) and a
    keep value the catalog is culled, and the cull keeps exactly the
    scenes whose metadata names the requested direction, dropping those
    of the other direction and those whose direction is not found. *)
Theorem direction_filter_only_without_infiles :
  forall o,
    (forall i0 il w infiles filelist w1,
        o_infiles o = Some (i0 :: il) ->
        catalog o w = Ret (infiles, filelist) w1 ->
        infiles = Some (i0 :: il)
        /\ direction_filter (o_keep o) infiles filelist w1 = Ret filelist w1)
    /\ (forall w infiles filelist w1,
          o_infiles o = None \/ o_infiles o = Some [] ->
          catalog o w = Ret (infiles, filelist) w1 ->
          infiles = None
          /\ direction_filter (o_keep o) infiles filelist w1
             = match o_keep o with
               | Some keep => cull_list_by_direction filelist keep w1
               | None => Ret filelist w1
               end)
    /\ (forall keep filelist w xmlFiles w1,
          log_st w = LogOpen ->
          getXmlFiles filelist w = Ret xmlFiles w1 ->
          Forall (fun x => is_Some (read_lines x)) xmlFiles ->
          exists w2,
            cull_list_by_direction filelist keep w
            = Ret (matching_direction keep filelist xmlFiles) w2)
    /\ (forall keep xml,
          same_direction (direction_of xml) keep = true
          <-> direction_of xml = Some keep).
Proof.
  intros o. split; [|split; [|split]].
  - intros i0 il w infiles filelist w1 Hin Hcat.
    apply catalog_keeps_infiles in Hcat. rewrite Hin in Hcat. subst infiles.
    split; [reflexivity|]. unfold direction_filter. now destruct (o_keep o).
  - intros w infiles filelist w1 Hin Hcat.
    apply catalog_keeps_infiles in Hcat.
    assert (infiles = None) as -> by (destruct Hin as [Hin|Hin]; now rewrite Hin in Hcat).
    split; [reflexivity|]. unfold direction_filter. now destruct (o_keep o).
  - intros keep filelist w xmlFiles w1 Hlog Hxml Hread.
    destruct (cull_loop_returns keep filelist xmlFiles w1) as (w2 & Hrun & _);
      auto.
    + now rewrite (getXmlFiles_log_st _ _ _ _ Hxml).
    + eapply getXmlFiles_length, Hxml.
    + exists w2. unfold cull_list_by_direction.
      now rewrite (bind_Ret _ _ _ _ _ Hxml).
  - intros keep xml. unfold same_direction.
    destruct (direction_of xml) as [s|]; [|split; discriminate].
    rewrite String.eqb_eq. split; congruence.
Qed.

End Claims.

(** * The claims on the small instance *)

Section OnDemo.

Import Demo.

Ltac by_vm :=
  match goal with |- ?a = ?b => exact (@eq_refl _ b <: a = b) end.

Ltac all_readable :=
  unfold readable; repeat constructor; eexists; vm_compute; reflexivity.

Ltac none_clobbered :=
  vm_compute; repeat split; repeat constructor; discriminate.

Lemma Ret_world_of {A} (o : outcome world A) a :
  returned o = Some a -> o = Ret a (world_of o).
Proof. destruct o; cbn; congruence. Qed.

(** Scenario B of the specification: of three scenes one covers a tenth
    of the box and is dropped at threshold 0.4, with one line of the log
    saying so. *)
Example scenario_B_log :
  log (world_of (cutStack scenes3 false (Some box) None (4 # 10)%Q w3))
  = ["Clipping to bounding box 0 10 10 0"; "Statistics for clipping:";
     "file name : percent overlap : result"; "a.tif : 10/10 : kept";
     "    Image fraction (1/10) less than threshold of 4/10 discarding";
     "b_reproj.tif : 1/10 : discarded"; "c.tif : 4/10 : kept"].
Proof. by_vm. Qed.

(** A later scene without zone token whose projection ends in a digit is
    taken to lie in the zone of that digit, and is reprojected. *)
Example untagged_scene_ending_in_digit :
  PyStr.find "UTM zone " proj4_longlat = -1
  /\ later_zone proj4_longlat = Some 0
  /\ returned (fix_projections ["a.tif"; "e.tif"] w_proj4)
     = Some ["a.tif"; "e_reproj.tif"].
Proof. repeat split; by_vm. Qed.


Lemma fix_file_list_elects_best_overlap_witness :
  (exists w' lines,
      fix_file_list ["a.tif"; "c.tif"] box w_dark = Exit 1 w'
      /\ log_st w' = LogClosed
      /\ log w'
         = (lines
            ++ ["ERROR: None of the input scenes overlap with your area of interest!"])%list)
  /\ (exists w' loc first best,
         fix_file_list ["b.tif"; "c.tif"; "a.tif"] box w3
         = Ret (<[loc := first]> (<[O := best]> ["b.tif"; "c.tif"; "a.tif"]))
             w'
         /\ nth_error ["b.tif"; "c.tif"; "a.tif"] O = Some first
         /\ nth_error ["b.tif"; "c.tif"; "a.tif"] loc = Some best).
Proof.
  split.
  - destruct (fix_file_list_elects_best_overlap (F:=floats) (C:=collaborators)
                ["a.tif"; "c.tif"] box w_dark) as [Hzero _].
    + reflexivity.
    + all_readable.
    + none_clobbered.
    + destruct Hzero as (w' & lines & Hrun & Hst & Hlog & _).
      * repeat constructor.
      * exists w', lines. repeat split; assumption.
  - destruct (fix_file_list_elects_best_overlap (F:=floats) (C:=collaborators)
                ["b.tif"; "c.tif"; "a.tif"] box w3) as [_ Hsome].
    + reflexivity.
    + all_readable.
    + none_clobbered.
    + destruct Hsome as (w' & loc & first & best & Hrun & H0 & Hloc & _).
      * apply Exists_cons_hd. vm_compute. discriminate.
      * exists w', loc, first, best. repeat split; assumption.
Defined.

Lemma fix_projections_reconciles_witness :
  fix_projections scenes3 w3
  = Ret ["a.tif"; "b_reproj.tif"; "c.tif"] w3_reconciled
  /\ files w3_reconciled !! "b_reproj.tif"
     = Some (gdal_warp "EPSG:32605" 30
               (img utm6 [1; 0; 0; 0; 0; 0; 0; 0; 0; 0]))
  /\ dstSRS 5 "N" = "EPSG:326" ++ two_digits 5.
Proof.
  destruct (fix_projections_reconciles (F:=floats) (C:=collaborators)
              "a.tif" ["b.tif"; "c.tif"] w3
              (img utm5 [1; 1; 1; 1; 1; 1; 1; 1; 1; 1]) 5 "N")
    as (Hrun & _ & _ & Hcode).
  - by_vm.
  - by_vm.
  - repeat constructor; eexists; vm_compute; reflexivity.
  - none_clobbered.
  - split; [|split].
    + refine (eq_trans Hrun _). by_vm.
    + by_vm.
    + apply Hcode. lia.
Defined.

Lemma no_survivors_is_fatal_witness :
  exists w2,
    procS1StackRTC opts_run w_run = Exit 1 w2
    /\ log_st w2 = LogClosed
    /\ log w2
       = (log (world_of (run_to_cut opts_run w_run))
          ++ no_survivor_messages opts_run)%list
    /\ calls w2 = calls (world_of (run_to_cut opts_run w_run))
    /\ files w2 = files (world_of (run_to_cut opts_run w_run))
    /\ ~ In (Mkdir (prodDir opts_run)) (calls w2).
Proof.
  apply (no_survivors_is_fatal (F:=floats) (C:=collaborators)
           opts_run w_run (Some [scene_jan])
           (world_of (run_to_cut opts_run w_run))).
  - constructor.
  - apply (Ret_world_of (run_to_cut opts_run w_run)). by_vm.
Defined.

Lemma dB_once_per_survivor_witness :
  scale_to_dB ["a.tif"; "c.tif"] w3
  = Ret ["a_dB.tif"; "c_dB.tif"]
        (set_files (dB_store store3 ["a.tif"; "c.tif"])
           (add_log "Scaling to dB" w3))
  /\ after_cut opts_run None ["a.tif"; "c.tif"] w3
     = bind (scale_to_dB ["a.tif"; "c.tif"])
         (finish opts_run None ["a.tif"; "c.tif"]) w3.
Proof.
  destruct (dB_once_per_survivor (F:=floats) (C:=collaborators)
              opts_run None ["a.tif"; "c.tif"] w3)
    as (Hrun & _ & _ & Hafter & _).
  - reflexivity.
  - all_readable.
  - none_clobbered.
  - split; [exact Hrun|]. apply Hafter. discriminate.
Defined.

Lemma frames_in_date_order_witness :
  exists w',
    date_and_file (Some [scene_jan]) 24 [png_feb; png_jan] w3
    = Ret [(png_jan, "20180118T031947"); (png_feb, "20180211T031947")] w'.
Proof.
  destruct (frames_in_date_order (F:=floats) (C:=collaborators)
              (Some [scene_jan]) 24 [png_feb; png_jan])
    as (_ & Hrun & _ & _).
  destruct (Hrun ["20180211T031947"; "20180118T031947"] w3)
    as (w' & Hw').
  - repeat constructor.
  - left. discriminate.
  - exists w'. refine (eq_trans Hw' _). f_equal.
Defined.

Lemma direction_filter_only_without_infiles_witness :
  direction_filter (o_keep opts_run) (Some [scene_jan])
    ["s1b-iw-rtcm-vv-20180118T031947_G.tif"]
    (world_of (catalog opts_run w_run))
  = Ret ["s1b-iw-rtcm-vv-20180118T031947_G.tif"]
      (world_of (catalog opts_run w_run))
  /\ exists w2,
       cull_list_by_direction [png_jan; png_feb] "a" w3 = Ret [png_jan] w2.
Proof.
  destruct (direction_filter_only_without_infiles (F:=floats)
              (C:=collaborators) opts_run) as (Hkeep & _ & Hcull & _).
  split.
  - apply (Hkeep scene_jan [] w_run (Some [scene_jan])
             ["s1b-iw-rtcm-vv-20180118T031947_G.tif"]
             (world_of (catalog opts_run w_run))).
    + reflexivity.
    + apply (Ret_world_of (catalog opts_run w_run)). by_vm.
  - destruct (Hcull "a" [png_jan; png_feb] w3
                ["20180118T031947-rtc-gamma/meta.iso.xml";
                 "20180211T031947-rtc-gamma/meta.iso.xml"] w3)
      as (w2 & Hw2).
    + reflexivity.
    + by_vm.
    + repeat constructor; eexists; vm_compute; reflexivity.
    + exists w2. refine (eq_trans Hw2 _). f_equal.
Defined.

(** C4. A scene without zone token that follows a zone-tagged first
    scene is not passed through: the search for digits in the last
    character of its projection finds nothing and the reconciliation dies
    with an [AttributeError]. *)
Theorem fix_projections_untagged_later_scene_raises :
  PyStr.find "UTM zone " geographic = -1
  /\ fix_projections ["a.tif"; "g.tif"] w_mixed = Raise AttributeError w_mixed.
Proof. split; by_vm. Qed.

(** C5. A shapefile clip never gets to clip a scene: the first statement
    of the loop reads the unbound name [fi] and the run dies with a
    [NameError]. *)
Theorem cutStack_shape_raises_NameError :
  cutStack ["a.tif"] false None (Some "aoi.shp") (4 # 10)%Q w3
  = Raise (NameError "fi") (add_log "Clipping to shape file aoi.shp" w3).
Proof. by_vm. Qed.

End OnDemo.

(** * Further properties of the program *)

(** ** Splitting names *)

Lemma str_app_cons x (a b : string) : String x a ++ b = String x (a ++ b).
Proof. reflexivity. Qed.

Lemma str_app_nil_l (b : string) : "" ++ b = b.
Proof. reflexivity. Qed.

Lemma str_app_assoc (a b c : string) : (a ++ b) ++ c = a ++ b ++ c.
Proof.
  induction a as [|x a IH]; [reflexivity|].
  rewrite !str_app_cons. now rewrite IH.
Qed.

Lemma str_app_nil_r (a : string) : a ++ "" = a.
Proof.
  induction a as [|x a IH]; [reflexivity|].
  rewrite str_app_cons. now rewrite IH.
Qed.

Lemma str_length_app (a b : string) :
  String.length (a ++ b) = (String.length a + String.length b)%nat.
Proof.
  induction a as [|x a IH]; [reflexivity|].
  rewrite str_app_cons. cbn [String.length]. now rewrite IH.
Qed.

Lemma count_char_app c (a b : string) :
  count_char c (a ++ b) = (count_char c a + count_char c b)%nat.
Proof.
  induction a as [|x a IH]; [reflexivity|].
  rewrite str_app_cons. cbn [count_char]. rewrite IH. apply Nat.add_assoc.
Qed.

Lemma split_not_nil sep s : PyStr.split sep s <> [].
Proof.
  destruct s as [|c s]; cbn; [discriminate|].
  destruct (Ascii.eqb c sep); [discriminate|].
  destruct (PyStr.split sep s); discriminate.
Qed.

Lemma split_plain sep a : count_char sep a = 0%nat -> PyStr.split sep a = [a].
Proof.
  induction a as [|c a IH]; cbn; [reflexivity|].
  destruct (Ascii.eqb c sep); [discriminate|]. intros H.
  now rewrite IH.
Qed.

Lemma split_app sep a b :
  count_char sep a = 0%nat ->
  PyStr.split sep (a ++ String sep b) = a :: PyStr.split sep b.
Proof.
  induction a as [|c a IH].
  - intros _. rewrite str_app_nil_l. cbn. now rewrite Ascii.eqb_refl.
  - rewrite str_app_cons. cbn.
    destruct (Ascii.eqb c sep); [discriminate|]. intros H.
    now rewrite IH.
Qed.

Lemma split_length sep s :
  length (PyStr.split sep s) = S (count_char sep s).
Proof.
  induction s as [|c s IH]; cbn; [reflexivity|].
  destruct (Ascii.eqb c sep); cbn; [now rewrite IH|].
  destruct (PyStr.split sep s); cbn in *; congruence.
Qed.

Lemma split_app_any sep a b :
  exists pre, pre <> [] /\
    PyStr.split sep (a ++ String sep b) = (pre ++ PyStr.split sep b)%list.
Proof.
  induction a as [|c a (pre & Hpre & IH)].
  - exists [""]. rewrite str_app_nil_l. cbn. rewrite Ascii.eqb_refl. now split.
  - rewrite str_app_cons. cbn. rewrite IH. destruct (Ascii.eqb c sep).
    + exists ("" :: pre). now split.
    + destruct pre as [|p pre]; [contradiction|].
      exists (String c p :: pre). now split.
Qed.

Lemma List_last_app {A} (l1 l2 : list A) d :
  l2 <> [] -> List.last (l1 ++ l2) d = List.last l2 d.
Proof.
  intros H. induction l1 as [|x l1 IH]; [reflexivity|].
  cbn [app List.last]. destruct (l1 ++ l2)%list eqn:E; [|exact IH].
  apply app_eq_nil in E as [_ E]. contradiction.
Qed.

Lemma basename_plain base :
  count_char "/" base = 0%nat -> PyStr.basename base = base.
Proof. intros H. unfold PyStr.basename. now rewrite split_plain. Qed.

Lemma basename_under d base :
  count_char "/" base = 0%nat -> PyStr.basename (d ++ "/" ++ base) = base.
Proof.
  intros H. unfold PyStr.basename.
  rewrite str_app_cons, str_app_nil_l.
  destruct (split_app_any "/" d base) as (pre & _ & ->).
  rewrite List_last_app by apply split_not_nil.
  now rewrite split_plain.
Qed.

Lemma basename_in_dir dir base :
  count_char "/" base = 0%nat -> PyStr.basename (in_dir dir base) = base.
Proof.
  destruct dir; [apply basename_under|apply basename_plain].
Qed.

(** The fifth dash-separated field of a product name. *)
Lemma fifth_field p0 p1 p2 p3 s tail :
  Forall (fun p => count_char "-" p = 0%nat) [p0; p1; p2; p3; s] ->
  starts_field "-" tail ->
  nth_error (PyStr.split "-" (product_name p0 p1 p2 p3 s tail)) 4 = Some s.
Proof.
  intros H Htail. unfold product_name.
  repeat match goal with
         | H : Forall _ (_ :: _) |- _ => inversion H; subst; clear H
         end.
  rewrite !str_app_cons, !str_app_nil_l.
  rewrite !split_app by assumption. cbn [nth_error].
  destruct Htail as [->|[t ->]].
  - rewrite str_app_nil_r. now rewrite split_plain.
  - now rewrite split_app.
Qed.

Section Dates.

Context {F : Floats} {C : Collaborators}.

(** X1. The date of a scene is read off the fifth dash-separated field of
    its base name, whatever directory it lies in and whatever follows a
    further dash: a field of at most 26 characters gives what precedes its
    first underscore, a longer one its fifth underscore-separated part, and
    a longer one with fewer than five such parts gives no date. *)
Theorem getDate_reads_fifth_field dir p0 p1 p2 p3 s tail :
  Forall (fun p => count_char "-" p = 0%nat /\ count_char "/" p = 0%nat)
    [p0; p1; p2; p3; s] ->
  count_char "/" tail = 0%nat ->
  starts_field "-" tail ->
  let name := in_dir dir (product_name p0 p1 p2 p3 s tail) in
  (forall date rest,
      s = date ++ rest -> count_char "_" date = 0%nat ->
      starts_field "_" rest -> (String.length s <= 26)%nat ->
      getDate name = Some date)
  /\ (forall a b c d date rest,
         s = a ++ "_" ++ b ++ "_" ++ c ++ "_" ++ d ++ "_" ++ date ++ rest ->
         Forall (fun p => count_char "_" p = 0%nat) [a; b; c; d; date] ->
         starts_field "_" rest -> (26 < String.length s)%nat ->
         getDate name = Some date)
  /\ ((26 < String.length s)%nat -> (count_char "_" s < 4)%nat ->
      getDate name = None).
Proof.
  intros Hparts Htail1 Htail2 name.
  assert (Hbase : PyStr.basename name = product_name p0 p1 p2 p3 s tail).
  { apply basename_in_dir. unfold product_name.
    repeat match goal with
           | H : Forall _ (_ :: _) |- _ => inversion H; subst; clear H
           end.
    rewrite !count_char_app. cbn. lia. }
  assert (Hfield : nth_error (PyStr.split "-" (PyStr.basename name)) 4 = Some s).
  { rewrite Hbase. apply fifth_field; [|assumption].
    eapply List.Forall_impl; [|exact Hparts]. now intros p [Hp _]. }
  unfold getDate. rewrite Hfield. split; [|split].
  - intros date rest -> Hdate Hrest Hlen.
    apply Nat.leb_le in Hlen. rewrite Hlen.
    destruct Hrest as [->|[r ->]].
    + rewrite str_app_nil_r. now rewrite split_plain.
    + now rewrite split_app.
  - intros a b c d date rest -> Hfree Hrest Hlen.
    apply Nat.leb_gt in Hlen. rewrite Hlen.
    repeat match goal with
           | H : Forall _ (_ :: _) |- _ => inversion H; subst; clear H
           end.
    rewrite !str_app_cons, !str_app_nil_l.
    rewrite !split_app by assumption. cbn [nth_error].
    destruct Hrest as [->|[r ->]].
    + rewrite str_app_nil_r. now rewrite split_plain.
    + now rewrite split_app.
  - intros Hlen Hfew. apply Nat.leb_gt in Hlen. rewrite Hlen.
    apply nth_error_None. rewrite split_length. lia.
Qed.

Lemma getDates_outcome filelist w :
  (exists dates, getDates filelist w = Ret dates w)
  \/ getDates filelist w = Raise IndexError w.
Proof.
  unfold getDates. induction filelist as [|f l IH]; [left; now exists []|].
  cbn [for_each]. destruct (getDate f) as [d|]; [|now right].
  cbn [ret]. destruct IH as [[ds ->]| ->]; [left; now exists (d :: ds)|now right].
Qed.

(** X2. A file whose base name has fewer than four dashes has no fifth
    field: [getDates] dies with [IndexError] on any list that holds one,
    and leaves the world as it was. *)
Theorem getDates_needs_five_fields filelist f w :
  In f filelist ->
  (count_char "-" (PyStr.basename f) < 4)%nat ->
  getDates filelist w = Raise IndexError w.
Proof.
  intros Hin Hfew.
  assert (Hnone : getDate f = None).
  { unfold getDate.
    replace (nth_error (PyStr.split "-" (PyStr.basename f)) 4)
      with (@None string); [reflexivity|].
    symmetry. apply nth_error_None. rewrite split_length. lia. }
  destruct (getDates_outcome filelist w) as [[dates H]|H]; [|exact H].
  apply getDates_inv in H as [_ H]. unfold dates_of in H.
  exfalso. induction H as [|g d l ds Hg _ IH]; [contradiction|].
  destruct Hin as [->|Hin]; [congruence|auto].
Qed.

End Dates.

(** ** Looking for a string *)

Lemma find_range sub s : PyStr.find sub s = -1 \/ 0 <= PyStr.find sub s.
Proof.
  induction s as [|c s IH]; cbn [PyStr.find].
  - destruct (String.prefix sub ""); [right|left]; [lia|reflexivity].
  - destruct (String.prefix sub (String c s)); [right; lia|].
    destruct (PyStr.find sub s <? 0) eqn:E; [now left|].
    apply Z.ltb_ge in E. right. lia.
Qed.

Lemma contains_cons_false sub c s :
  PyStr.contains sub (String c s) = false ->
  String.prefix sub (String c s) = false /\ PyStr.contains sub s = false.
Proof.
  unfold PyStr.contains. cbn [PyStr.find].
  destruct (String.prefix sub (String c s)); [discriminate|].
  destruct (PyStr.find sub s <? 0) eqn:E; [now split|].
  apply Z.ltb_ge in E. intros H. apply negb_false_iff, Z.ltb_lt in H. lia.
Qed.

Lemma contains_char c s :
  PyStr.contains (String c "") s = negb (count_char c s =? 0)%nat.
Proof.
  unfold PyStr.contains. induction s as [|d s IH]; [reflexivity|].
  cbn [PyStr.find count_char String.prefix].
  destruct (ascii_dec c d) as [<-|Hne].
  - rewrite Ascii.eqb_refl.
    replace (String.prefix "" s) with true by (now destruct s).
    reflexivity.
  - replace (Ascii.eqb d c) with false
      by (symmetry; apply Ascii.eqb_neq; congruence).
    cbn [Nat.add]. rewrite <- IH.
    destruct (PyStr.find (String c "") s <? 0) eqn:E; [reflexivity|].
    apply Z.ltb_ge in E. cbn [negb].
    apply negb_true_iff, Z.ltb_ge. lia.
Qed.

Lemma split_parts_plain sep s :
  Forall (fun p => count_char sep p = 0%nat) (PyStr.split sep s).
Proof.
  induction s as [|c s IH]; cbn [PyStr.split]; [now repeat constructor|].
  destruct (Ascii.eqb c sep) eqn:E; [now constructor|].
  destruct (PyStr.split sep s) as [|p ps]; cbn [count_char].
  - constructor; [|constructor]. cbn. now rewrite E.
  - inversion IH; subst. constructor; [|assumption].
    cbn [count_char]. now rewrite E.
Qed.

Lemma List_last_In {A} (l : list A) d : l <> [] -> In (List.last l d) l.
Proof.
  induction l as [|x l IH]; [contradiction|]. intros _.
  destruct l as [|y l]; [now left|]. right. apply IH. discriminate.
Qed.

Lemma basename_no_slash f : count_char "/" (PyStr.basename f) = 0%nat.
Proof.
  unfold PyStr.basename.
  pose proof (split_parts_plain "/" f) as H.
  rewrite List.Forall_forall in H. apply H, List_last_In, split_not_nil.
Qed.

Section Files.

Context {F : Floats} {C : Collaborators}.

(** ** The caller's input files *)

Lemma take_infiles_unfold infiles :
  take_infiles infiles
  = bind (plog "Infiles found; using them") (fun _ => for_each take_one infiles).
Proof. reflexivity. Qed.

Lemma take_one_returns f w :
  os_isfile f = true -> f <> "" -> take_one f w = Ret (absolute f) w.
Proof.
  intros Hf Hne. unfold take_one, bind. rewrite Hf. cbn [negb ret].
  destruct f as [|c f]; [contradiction|]. cbn [first_char ret absolute].
  now destruct (Ascii.eqb c "/").
Qed.

Lemma take_loop_returns l w :
  Forall (fun f => os_isfile f = true /\ f <> "") l ->
  for_each take_one l w = Ret (map absolute l) w.
Proof.
  induction 1 as [|f l [Hf Hne] _ IH]; [reflexivity|].
  cbn [for_each map]. rewrite take_one_returns by assumption.
  now rewrite IH.
Qed.

Lemma take_loop_exits pre f post w :
  log_st w = LogOpen ->
  Forall (fun f => os_isfile f = true /\ f <> "") pre ->
  os_isfile f = false ->
  for_each take_one (pre ++ f :: post) w
  = Exit 1 (set_log_st LogClosed
              (add_log ("ERROR: Can't find input file " ++ f) w)).
Proof.
  intros Hlog Hpre Hf.
  induction Hpre as [|g pre [Hg Hne] _ IH]; cbn [app for_each].
  - unfold take_one at 1, bind. rewrite Hf. cbn [negb].
    rewrite (plog_open _ w Hlog). unfold mexit. cbn. now rewrite Hlog.
  - rewrite take_one_returns by assumption. now rewrite IH.
Qed.

(** X3. The caller's input files are checked one by one: when all of
    them exist, each is taken under its own path if that is absolute and
    under the working directory otherwise, in the order given; the first
    one that does not exist ends the run with exit code 1 and a message
    that names it, and nothing but the log has changed. *)
Theorem take_infiles_checks_each_file infiles w :
  log_st w = LogOpen ->
  (Forall (fun f => os_isfile f = true /\ f <> "") infiles ->
   take_infiles infiles w
   = Ret (map absolute infiles) (add_log "Infiles found; using them" w))
  /\ (forall pre f post,
         infiles = (pre ++ f :: post)%list ->
         Forall (fun f => os_isfile f = true /\ f <> "") pre ->
         os_isfile f = false ->
         take_infiles infiles w
         = Exit 1 {| files := files w;
                     log := (log w ++ ["Infiles found; using them";
                                       ("ERROR: Can't find input file " ++ f)%string])%list;
                     log_st := LogClosed;
                     calls := calls w |}).
Proof.
  intros Hlog. rewrite take_infiles_unfold. split.
  - intros Hall. rewrite (bind_Ret _ _ _ _ _ (plog_open _ w Hlog)).
    now apply take_loop_returns.
  - intros pre f post -> Hpre Hf.
    rewrite (bind_Ret _ _ _ _ _ (plog_open _ w Hlog)).
    rewrite take_loop_exits by assumption.
    unfold set_log_st, add_log. cbn. now rewrite <- app_assoc.
Qed.

(** ** Linking the scenes into the scratch directory *)

Lemma link_files_unfold filelist :
  link_files filelist
  = bind (os_do (Chdir "TEMP")) (fun _ =>
    bind (for_each link_one filelist) (fun filelist =>
    bind (plog "List of files to operate on") (fun _ =>
    bind (plog (repr_list filelist)) (fun _ => ret filelist)))).
Proof. reflexivity. Qed.

Lemma os_symlink_inv src dst w w' :
  os_symlink src dst w = Ret tt w' ->
  files w !! dst = None
  /\ log w' = log w /\ log_st w' = log_st w
  /\ calls w' = (calls w ++ [Symlink src dst])%list
  /\ (forall g r, files w !! g = Some r -> files w' !! g = Some r)
  /\ (forall r, files w !! src = Some r -> files w' !! dst = Some r).
Proof.
  unfold os_symlink. destruct (files w !! dst) eqn:Hdst; [discriminate|].
  intros H. inversion H; subst; clear H. split; [reflexivity|].
  destruct (files w !! src) as [r0|] eqn:Hsrc; cbn.
  - do 3 (split; [reflexivity|]). split.
    + intros g r Hg. rewrite lookup_insert_ne; [assumption|congruence].
    + intros r Hr. injection Hr as <-. apply lookup_insert_eq.
  - do 3 (split; [reflexivity|]). split; [auto|discriminate].
Qed.

Lemma link_one_inv f w n w' :
  link_one f w = Ret n w' ->
  n = PyStr.basename f
  /\ log w' = log w /\ log_st w' = log_st w
  /\ (forall g r, files w !! g = Some r -> files w' !! g = Some r)
  /\ (forall r, files w !! f = Some r -> files w' !! n = Some r).
Proof.
  unfold link_one. rewrite contains_char.
  destruct (count_char "/" f =? 0)%nat eqn:E; cbn [negb].
  - apply Nat.eqb_eq in E. rewrite (basename_plain f E).
    unfold bind, raster_isfile.
    destruct (files w !! f) as [r0|] eqn:Hf; cbn [negb ret].
    + intros H. inversion H; subst. repeat split; auto. congruence.
    + destruct (os_symlink ("../" ++ f) f w) as [[] w1| |] eqn:Hs;
        try discriminate.
      intros H. inversion H; subst.
      apply os_symlink_inv in Hs as (_ & Hl & Hst & _ & Hmono & _).
      repeat split; auto. discriminate.
  - unfold bind.
    destruct (os_symlink f (PyStr.basename f) w) as [[] w1| |] eqn:Hs;
      try discriminate.
    intros H. inversion H; subst.
    apply os_symlink_inv in Hs as (_ & Hl & Hst & _ & Hmono & Hnew).
    repeat split; auto.
Qed.

Lemma link_loop_inv l : forall w l' w',
  for_each link_one l w = Ret l' w' ->
  l' = map PyStr.basename l
  /\ log w' = log w /\ log_st w' = log_st w
  /\ (forall g r, files w !! g = Some r -> files w' !! g = Some r)
  /\ (forall f r, In f l -> files w !! f = Some r ->
                  files w' !! PyStr.basename f = Some r).
Proof.
  induction l as [|f l IH]; intros w l' w' H.
  - inversion H; subst. repeat split; auto. intros f r [].
  - apply for_each_cons_inv in H as (n & w1 & ns & H1 & H2 & ->).
    apply link_one_inv in H1 as (-> & Hl1 & Hst1 & Hmono1 & Hnew1).
    apply IH in H2 as (-> & Hl2 & Hst2 & Hmono2 & Hnew2).
    split; [reflexivity|]. split; [congruence|]. split; [congruence|].
    split; [auto|].
    intros g r [->|Hin] Hg; [auto|]. apply Hnew2; auto.
Qed.

(** X4. When the linking of the scenes returns, the list holds the base
    name of every scene, in order, and none of them has a slash; the log
    has two more lines, the second showing the list; no raster that was
    there has changed, and every scene that was a readable raster under
    the path given is the same raster under its base name. *)
Theorem link_files_gives_base_names filelist w filelist' w' :
  link_files filelist w = Ret filelist' w' ->
  filelist' = map PyStr.basename filelist
  /\ Forall (fun f => PyStr.contains "/" f = false) filelist'
  /\ log w' = (log w ++ ["List of files to operate on"; repr_list filelist'])%list
  /\ (forall g r, files w !! g = Some r -> files w' !! g = Some r)
  /\ (forall f r, In f filelist -> files w !! f = Some r ->
                  files w' !! PyStr.basename f = Some r).
Proof.
  rewrite link_files_unfold. intros H.
  apply bind_inv_Ret in H as ([] & w1 & H1 & H).
  apply bind_inv_Ret in H as (fl & w2 & H2 & H).
  apply bind_inv_Ret in H as ([] & w3 & H3 & H).
  apply bind_inv_Ret in H as ([] & w4 & H4 & H).
  inversion H; subst; clear H. inversion H1; subst; clear H1.
  apply link_loop_inv in H2 as (-> & Hl & Hst & Hmono & Hnew).
  unfold plog in H3, H4.
  destruct (log_st w2) eqn:E2; try discriminate.
  inversion H3; subst; clear H3. cbn in H4. rewrite E2 in H4.
  inversion H4; subst; clear H4. cbn.
  split; [reflexivity|]. split; [|split; [|split]].
  - apply List.Forall_forall. intros n Hn. apply in_map_iff in Hn as (f & <- & _).
    rewrite contains_char, basename_no_slash. reflexivity.
  - rewrite Hl. cbn. now rewrite <- app_assoc.
  - intros g r Hg. now apply Hmono.
  - intros f r Hin Hf. now apply Hnew.
Qed.

Lemma for_each_app_inv {A B} (f : A -> M B) l1 l2 : forall w bs w',
  for_each f (l1 ++ l2) w = Ret bs w' ->
  exists bs1 w1 bs2,
    for_each f l1 w = Ret bs1 w1 /\ for_each f l2 w1 = Ret bs2 w'
    /\ bs = (bs1 ++ bs2)%list.
Proof.
  induction l1 as [|a l1 IH]; intros w bs w' H.
  - exists [], w, bs. now repeat split.
  - cbn [app] in H.
    apply for_each_cons_inv in H as (b & w0 & bs' & H1 & H2 & ->).
    apply IH in H2 as (bs1 & w1 & bs2 & H2 & H3 & ->).
    exists (b :: bs1), w1, bs2. repeat split; [|assumption].
    cbn [for_each]. now rewrite H1, H2.
Qed.

Lemma link_one_outcome f w :
  (exists n w', link_one f w = Ret n w')
  \/ (exists dst, link_one f w = Raise (OSError dst) w).
Proof.
  unfold link_one, bind, raster_isfile, os_symlink.
  destruct (PyStr.contains "/" f).
  - destruct (files w !! PyStr.basename f); [right|left]; eauto.
  - destruct (files w !! f) eqn:E; cbn [negb]; [left; eauto|].
    rewrite E. left. eauto.
Qed.

Lemma link_loop_outcome l : forall w,
  (exists l' w', for_each link_one l w = Ret l' w')
  \/ (exists dst w', for_each link_one l w = Raise (OSError dst) w').
Proof.
  induction l as [|f l IH]; intros w; [left; now exists [], w|].
  cbn [for_each].
  destruct (link_one_outcome f w) as [(n & w1 & ->)|(dst & ->)]; [|right; eauto].
  destruct (IH w1) as [(l' & w' & ->)|(dst & w' & ->)]; [left|right]; eauto.
Qed.

(** X5. Two scenes given with a directory and with the same base name
    cannot both be linked: if the first of them is a readable raster, the
    linking dies with [OSError], the error of [os.symlink] on a name that
    exists. *)
Theorem link_files_same_base_name_raises l1 f1 l2 f2 l3 w r :
  PyStr.contains "/" f2 = true ->
  PyStr.basename f1 = PyStr.basename f2 ->
  files w !! f1 = Some r ->
  exists dst w',
    link_files (l1 ++ f1 :: l2 ++ f2 :: l3) w = Raise (OSError dst) w'.
Proof.
  intros Hslash Hbase Hf1. rewrite link_files_unfold.
  unfold bind at 1. cbn [os_do].
  set (w0 := add_call (Chdir "TEMP") w).
  assert (Hf0 : files w0 !! f1 = Some r) by exact Hf1.
  destruct (link_loop_outcome (l1 ++ f1 :: l2 ++ f2 :: l3) w0)
    as [(l' & w' & H)|(dst & w' & H)].
  - exfalso.
    replace (l1 ++ f1 :: l2 ++ f2 :: l3)%list
      with ((l1 ++ f1 :: l2) ++ f2 :: l3)%list in H
      by (now rewrite <- app_assoc).
    apply for_each_app_inv in H as (bs1 & w1 & bs2 & Ha & Hb & _).
    apply link_loop_inv in Ha as (_ & _ & _ & _ & Hnew).
    specialize (Hnew f1 r). rewrite Hbase in Hnew.
    apply for_each_cons_inv in Hb as (n & w2 & ns & Hb & _ & _).
    unfold link_one in Hb. rewrite Hslash in Hb.
    unfold bind, os_symlink in Hb.
    rewrite Hnew in Hb; [discriminate| |assumption].
    apply in_or_app. right. now left.
  - exists dst, w'. unfold bind. now rewrite H.
Qed.

(** ** The directory of the products *)

Lemma join_absolute a b :
  String.prefix "/" a = true -> b <> "" ->
  String.prefix "/" (PyStr.join a b) = true.
Proof.
  intros Ha Hb. unfold PyStr.join.
  destruct (String.prefix "/" b) eqn:E; [exact E|].
  destruct a as [|c a]; [discriminate|].
  assert (Hnil : forall s, String.prefix "" s = true) by (now intros []).
  destruct (Ascii.eqb _ _); rewrite str_app_cons; cbn [String.prefix] in *;
    destruct (ascii_dec "/" c); solve [apply Hnil|discriminate Ha].
Qed.

(** X6. The directory in which the products are looked for: without a
    [path] it is the working directory; an empty [path] makes the run die
    with [IndexError]; any other [path] is taken as it is when it starts
    with a slash and under the working directory otherwise, and the run
    goes on with it if it is a directory and ends with exit code 1 and a
    message that names it if it is not. A path that the run goes on with
    starts with a slash as soon as the working directory does. *)
Theorem resolve_path_checks_the_directory o w :
  (o_path o = None -> resolve_path o w = Ret os_getcwd w)
  /\ (o_path o = Some "" -> resolve_path o w = Raise IndexError w)
  /\ (forall p,
        o_path o = Some p -> p <> "" ->
        (os_isdir (absolute p) = true ->
         resolve_path o w = Ret (absolute p) w)
        /\ (os_isdir (absolute p) = false -> log_st w = LogOpen ->
            resolve_path o w
            = Exit 1 {| files := files w;
                        log := (log w ++ [("ERROR: Unable to find directory "
                                           ++ absolute p)%string])%list;
                        log_st := LogClosed;
                        calls := calls w |})
        /\ (String.prefix "/" os_getcwd = true ->
            String.prefix "/" (absolute p) = true)).
Proof.
  unfold resolve_path. split; [now intros ->|]. split; [now intros ->|].
  intros p -> Hne. destruct p as [|c p]; [contradiction|].
  cbn [first_char absolute].
  split; [|split].
  - intros Hdir. unfold bind at 1. cbn [ret].
    destruct (Ascii.eqb c "/"); cbn [negb] in *; now rewrite Hdir.
  - intros Hdir Hlog. unfold bind at 1. cbn [ret].
    destruct (Ascii.eqb c "/"); cbn [negb] in *;
      rewrite Hdir; cbn [negb]; unfold bind; rewrite (plog_open _ w Hlog);
      unfold mexit; cbn; now rewrite Hlog.
  - intros Hcwd. destruct (Ascii.eqb c "/") eqn:E.
    + apply Ascii.eqb_eq in E. subst c. cbn [String.prefix].
      destruct (ascii_dec "/" "/"); [now destruct p|contradiction].
    + now apply join_absolute.
Qed.

End Files.

(** ** The options *)

Section Options.

Context {F : Floats} {C : Collaborators}.

Lemma bind_Exit {A B} (m : M A) (k : A -> M B) w c w' :
  m w = Exit c w' -> bind m k w = Exit c w'.
Proof. intros H. unfold bind. now rewrite H. Qed.

Lemma bind_Raise {A B} (m : M A) (k : A -> M B) w e w' :
  m w = Raise e w' -> bind m k w = Raise e w'.
Proof. intros H. unfold bind. now rewrite H. Qed.

Lemma check_options_outcome o w :
  log_st w = LogOpen ->
  check_options o w
  = match option_error o with
    | None =>
        Ret tt {| files := files w; log := (log w ++ option_messages o)%list;
                  log_st := LogOpen; calls := calls w |}
    | Some e =>
        Exit 1 {| files := files w;
                  log := (log w ++ option_messages o ++ [e])%list;
                  log_st := LogClosed; calls := calls w |}
    end.
Proof.
  intros Hlog.
  unfold check_options, option_error, keep_error, shape_error, clip_error,
    option_messages.
  destruct w as [fs lg st cs]. cbn in Hlog. subst st.
  destruct (existsb (String.eqb (o_type o)) types);
    destruct (o_keep o) as [keep|];
    try (destruct (String.eqb keep "a"); [|destruct (String.eqb keep "d")]);
    destruct (o_shape o) as [shape|];
    try destruct (os_isfile shape);
    destruct (o_clip o) as [clip|];
    destruct (o_overlap o);
    cbn; unfold set_log_st, add_log; cbn;
    rewrite <- ?app_assoc; reflexivity.
Qed.

(** X7. The options are checked before anything else is done: the first
    complaint, about the direction to keep, about the shape file or about
    two ways of clipping at once, ends the run with exit code 1, the log
    closed and holding the complaint as its last line, and no call to the
    operating system; there is no complaint exactly when the direction is
    absent, ['a'] or ['d'], a shape file exists and comes without box and
    without overlap clipping, and a box comes without overlap clipping. *)
Theorem invalid_options_end_the_run_at_once o w :
  (forall e,
      option_error o = Some e ->
      procS1StackRTC o w
      = Exit 1 {| files := files w; log := (option_messages o ++ [e])%list;
                  log_st := LogClosed; calls := calls w |})
  /\ (option_error o = None ->
      forall w0, log_st w0 = LogOpen ->
      check_options o w0
      = Ret tt {| files := files w0; log := (log w0 ++ option_messages o)%list;
                  log_st := LogOpen; calls := calls w0 |})
  /\ (option_error o = None <->
      (o_keep o = None \/ o_keep o = Some "a" \/ o_keep o = Some "d")
      /\ (forall shape, o_shape o = Some shape ->
            os_isfile shape = true /\ o_clip o = None /\ o_overlap o = false)
      /\ (o_clip o <> None -> o_overlap o = false)).
Proof.
  split; [|split].
  - intros e He.
    unfold procS1StackRTC, run_to_cut, catalog.
    do 2 apply bind_Exit. unfold bind at 1. cbn [open_log].
    apply bind_Exit. rewrite check_options_outcome by reflexivity.
    now rewrite He.
  - intros Hok w0 Hlog. rewrite check_options_outcome by assumption.
    now rewrite Hok.
  - unfold option_error, keep_error, shape_error, clip_error. split.
    + intros H. split; [|split].
      * destruct (o_keep o) as [keep|]; [|now left]. right.
        destruct (String.eqb keep "a") eqn:Ea;
          [apply String.eqb_eq in Ea; subst; now left|].
        destruct (String.eqb keep "d") eqn:Ed;
          [apply String.eqb_eq in Ed; subst; now right|].
        discriminate.
      * intros shape Hs. rewrite Hs in H.
        destruct (o_keep o) as [keep|];
          try destruct (String.eqb keep "a" || String.eqb keep "d");
          destruct (os_isfile shape), (o_clip o), (o_overlap o);
          try discriminate; auto.
      * intros Hclip.
        destruct (o_keep o) as [keep|];
          try destruct (String.eqb keep "a" || String.eqb keep "d");
          destruct (o_shape o) as [shape|];
          try destruct (os_isfile shape);
          destruct (o_clip o), (o_overlap o);
          try discriminate; try reflexivity; contradiction.
    + intros (Hkeep & Hshape & Hclip).
      assert (Hk : match o_keep o with
                   | Some keep =>
                       String.eqb keep "a" || String.eqb keep "d" = true
                   | None => True
                   end).
      { destruct Hkeep as [->|[->| ->]]; [exact I|reflexivity|reflexivity]. }
      destruct (o_keep o) as [keep|]; [rewrite Hk|];
        (destruct (o_shape o) as [shape|];
         [destruct (Hshape shape eq_refl) as (-> & -> & ->); reflexivity|];
         destruct (o_clip o); [|reflexivity];
         rewrite Hclip by discriminate; reflexivity).
Qed.

(** X8. An output type that is not one of the five known ones is
    reported in the log and does not end the run; at the end no raster is
    moved to the product directory for it. *)
Theorem unknown_type_is_reported_but_not_fatal o :
  existsb (String.eqb (o_type o)) types = false ->
  (forall w, log_st w = LogOpen -> option_error o = None ->
     exists w', check_options o w = Ret tt w'
                /\ nth_error (log w') (length (log w))
                   = Some ("ERROR: unknown output type " ++ o_type o))
  /\ (forall prodDir power_filelist dB_filelist byte_filelist w,
        move_products o prodDir power_filelist dB_filelist byte_filelist w
        = Ret tt w).
Proof.
  intros Htype. split.
  - intros w Hlog Hok. rewrite check_options_outcome by assumption.
    rewrite Hok. eexists. split; [reflexivity|]. cbn [log].
    unfold option_messages. rewrite Htype.
    rewrite nth_error_app2 by lia. now rewrite Nat.sub_diag.
  - intros pd pl dl bl w. unfold move_products.
    cbn [existsb types] in Htype.
    repeat (apply orb_false_iff in Htype as [? Htype]).
    repeat match goal with H : String.eqb _ _ = false |- _ =>
             rewrite H; clear H end.
    reflexivity.
Qed.

End Options.

(** ** Clipping one scene, and a stack without scenes *)

Section Cutting.

Context {F : Floats} {C : Collaborators}.

(** X9. One clip of a readable scene against a box: a fraction below the
    threshold removes the clipped raster again, with one line in the log
    and one call to [os.remove], and gives no name; a fraction at or above
    the threshold leaves the clipped raster in place under the [_clipped]
    name and changes nothing else. The fraction is never negative. *)
Theorem cut_keeps_or_removes_the_clip pt1 pt2 pt3 pt4 fi t w r :
  files w !! fi = Some r ->
  log_st w = LogOpen ->
  let out := clipped_name fi in
  let clip := gdal_projWin (pt1, pt2, pt3, pt4) r in
  let q := coverage clip in
  (0 <= q)%Q
  /\ ((q < t)%Q ->
      cut pt1 pt2 pt3 pt4 fi (Some t) w
      = Ret (None, q)
          {| files := delete out (files w);
             log := (log w ++ ["    Image fraction (" ++ fmt_frac q
                               ++ ") less than threshold of " ++ fmt_frac t
                               ++ " discarding"]%string)%list;
             log_st := LogOpen;
             calls := (calls w ++ [Remove out])%list |})
  /\ ((t <= q)%Q ->
      cut pt1 pt2 pt3 pt4 fi (Some t) w
      = Ret (Some out, q) (set_files (<[out := clip]> (files w)) w)).
Proof.
  intros Hfi Hlog out clip q.
  split; [apply coverage_nonneg|]. split.
  - intros Hq. apply Qlt_bool_iff in Hq.
    unfold cut, gdal_call, bind. rewrite Hfi. cbn.
    fold (clipped_name fi). fold out. fold clip. fold q. rewrite Hq.
    unfold plog, os_remove. cbn. rewrite Hlog. cbn.
    rewrite lookup_insert_eq. cbn.
    unfold add_call, set_files, add_log. cbn.
    rewrite delete_insert_eq, Hlog. reflexivity.
  - intros Hq.
    assert (Hq' : Qlt_bool q t = false).
    { unfold Qlt_bool. apply Qle_bool_iff in Hq. now rewrite Hq. }
    unfold cut, gdal_call, bind. rewrite Hfi. cbn.
    fold (clipped_name fi). fold out. fold clip. fold q. now rewrite Hq'.
Qed.

(** X10. A stack without scenes cannot be clipped: in each of the three
    clipping modes the reconciliation of projections reads the first
    entry of the empty list and the cutter dies with [IndexError], with no
    raster and no call changed; when no clipping is asked for, the cutter
    hands back whatever list it is given and changes nothing. *)
Theorem cutStack_of_no_scene overlap clip shape t w :
  log_st w = LogOpen ->
  (overlap = true \/ clip <> None \/ shape <> None ->
   exists w',
     cutStack [] overlap clip shape t w = Raise IndexError w'
     /\ files w' = files w /\ calls w' = calls w)
  /\ (overlap = false -> clip = None -> shape = None ->
      forall filelist, cutStack filelist overlap clip shape t w = Ret filelist w).
Proof.
  intros Hlog. split.
  - intros Hmode. unfold cutStack.
    destruct overlap.
    + rewrite (bind_Ret _ _ _ _ _ (plog_open _ w Hlog)). eexists.
      split; [reflexivity|]. now split.
    + destruct clip as [[[[pt1 pt2] pt3] pt4]|].
      * exists w. now repeat split.
      * destruct shape as [shape|].
        -- rewrite (bind_Ret _ _ _ _ _ (plog_open _ w Hlog)). eexists.
           split; [reflexivity|]. now split.
        -- destruct Hmode as [?|[?|?]]; [discriminate|contradiction..].
  - intros -> -> -> filelist. reflexivity.
Qed.

(** ** Reconciliation without a reference zone *)

(** X11. The reconciliation of projections starts from the first scene
    alone: an empty list gives [IndexError], a first scene that cannot be
    read gives the error of the raster reader, a first scene whose
    projection has the zone token but no zone number and letter after it
    gives [AttributeError], and a first scene whose projection does not
    have the zone token hands the list back as it is without opening any
    other scene. In none of these cases the world changes. *)
Theorem fix_projections_without_reference_zone file1 rest w :
  fix_projections [] w = Raise IndexError w
  /\ (files w !! file1 = None ->
      fix_projections (file1 :: rest) w = Raise (RasterError file1) w)
  /\ (forall r1,
        files w !! file1 = Some r1 ->
        PyStr.find "UTM zone " (r_proj r1) = -1 ->
        fix_projections (file1 :: rest) w = Ret (file1 :: rest) w)
  /\ (forall r1,
        files w !! file1 = Some r1 ->
        PyStr.find "UTM zone " (r_proj r1) <> -1 ->
        reference_zone (r_proj r1) = None ->
        fix_projections (file1 :: rest) w = Raise AttributeError w).
Proof.
  split; [reflexivity|]. split; [|split].
  - intros H. unfold fix_projections, bind, open_gdal_file. cbn. now rewrite H.
  - intros r1 H Hptr. unfold fix_projections, bind, open_gdal_file. cbn.
    rewrite H. cbn. now rewrite Hptr.
  - intros r1 H Hptr Hzone. unfold fix_projections, bind, open_gdal_file. cbn.
    rewrite H. cbn. unfold reference_zone in Hzone.
    apply Z.eqb_neq in Hptr. rewrite Hptr in *. cbn.
    now destruct (PyStr.re_search_digits_any _) as [[g1 g2]|].
Qed.

Lemma reconcile_inv zone1 hemi pixsize f w n w' :
  reconcile zone1 hemi pixsize f w = Ret n w' ->
  (n = f \/ n = reproj_name f)
  /\ log w' = log w /\ log_st w' = log_st w /\ calls w' = calls w
  /\ (forall g, is_Some (files w !! g) -> is_Some (files w' !! g))
  /\ (forall g, g <> reproj_name f -> files w' !! g = files w !! g).
Proof.
  unfold reconcile, bind, open_gdal_file.
  destruct (files w !! f) as [r|] eqn:Hf; cbn; [|discriminate].
  destruct (PyStr.re_search_digits _); cbn; [|discriminate].
  destruct (negb _); cbn.
  - unfold gdal_call. rewrite Hf. cbn. intros H. inversion H; subst. cbn.
    split; [now right|]. do 3 (split; [reflexivity|]). split.
    + intros g Hg. rewrite lookup_insert. case_decide; eauto.
    + intros g Hg. now rewrite lookup_insert_ne.
  - intros H. inversion H; subst. split; [now left|]. repeat split; auto.
Qed.

Lemma reconcile_loop_inv zone1 hemi pixsize l : forall w ns w',
  for_each (reconcile zone1 hemi pixsize) l w = Ret ns w' ->
  Forall2 (fun f f' => f' = f \/ f' = reproj_name f) l ns
  /\ log w' = log w /\ log_st w' = log_st w /\ calls w' = calls w
  /\ (forall g, is_Some (files w !! g) -> is_Some (files w' !! g))
  /\ (forall g, ~ In g (map reproj_name l) -> files w' !! g = files w !! g).
Proof.
  induction l as [|f l IH]; intros w ns w' H.
  - inversion H; subst. split; [constructor|]. repeat split; auto.
  - apply for_each_cons_inv in H as (n & w1 & ns' & E1 & E2 & ->).
    apply reconcile_inv in E1 as (Hn & Hl1 & Hs1 & Hc1 & Hm1 & Ho1).
    apply IH in E2 as (Hns & Hl2 & Hs2 & Hc2 & Hm2 & Ho2).
    split; [now constructor|]. do 3 (split; [congruence|]). split; [auto|].
    intros g Hg. cbn [map In] in Hg.
    rewrite Ho2 by tauto. apply Ho1. intros ->. tauto.
Qed.

(** X12. When the reconciliation of projections returns, the stack is
    still in place: the list has the same scenes in the same order, each
    under its own name or under its [_reproj] name, and the first under
    its own; the log and the calls are as before; every raster that was
    there is still there, and no raster has changed except under the
    [_reproj] names of the later scenes. *)
Theorem fix_projections_keeps_the_stack_in_place filelist w filelist' w' :
  fix_projections filelist w = Ret filelist' w' ->
  Forall2 (fun f f' => f' = f \/ f' = reproj_name f) filelist filelist'
  /\ nth_error filelist' 0 = nth_error filelist 0
  /\ log w' = log w /\ log_st w' = log_st w /\ calls w' = calls w
  /\ (forall g, is_Some (files w !! g) -> is_Some (files w' !! g))
  /\ (forall g, ~ In g (map reproj_name (tail filelist)) ->
                files w' !! g = files w !! g).
Proof.
  intros H. destruct filelist as [|file1 rest]; [discriminate|].
  unfold fix_projections, bind at 1 2 3, open_gdal_file in H.
  cbn [item nth_error ret] in H.
  destruct (files w !! file1) as [r1|]; [|discriminate].
  cbn [read_gdal_file ret] in H.
  assert (Hsame : Forall2 (fun f f' : string => f' = f \/ f' = reproj_name f)
                    rest rest).
  { clear. induction rest; constructor; auto. }
  destruct (negb _).
  - apply bind_inv_Ret in H as ([zone1 hemi] & w4 & H4 & H).
    destruct (PyStr.re_search_digits_any _) as [[g1 g2]|]; [|discriminate].
    inversion H4; subst; clear H4.
    apply bind_inv_Ret in H as (ns & w5 & H5 & H).
    inversion H; subst; clear H. cbn [tail] in *.
    apply reconcile_loop_inv in H5 as (Hns & Hl & Hs & Hc & Hm & Ho).
    split; [constructor; auto|]. now repeat split.
  - inversion H; subst; clear H.
    split; [constructor; auto|]. now repeat split.
Qed.

(** ** The zone of a projection *)

Lemma drop_app a s : PyStr.drop (String.length a) (a ++ s) = s.
Proof.
  induction a as [|c a IH]; [now destruct s|].
  rewrite str_app_cons. exact IH.
Qed.

Lemma slice_from_token a s :
  PyStr.slice_from (a ++ s) (Z.of_nat (String.length a)) = s.
Proof.
  unfold PyStr.slice_from.
  replace (Z.of_nat (String.length a) <? 0) with false
    by (symmetry; apply Z.ltb_ge; lia).
  rewrite str_length_app, Z.min_l by lia.
  rewrite Nat2Z.id. apply drop_app.
Qed.

Lemma span_digits_app ds h b :
  digits_only ds = true -> PyStr.is_digit h = false ->
  PyStr.span_digits (ds ++ String h b) = (ds, String h b).
Proof.
  intros Hds Hh. induction ds as [|c ds IH].
  - rewrite str_app_nil_l. cbn [PyStr.span_digits]. now rewrite Hh.
  - cbn [digits_only] in Hds. apply andb_true_iff in Hds as [Hc Hds].
    rewrite str_app_cons. cbn [PyStr.span_digits]. rewrite Hc.
    now rewrite (IH Hds).
Qed.

Lemma search_any_skip c s :
  PyStr.is_digit c = false ->
  PyStr.re_search_digits_any (String c s) = PyStr.re_search_digits_any s.
Proof. intros H. cbn [PyStr.re_search_digits_any]. now rewrite H. Qed.

Lemma search_skip c s :
  PyStr.is_digit c = false ->
  PyStr.re_search_digits (String c s) = PyStr.re_search_digits s.
Proof. intros H. cbn [PyStr.re_search_digits]. now rewrite H. Qed.

Lemma token_search_any ds h b :
  ds <> "" -> digits_only ds = true -> PyStr.is_digit h = false ->
  h <> PyStr.newline ->
  PyStr.re_search_digits_any ("UTM zone " ++ ds ++ String h b)
  = Some (ds, String h "").
Proof.
  intros Hne Hds Hh Hnl.
  rewrite !str_app_cons, str_app_nil_l.
  rewrite !search_any_skip by reflexivity.
  destruct ds as [|c ds]; [contradiction|].
  pose proof (span_digits_app (String c ds) h b Hds Hh) as Hspan.
  rewrite str_app_cons in *.
  cbn [digits_only] in Hds. apply andb_true_iff in Hds as [Hc _].
  cbn [PyStr.re_search_digits_any]. rewrite Hc, Hspan.
  apply Ascii.eqb_neq in Hnl. now rewrite Hnl.
Qed.

Lemma token_search ds h b :
  ds <> "" -> digits_only ds = true -> PyStr.is_digit h = false ->
  PyStr.re_search_digits ("UTM zone " ++ ds ++ String h b) = Some ds.
Proof.
  intros Hne Hds Hh.
  rewrite !str_app_cons, str_app_nil_l.
  rewrite !search_skip by reflexivity.
  destruct ds as [|c ds]; [contradiction|].
  pose proof (span_digits_app (String c ds) h b Hds Hh) as Hspan.
  rewrite str_app_cons in *.
  cbn [digits_only] in Hds. apply andb_true_iff in Hds as [Hc _].
  cbn [PyStr.re_search_digits]. now rewrite Hc, Hspan.
Qed.

Lemma tagged_zones proj a ds h b :
  tagged proj a ds h b ->
  reference_zone proj = Some (PyStr.int ds, String h "")
  /\ later_zone proj = Some (PyStr.int ds).
Proof.
  intros (Hproj & Hfind & Hne & Hds & Hh & Hnl).
  assert (Hs : PyStr.slice_from proj (Z.of_nat (String.length a))
               = "UTM zone " ++ ds ++ String h b)
    by (rewrite Hproj at 1; apply slice_from_token).
  unfold reference_zone, later_zone. rewrite Hfind, Hs.
  replace (Z.of_nat (String.length a) =? -1) with false
    by (symmetry; apply Z.eqb_neq; lia).
  rewrite token_search_any, token_search by assumption. now split.
Qed.

(** X13. The zone of a scene is the number that follows the first
    [UTM zone ] token of its projection, and for the first scene the
    character after the number is its hemisphere. The comparison of two
    scenes looks at the numbers only: a later scene with the same number
    is left as it is whatever character follows its number, so a scene of
    the other hemisphere is not reprojected, and a later scene with
    another number is reprojected. *)
Theorem zone_comparison_ignores_the_hemisphere
  file1 file2 w r1 r2 a1 ds1 h1 b1 a2 ds2 h2 b2 :
  files w !! file1 = Some r1 ->
  files w !! file2 = Some r2 ->
  tagged (r_proj r1) a1 ds1 h1 b1 ->
  tagged (r_proj r2) a2 ds2 h2 b2 ->
  reference_zone (r_proj r1) = Some (PyStr.int ds1, String h1 "")
  /\ later_zone (r_proj r2) = Some (PyStr.int ds2)
  /\ (PyStr.int ds1 = PyStr.int ds2 ->
      fix_projections [file1; file2] w = Ret [file1; file2] w)
  /\ (PyStr.int ds1 <> PyStr.int ds2 ->
      fix_projections [file1; file2] w
      = Ret [file1; reproj_name file2]
          (set_files
             (<[reproj_name file2 :=
                  gdal_warp (dstSRS (PyStr.int ds1) (String h1 ""))
                    (gt1 (r_trans r1)) r2]> (files w)) w)).
Proof.
  intros Hf1 Hf2 Ht1 Ht2.
  destruct (tagged_zones _ _ _ _ _ Ht1) as [Hz1 _].
  destruct (tagged_zones _ _ _ _ _ Ht2) as [_ Hz2].
  split; [exact Hz1|]. split; [exact Hz2|].
  assert (Hrun : fix_projections [file1; file2] w
                 = bind (for_each (reconcile (PyStr.int ds1) (String h1 "")
                                     (gt1 (r_trans r1))) [file2])
                     (fun rest => ret (file1 :: rest)) w).
  { unfold fix_projections, bind at 1 2 3, open_gdal_file.
    cbn [item nth_error ret]. rewrite Hf1. cbn [read_gdal_file ret].
    unfold reference_zone in Hz1.
    destruct (PyStr.find "UTM zone " (r_proj r1) =? -1); [discriminate|].
    cbn [negb].
    destruct (PyStr.re_search_digits_any _) as [[g1 g2]|]; [|discriminate].
    injection Hz1 as -> ->. reflexivity. }
  rewrite Hrun. unfold bind. cbn [for_each].
  rewrite (reconcile_returns _ _ _ file2 w r2 _ Hf2 Hz2).
  split.
  - intros Heq. rewrite Heq, Z.eqb_refl. reflexivity.
  - intros Hneq. apply not_eq_sym, Z.eqb_neq in Hneq. now rewrite Hneq.
Qed.

End Cutting.

(** ** The election of the reference scene *)

Section Election.

Context {F : Floats} {C : Collaborators}.

Lemma best_overlap_elects_first clip fs0 l : forall w mf mfile,
  log_st w = LogOpen ->
  (forall g, In g l -> files w !! g = fs0 !! g) ->
  readable fs0 l ->
  no_clobber clipped_name l ->
  let frac := CoverageFraction clip fs0 in
  exists w' mf' mfile',
    best_overlap clip l mf mfile w = Ret (mf', mfile') w'
    /\ log_st w' = LogOpen
    /\ ((mf' = mf /\ mfile' = mfile /\ Forall (fun f => (frac f <= mf)%Q) l)
        \/ (exists pre best post,
               l = (pre ++ best :: post)%list
               /\ mfile' = Some best /\ mf' = frac best
               /\ (mf < frac best)%Q
               /\ Forall (fun f => (frac f < frac best)%Q) pre
               /\ Forall (fun f => (frac f <= frac best)%Q) post)).
Proof.
  destruct clip as [[[pt1 pt2] pt3] pt4].
  induction l as [|f l IH]; intros w mf mfile Hlog Hagree Hread Hfresh frac.
  - exists w, mf, mfile. cbn. repeat split; auto.
  - inversion Hread as [|? ? [r Hr] Hread']; subst.
    destruct Hfresh as [Hf Hfresh'].
    rewrite List.Forall_forall in Hf.
    assert (Hw : files w !! f = Some r)
      by (rewrite Hagree; [assumption|now left]).
    destruct (cut_returns pt1 pt2 pt3 pt4 f (1 # 100) w r Hw Hlog)
      as (w1 & Hcut & Hlog1 & Hother & _ & _).
    set (q := coverage (gdal_projWin (pt1, pt2, pt3, pt4) r)) in *.
    assert (Hq : frac f = q)
      by (unfold frac, CoverageFraction; now rewrite Hr).
    assert (Hagree1 : forall g, In g l -> files w1 !! g = fs0 !! g).
    { intros g Hg. rewrite Hother.
      - apply Hagree. now right.
      - intros ->. now apply (Hf _ Hg). }
    cbn [best_overlap]. rewrite (bind_Ret _ _ _ _ _ Hcut).
    destruct (Qlt_bool mf q) eqn:Hcmp.
    + apply Qlt_bool_iff in Hcmp.
      destruct (IH w1 q (Some f) Hlog1 Hagree1 Hread' Hfresh')
        as (w2 & mf' & mfile' & Hrun & Hlog2 & Hbest).
      exists w2, mf', mfile'. split; [assumption|]. split; [assumption|].
      right. fold frac in Hbest.
      destruct Hbest as [(-> & -> & Hall)
                        |(pre & best & post & -> & -> & -> & Hlt & Hpre & Hpost)].
      * exists [], f, l. rewrite Hq. repeat split; auto.
      * exists (f :: pre), best, post. repeat split; auto.
        -- eapply Qlt_trans; eassumption.
        -- constructor; [now rewrite Hq|assumption].
    + apply Qlt_bool_false in Hcmp.
      destruct (IH w1 mf mfile Hlog1 Hagree1 Hread' Hfresh')
        as (w2 & mf' & mfile' & Hrun & Hlog2 & Hbest).
      exists w2, mf', mfile'. split; [assumption|]. split; [assumption|].
      fold frac in Hbest.
      destruct Hbest as [(-> & -> & Hall)
                        |(pre & best & post & -> & -> & -> & Hlt & Hpre & Hpost)].
      * left. repeat split; auto. constructor; [now rewrite Hq|assumption].
      * right. exists (f :: pre), best, post. repeat split; auto.
        constructor; [|assumption]. rewrite Hq.
        eapply Qle_lt_trans; eassumption.
Qed.

Lemma py_index_first x pre post :
  ~ In x pre -> py_index x (pre ++ x :: post) = Some (length pre).
Proof.
  induction pre as [|y pre IH]; intros Hnot; cbn [app py_index length].
  - now rewrite String.eqb_refl.
  - destruct (String.eqb y x) eqn:E.
    + apply String.eqb_eq in E. subst. exfalso. apply Hnot. now left.
    + rewrite IH; [reflexivity|]. intros Hin. apply Hnot. now right.
Qed.

Lemma insert_middle (pre post : list string) a b :
  <[length pre := a]> (pre ++ b :: post)%list = (pre ++ a :: post)%list.
Proof. induction pre as [|x pre IH]; cbn; [reflexivity|now f_equal]. Qed.

(** X14. The election of the reference scene compares with a strict
    [>]: among the readable scenes of a stack in which some scene
    overlaps the box, it elects the first one whose coverage fraction is
    the greatest, every scene before it having a smaller fraction, and
    swaps it with the head of the list, all other scenes staying where
    they are. *)
Theorem fix_file_list_elects_the_first_best filelist clip w :
  log_st w = LogOpen ->
  readable (files w) filelist ->
  no_clobber clipped_name filelist ->
  let frac := CoverageFraction clip (files w) in
  Exists (fun f => ~ (frac f == 0)%Q) filelist ->
  exists pre best post w',
    filelist = (pre ++ best :: post)%list
    /\ Forall (fun f => (frac f < frac best)%Q) pre
    /\ Forall (fun f => (frac f <= frac best)%Q) post
    /\ fix_file_list filelist clip w
       = Ret (match pre with
              | [] => filelist
              | first :: pre' => (best :: pre' ++ first :: post)%list
              end) w'.
Proof.
  intros Hlog Hread Hfresh frac Hsome.
  destruct (best_overlap_elects_first clip (files w) filelist w 0%Q None
              Hlog (fun g _ => eq_refl) Hread Hfresh)
    as (w1 & mf' & mfile' & Hrun & Hlog1 & Hbest).
  fold frac in Hbest.
  destruct Hbest as [(_ & _ & Hall)
                    |(pre & best & post & Hl & -> & -> & Hlt & Hpre & Hpost)].
  { exfalso. apply List.Exists_exists in Hsome as (f & Hin & Hf).
    rewrite List.Forall_forall in Hall. apply Hf, Qle_antisym; [now apply Hall|].
    apply CoverageFraction_nonneg. }
  exists pre, best, post, w1. repeat split; try assumption.
  unfold fix_file_list. rewrite (bind_Ret _ _ _ _ _ Hrun).
  assert (Hne : Qeq_bool (frac best) 0 = false).
  { destruct (Qeq_bool (frac best) 0) eqn:E; [|reflexivity].
    apply Qeq_bool_iff in E. rewrite E in Hlt. now apply Qlt_irrefl in Hlt. }
  rewrite Hne. unfold bind at 1. cbn [ret]. unfold bind at 1. cbn [ret].
  assert (Hnot : ~ In best pre).
  { intros Hin. rewrite List.Forall_forall in Hpre.
    apply (Qlt_irrefl (frac best)), Hpre, Hin. }
  rewrite Hl. rewrite (py_index_first best pre post Hnot).
  unfold bind at 1. cbn [ret].
  destruct pre as [|first pre']; cbn [app length item nth_error].
  - unfold bind, ret. reflexivity.
  - unfold bind at 1. cbn [ret]. unfold bind, item. cbn [nth_error].
    rewrite nth_error_app2, Nat.sub_diag by lia. cbn [nth_error ret].
    f_equal. cbn. f_equal. apply insert_middle.
Qed.

Lemma cut_outcome pt1 pt2 pt3 pt4 fi t w :
  log_st w = LogOpen ->
  (exists v q w', cut pt1 pt2 pt3 pt4 fi (Some t) w = Ret (v, q) w'
                  /\ log_st w' = LogOpen)
  \/ (cut pt1 pt2 pt3 pt4 fi (Some t) w = Raise (RasterError (clipped_name fi)) w
      /\ files w !! fi = None).
Proof.
  intros Hlog. destruct (files w !! fi) as [r|] eqn:Hfi.
  - left. destruct (cut_returns pt1 pt2 pt3 pt4 fi t w r Hfi Hlog)
      as (w' & H & Hlog' & _). eauto.
  - right. split; [|reflexivity]. unfold cut, gdal_call, bind. now rewrite Hfi.
Qed.

Lemma best_overlap_outcome clip l : forall w mf mfile,
  log_st w = LogOpen ->
  (exists mf' mfile' w',
      best_overlap clip l mf mfile w = Ret (mf', mfile') w'
      /\ log_st w' = LogOpen
      /\ ((mf' = mf /\ mfile' = mfile) \/ exists f, mfile' = Some f /\ In f l))
  \/ (exists f w',
         best_overlap clip l mf mfile w = Raise (RasterError (clipped_name f)) w'
         /\ In f l /\ files w' !! f = None).
Proof.
  destruct clip as [[[pt1 pt2] pt3] pt4].
  induction l as [|f l IH]; intros w mf mfile Hlog.
  - left. exists mf, mfile, w. repeat split; auto.
  - cbn [best_overlap].
    destruct (cut_outcome pt1 pt2 pt3 pt4 f (1 # 100) w Hlog)
      as [(v & q & w1 & Hcut & Hlog1)|[Hcut Hnone]].
    + rewrite (bind_Ret _ _ _ _ _ Hcut).
      destruct (Qlt_bool mf q).
      * destruct (IH w1 q (Some f) Hlog1)
          as [(mf' & mfile' & w' & H & Hlog' & Hres)|(g & w' & H & Hin & Hg)].
        -- left. exists mf', mfile', w'. split; [assumption|].
           split; [assumption|]. right.
           destruct Hres as [[_ ->]|(g & -> & Hin)].
           ++ exists f. split; [reflexivity|now left].
           ++ exists g. split; [reflexivity|now right].
        -- right. exists g, w'. split; [assumption|]. split; [now right|assumption].
      * destruct (IH w1 mf mfile Hlog1)
          as [(mf' & mfile' & w' & H & Hlog' & Hres)|(g & w' & H & Hin & Hg)].
        -- left. exists mf', mfile', w'. split; [assumption|].
           split; [assumption|].
           destruct Hres as [?|(g & -> & Hin)]; [now left|right].
           exists g. split; [reflexivity|now right].
        -- right. exists g, w'. split; [assumption|]. split; [now right|assumption].
    + right. exists f, w. rewrite (bind_Raise _ _ _ _ _ Hcut).
      split; [reflexivity|]. split; [now left|assumption].
Qed.

Lemma swap_with_head_perm (l : list string) loc a b :
  nth_error l 0 = Some a -> nth_error l loc = Some b ->
  Permutation l (<[loc := a]> (<[O := b]> l)).
Proof.
  destruct l as [|x l]; [discriminate|]. cbn [nth_error]. intros [= ->].
  destruct loc as [|k]; cbn [nth_error].
  - intros [= ->]. reflexivity.
  - cbn. revert k. induction l as [|y l IH]; intros k Hk; [now destruct k|].
    destruct k as [|k]; cbn in *.
    + injection Hk as ->. apply perm_swap.
    + specialize (IH k Hk).
      etransitivity; [apply perm_swap|].
      etransitivity; [apply perm_skip, IH|]. apply perm_swap.
Qed.

(** X15. With the log open, the election of the reference scene ends in
    one of three ways only: it returns a list that holds the same scenes
    as the one it was given; or it leaves with exit code 1 and the log
    closed; or it dies with the error of the raster reader on the clip of
    a scene of the list that is not a readable raster. The look-up of the
    elected scene in the list and the read of its name cannot fail. *)
Theorem fix_file_list_outcomes filelist clip w :
  log_st w = LogOpen ->
  (exists filelist' w',
      fix_file_list filelist clip w = Ret filelist' w'
      /\ Permutation filelist filelist')
  \/ (exists w',
         fix_file_list filelist clip w = Exit 1 w' /\ log_st w' = LogClosed)
  \/ (exists f w',
         fix_file_list filelist clip w = Raise (RasterError (clipped_name f)) w'
         /\ In f filelist /\ files w' !! f = None).
Proof.
  intros Hlog. unfold fix_file_list.
  destruct (best_overlap_outcome clip filelist w 0%Q None Hlog)
    as [(mf' & mfile' & w1 & H & Hlog1 & Hres)|(f & w' & H & Hin & Hf)].
  - rewrite (bind_Ret _ _ _ _ _ H).
    destruct (Qeq_bool mf' 0) eqn:Hzero.
    + right. left. eexists.
      unfold bind at 1. unfold bind at 1.
      rewrite (plog_open _ w1 Hlog1). unfold mexit. cbn.
      rewrite Hlog1. split; reflexivity.
    + destruct Hres as [[-> ->]|(f & -> & Hin)]; [discriminate|].
      left. unfold bind at 1. cbn [ret]. unfold bind at 1. cbn [ret].
      destruct (py_index_In f filelist Hin) as (loc & -> & Hloc).
      unfold bind at 1. cbn [ret].
      destruct filelist as [|first rest]; [contradiction|].
      unfold bind at 1. cbn [item nth_error ret].
      unfold bind at 1. unfold item. rewrite Hloc. cbn [ret].
      eexists _, w1. split; [reflexivity|].
      now apply swap_with_head_perm.
  - right. right. exists f, w'. rewrite (bind_Raise _ _ _ _ _ H).
    now repeat split.
Qed.

End Election.

(** ** The flight direction of a product *)

Section Direction.

Context {F : Floats} {C : Collaborators}.

Lemma scan_direction_skips pre rest :
  Forall silent pre -> scan_direction (pre ++ rest) = scan_direction rest.
Proof.
  induction 1 as [|l pre [Ha Hd] _ IH]; [reflexivity|].
  cbn [app scan_direction]. now rewrite Ha, Hd.
Qed.

(** X16. The flight direction of a product is decided by the first line
    of its metadata file that has one of the words [ascending] and
    [descending]: the answer is ['a'] when that line has [ascending], and
    ['d'] otherwise; a file without such a line gives [None], and a file
    that cannot be opened gives [IOError]. The world does not change. *)
Theorem getAscDesc_reads_the_first_telling_line myxml w :
  (read_lines myxml = None -> getAscDesc myxml w = Raise (IOError myxml) w)
  /\ (forall pre item post,
        read_lines myxml = Some (pre ++ item :: post)%list ->
        Forall silent pre ->
        (PyStr.contains "ascending" item = true ->
         getAscDesc myxml w = Ret (Some "a") w)
        /\ (PyStr.contains "ascending" item = false ->
            PyStr.contains "descending" item = true ->
            getAscDesc myxml w = Ret (Some "d") w))
  /\ (forall content,
        read_lines myxml = Some content -> Forall silent content ->
        getAscDesc myxml w = Ret None w).
Proof.
  unfold getAscDesc. split; [|split].
  - now intros ->.
  - intros pre item post -> Hpre. rewrite scan_direction_skips by assumption.
    cbn [scan_direction]. split.
    + now intros ->.
    + now intros -> ->.
  - intros content -> Hall.
    rewrite <- (app_nil_r content), scan_direction_skips by assumption.
    reflexivity.
Qed.

Lemma xml_loop_returns dates xmls w :
  Forall2 (fun d x => xml_of d = Some x) dates xmls ->
  for_each (fun date =>
      bind (item (os_glob ("*" ++ date ++ "*-rtc-gamma")) 0) (fun mydir =>
      item (os_glob (mydir ++ "/*.iso.xml")) 0)) dates w
  = Ret xmls w.
Proof.
  induction 1 as [|d x dates xmls Hd _ IH]; [reflexivity|].
  cbn [for_each]. unfold xml_of in Hd. unfold bind at 1, item at 1.
  destruct (os_glob ("*" ++ d ++ "*-rtc-gamma")) as [|mydir ?]; [discriminate|].
  cbn [nth_error ret]. unfold item at 1.
  destruct (os_glob (mydir ++ "/*.iso.xml")) as [|myfile ?]; [discriminate|].
  cbn [nth_error ret]. injection Hd as ->. now rewrite IH.
Qed.

Lemma xml_loop_raises dates w :
  Exists (fun d => xml_of d = None) dates ->
  for_each (fun date =>
      bind (item (os_glob ("*" ++ date ++ "*-rtc-gamma")) 0) (fun mydir =>
      item (os_glob (mydir ++ "/*.iso.xml")) 0)) dates w
  = Raise IndexError w.
Proof.
  induction dates as [|d dates IH]; intros H; [inversion H|].
  cbn [for_each]. unfold bind at 1, item at 1.
  destruct (os_glob ("*" ++ d ++ "*-rtc-gamma")) as [|mydir ?] eqn:E1;
    [reflexivity|].
  cbn [nth_error ret]. unfold item at 1.
  destruct (os_glob (mydir ++ "/*.iso.xml")) as [|myfile ?] eqn:E2;
    [reflexivity|].
  cbn [nth_error ret]. rewrite IH; [reflexivity|].
  inversion H as [? ? Hd|]; subst; [|assumption].
  unfold xml_of in Hd. rewrite E1, E2 in Hd. discriminate.
Qed.

(** X17. The metadata files of a list of scenes are looked up by date:
    for each date the first directory that matches [*date*-rtc-gamma] and
    in it the first file that matches [*.iso.xml]. When every date has
    both, the files come back in the order of the scenes and the world is
    unchanged; when some date lacks one of them, the look-up and with it
    the direction filter die with [IndexError]. *)
Theorem getXmlFiles_needs_a_product_directory filelist dates w :
  dates_of filelist dates ->
  (forall xmls,
      Forall2 (fun d x => xml_of d = Some x) dates xmls ->
      getXmlFiles filelist w = Ret xmls w)
  /\ (Exists (fun d => xml_of d = None) dates ->
      getXmlFiles filelist w = Raise IndexError w
      /\ forall direction,
           cull_list_by_direction filelist direction w = Raise IndexError w).
Proof.
  intros Hdates. pose proof (getDates_returns filelist dates w Hdates) as Hd.
  split.
  - intros xmls Hx. unfold getXmlFiles. rewrite (bind_Ret _ _ _ _ _ Hd).
    now apply xml_loop_returns.
  - intros Hnone.
    assert (H : getXmlFiles filelist w = Raise IndexError w).
    { unfold getXmlFiles. rewrite (bind_Ret _ _ _ _ _ Hd).
      now apply xml_loop_raises. }
    split; [exact H|]. intros direction. unfold cull_list_by_direction.
    now rewrite (bind_Raise _ _ _ _ _ H).
Qed.

End Direction.

(** ** Derived names *)

Lemma replace_absent old new s :
  PyStr.contains old s = false -> PyStr.replace old new s = s.
Proof.
  unfold PyStr.replace. induction s as [|c s IH]; [reflexivity|].
  intros H. apply contains_cons_false in H as [Hp Hs].
  cbn [PyStr.replace_from]. rewrite Hp. now rewrite IH.
Qed.

Lemma replace_from_length old new s : forall k,
  old <> "" -> (String.length old <= String.length new)%nat ->
  (String.length s <= String.length (PyStr.replace_from old new s k) + k)%nat.
Proof.
  induction s as [|c s IH]; intros k Hold Hlen; [cbn; lia|].
  cbn [PyStr.replace_from String.length]. destruct k as [|k].
  - destruct (String.prefix old (String c s)).
    + rewrite str_length_app.
      specialize (IH (Nat.pred (String.length old)) Hold Hlen).
      destruct old; [contradiction|]. cbn [String.length] in *. lia.
    + cbn [String.length]. specialize (IH O Hold Hlen). lia.
  - specialize (IH k Hold Hlen). lia.
Qed.

Lemma replace_present_longer old new s :
  (String.length old < String.length new)%nat -> old <> "" ->
  PyStr.contains old s = true ->
  (String.length s < String.length (PyStr.replace old new s))%nat.
Proof.
  intros Hlen Hold. unfold PyStr.replace.
  induction s as [|c s IH]; intros H.
  - unfold PyStr.contains in H. cbn [PyStr.find] in H.
    destruct old; [contradiction|]. discriminate.
  - cbn [PyStr.replace_from String.length].
    destruct (String.prefix old (String c s)) eqn:Hp.
    + rewrite str_length_app.
      pose proof (replace_from_length old new s
                    (Nat.pred (String.length old)) Hold) as Hlb.
      destruct old; [contradiction|]. cbn [String.length] in *. lia.
    + cbn [String.length]. apply -> Nat.succ_lt_mono. apply IH.
      unfold PyStr.contains in *. cbn [PyStr.find] in H. rewrite Hp in H.
      destruct (PyStr.find old s <? 0); [discriminate|reflexivity].
Qed.

Lemma replace_tif_differs new fi :
  (4 < String.length new)%nat ->
  PyStr.contains ".tif" fi = true -> PyStr.replace ".tif" new fi <> fi.
Proof.
  intros Hlen H E.
  pose proof (replace_present_longer ".tif" new fi Hlen) as Hl.
  rewrite E in Hl. specialize (Hl ltac:(discriminate) H). lia.
Qed.

Section Transforms.

Context {F : Floats} {C : Collaborators}.

Lemma pwr2amp_returns fi w r :
  files w !! fi = Some r ->
  pwr2amp fi w
  = Ret (amp_name fi) (set_files (<[amp_name fi := amp_raster r]> (files w)) w).
Proof.
  intros Hf. unfold pwr2amp, bind, open_gdal_file. rewrite Hf. reflexivity.
Qed.

(** X18. The decibel and the amplitude conversion write their result
    under the name of the input with [.tif] replaced. For an input name
    that has [.tif] in it this is another name, and the input raster is
    still there afterwards; for an input name without [.tif] the name
    stays as it is, and the result takes the place of the input. *)
Theorem conversions_spare_the_input_iff_tif fi w r :
  files w !! fi = Some r ->
  create_dB fi w
  = Ret (dB_name fi) (set_files (<[dB_name fi := dB_raster r]> (files w)) w)
  /\ pwr2amp fi w
     = Ret (amp_name fi) (set_files (<[amp_name fi := amp_raster r]> (files w)) w)
  /\ (PyStr.contains ".tif" fi = true ->
      dB_name fi <> fi /\ amp_name fi <> fi
      /\ <[dB_name fi := dB_raster r]> (files w) !! fi = Some r
      /\ <[amp_name fi := amp_raster r]> (files w) !! fi = Some r)
  /\ (PyStr.contains ".tif" fi = false ->
      dB_name fi = fi /\ amp_name fi = fi
      /\ <[dB_name fi := dB_raster r]> (files w) !! fi = Some (dB_raster r)
      /\ <[amp_name fi := amp_raster r]> (files w) !! fi = Some (amp_raster r)).
Proof.
  intros Hf. split; [now apply create_dB_returns|].
  split; [now apply pwr2amp_returns|]. split.
  - intros H.
    assert (HdB : dB_name fi <> fi)
      by (apply replace_tif_differs; [cbn; lia|assumption]).
    assert (Hamp : amp_name fi <> fi)
      by (apply replace_tif_differs; [cbn; lia|assumption]).
    repeat split; try assumption; now rewrite lookup_insert_ne.
  - intros H. unfold dB_name, amp_name. rewrite !replace_absent by assumption.
    repeat split; apply lookup_insert_eq.
Qed.

(** *** Amplitude to power *)

Lemma amp2pwr_unfold filelist : amp2pwr filelist = for_each amp2pwr_one filelist.
Proof. reflexivity. Qed.

Lemma amp2pwr_one_returns fi w r :
  files w !! fi = Some r ->
  amp2pwr_one fi w
  = Ret (amp_name fi) (set_files (<[amp_name fi := pwr_raster r]> (files w)) w).
Proof.
  intros Hf. unfold amp2pwr_one, bind, open_gdal_file. rewrite Hf. reflexivity.
Qed.

Lemma amp2pwr_loop fs0 pre : forall w,
  (forall g, In g pre -> files w !! g = fs0 !! g) ->
  readable fs0 pre ->
  no_clobber amp_name pre ->
  for_each amp2pwr_one pre w
  = Ret (map amp_name pre)
        (set_files (fold_left (pwr_write fs0) pre (files w)) w).
Proof.
  induction pre as [|f l IH]; intros w Hagree Hread Hfresh.
  - cbn. now rewrite set_files_same.
  - inversion Hread as [|? ? [r Hr] Hread']; subst.
    destruct Hfresh as [Hf Hfresh'].
    rewrite List.Forall_forall in Hf.
    assert (Hw : files w !! f = Some r)
      by (rewrite Hagree; [assumption|now left]).
    cbn [for_each map fold_left].
    rewrite (amp2pwr_one_returns f w r Hw).
    unfold pwr_write at 2. rewrite Hr.
    rewrite IH; auto.
    intros g Hg. cbn. rewrite lookup_insert_ne.
    + apply Hagree. now right.
    + now apply Hf.
Qed.

Lemma no_clobber_app_inv out (l1 : list string) f l2 :
  no_clobber out (l1 ++ f :: l2) ->
  no_clobber out l1 /\ Forall (fun g => out g <> f) l1.
Proof.
  induction l1 as [|x l1 IH]; cbn [app no_clobber]; [now split|].
  intros [Hx Hrest]. destruct (IH Hrest) as [H1 H2].
  apply Forall_app in Hx as [Hx1 Hx2]. inversion Hx2; subst.
  repeat split; auto.
Qed.

Lemma pwr_store_absent fs0 f l : forall fs,
  Forall (fun g => amp_name g <> f) l ->
  fold_left (pwr_write fs0) l fs !! f = fs !! f.
Proof.
  induction l as [|x l IH]; intros fs Hl; [reflexivity|].
  inversion Hl; subst. cbn [fold_left]. rewrite IH by assumption.
  unfold pwr_write. destruct (fs0 !! x); [|reflexivity].
  now rewrite lookup_insert_ne.
Qed.

Lemma for_each_stops {A B} (f : A -> M B) pre a post w bs w1 e w2 :
  for_each f pre w = Ret bs w1 -> f a w1 = Raise e w2 ->
  for_each f (pre ++ a :: post) w = Raise e w2.
Proof.
  revert w bs. induction pre as [|x pre IH]; intros w bs Hpre Ha.
  - inversion Hpre; subst. cbn [app for_each]. now rewrite Ha.
  - cbn [app for_each] in *.
    destruct (f x w) as [b w0| |]; try discriminate.
    destruct (for_each f pre w0) as [bs' w'| |] eqn:E; try discriminate.
    inversion Hpre; subst. now rewrite (IH w0 bs' E Ha).
Qed.

(** X19. The conversion of amplitude scenes to power squares every
    pixel of every scene and writes the result under the [_amp] name of
    the scene, in the order of the list; the first scene that is not a
    readable raster stops it with the error of the raster reader, after
    the rasters of the scenes before it have been written. Neither the
    log nor the calls change. *)
Theorem amp2pwr_squares_each_scene filelist w :
  no_clobber amp_name filelist ->
  (readable (files w) filelist ->
   amp2pwr filelist w
   = Ret (map amp_name filelist)
       (set_files (pwr_store (files w) filelist) w))
  /\ (forall pre f post,
         filelist = (pre ++ f :: post)%list ->
         readable (files w) pre -> files w !! f = None ->
         amp2pwr filelist w
         = Raise (RasterError f) (set_files (pwr_store (files w) pre) w))
  /\ (forall r,
         pwr_raster r = with_data r (map (fun p => pix_mul p p) (r_data r))
         /\ length (r_data (pwr_raster r)) = length (r_data r)).
Proof.
  intros Hfresh. rewrite amp2pwr_unfold. split; [|split].
  - intros Hread. now rewrite (amp2pwr_loop (files w)).
  - intros pre f post -> Hread Hf.
    apply no_clobber_app_inv in Hfresh as [Hpre Hnot].
    pose proof (amp2pwr_loop (files w) pre w (fun g _ => eq_refl) Hread Hpre)
      as Hloop.
    fold (pwr_store (files w) pre) in Hloop.
    eapply for_each_stops; [exact Hloop|].
    unfold amp2pwr_one, bind, open_gdal_file. cbn [files set_files].
    unfold pwr_store. rewrite pwr_store_absent by assumption.
    now rewrite Hf.
  - intros r. split; [reflexivity|]. unfold pwr_raster. cbn.
    apply length_map.
Qed.

End Transforms.

(** ** The rasters of the product *)

Section Products.

Context {F : Floats} {C : Collaborators}.

Lemma quiet_refl w : quiet w w.
Proof. now repeat split. Qed.

Lemma quiet_trans w1 w2 w3 : quiet w1 w2 -> quiet w2 w3 -> quiet w1 w3.
Proof. unfold quiet. intros (-> & -> & ->) (-> & -> & ->). now repeat split. Qed.

Lemma shutil_move_inv src d w w' :
  shutil_move src d w = Ret tt w' ->
  calls w' = (calls w ++ [Move src d])%list
  /\ log w' = log w /\ log_st w' = log_st w.
Proof.
  unfold shutil_move. destruct (files w !! src); [|discriminate].
  intros H. inversion H; subst. now repeat split.
Qed.

Lemma pwr2amp_inv f w n w' :
  pwr2amp f w = Ret n w' -> n = amp_name f /\ quiet w w'.
Proof.
  unfold pwr2amp, bind, open_gdal_file.
  destruct (files w !! f); [|discriminate]. cbn.
  intros H. inversion H; subst. split; [reflexivity|]. now repeat split.
Qed.

Lemma gdal_call_inv out fi f w v w' :
  gdal_call out fi f w = Ret v w' -> quiet w w'.
Proof.
  unfold gdal_call. destruct (files w !! fi); intros H; inversion H; subst;
    now repeat split.
Qed.

Lemma get2sigmacutoffs_inv f w v w' :
  get2sigmacutoffs f w = Ret v w' -> w' = w.
Proof.
  unfold get2sigmacutoffs, bind, open_gdal_file.
  destruct (files w !! f); [|discriminate]. cbn.
  intros H. now inversion H.
Qed.

Lemma move_loop_inv (step : string -> M unit) (name : string -> string) d l :
  (forall f w w', step f w = Ret tt w' ->
     calls w' = (calls w ++ [Move (name f) d])%list
     /\ log w' = log w /\ log_st w' = log_st w) ->
  forall w us w',
    for_each step l w = Ret us w' ->
    calls w' = (calls w ++ map (fun f => Move (name f) d) l)%list
    /\ log w' = log w /\ log_st w' = log_st w.
Proof.
  intros Hstep. induction l as [|f l IH]; intros w us w' H.
  - inversion H; subst. cbn. rewrite app_nil_r. now repeat split.
  - apply for_each_cons_inv in H as ([] & w1 & us' & H1 & H2 & ->).
    apply Hstep in H1 as (Hc1 & Hl1 & Hs1).
    apply IH in H2 as (Hc2 & Hl2 & Hs2).
    rewrite Hc2, Hc1, Hl2, Hl1, Hs2, Hs1. cbn [map].
    rewrite <- app_assoc. now repeat split.
Qed.

Lemma move_products_inv
  o prodDir power_filelist dB_filelist byte_filelist w w' :
  move_products o prodDir power_filelist dB_filelist byte_filelist w
  = Ret tt w' ->
  calls w'
  = (calls w
     ++ map (fun f => Move f prodDir)
          (published o power_filelist dB_filelist byte_filelist))%list
  /\ log w' = log w /\ log_st w' = log_st w.
Proof.
  unfold move_products, published.
  assert (Hplain : forall l w w',
             bind (for_each (fun f => shutil_move f prodDir) l)
               (fun _ => ret tt) w = Ret tt w' ->
             calls w' = (calls w ++ map (fun f => Move f prodDir) l)%list
             /\ log w' = log w /\ log_st w' = log_st w).
  { intros l w0 w0' H. apply bind_inv_Ret in H as (us & w1 & H & Hret).
    inversion Hret; subst.
    apply (move_loop_inv (fun f => shutil_move f prodDir) (fun f => f) prodDir)
      in H; [assumption|].
    intros f v v'. apply shutil_move_inv. }
  destruct (String.eqb (o_type o) "power"); [apply Hplain|].
  destruct (String.eqb (o_type o) "dB"); [apply Hplain|].
  destruct (String.eqb (o_type o) "dB-byte"); [apply Hplain|].
  destruct (String.eqb (o_type o) "amp") eqn:Eamp; cbn [orb].
  - intros H. apply bind_inv_Ret in H as (us & w1 & H & Hret).
    inversion Hret; subst. rewrite map_map.
    eapply (move_loop_inv _ amp_name prodDir) in H; [exact H|].
    intros f v v' Hf.
    apply bind_inv_Ret in Hf as (n & v1 & Hamp & Hmove).
    apply pwr2amp_inv in Hamp as (-> & Hc & Hl & Hs).
    apply shutil_move_inv in Hmove as (Hc' & Hl' & Hs').
    rewrite Hc', Hl', Hs', Hc, Hl, Hs. now repeat split.
  - destruct (String.eqb (o_type o) "sigma-byte").
    + intros H. apply bind_inv_Ret in H as (us & w1 & H & Hret).
      inversion Hret; subst. rewrite map_map.
      eapply (move_loop_inv _ (fun f => sigma_name (amp_name f)) prodDir)
        in H; [exact H|].
      intros f v v' Hf.
      apply bind_inv_Ret in Hf as (n & v1 & Hamp & Hf).
      apply pwr2amp_inv in Hamp as (-> & Hc & Hl & Hs).
      apply bind_inv_Ret in Hf as (rng & v2 & Hsig & Hf).
      apply get2sigmacutoffs_inv in Hsig as ->.
      apply bind_inv_Ret in Hf as (dst & v3 & Hgdal & Hmove).
      apply gdal_call_inv in Hgdal as (Hc3 & Hl3 & Hs3).
      apply shutil_move_inv in Hmove as (Hc' & Hl' & Hs').
      fold (sigma_name (amp_name f)) in Hc'.
      rewrite Hc', Hl', Hs', Hc3, Hl3, Hs3, Hc, Hl, Hs. now repeat split.
    + intros H. inversion H; subst. cbn. rewrite app_nil_r. now repeat split.
Qed.

Lemma shutil_move_returns src d w r :
  files w !! src = Some r ->
  shutil_move src d w
  = Ret tt (add_call (Move src d)
              (set_files (<[PyStr.join d (PyStr.basename src) := r]>
                            (delete src (files w))) w)).
Proof. intros H. unfold shutil_move. now rewrite H. Qed.

Lemma move_loop_returns d l : forall w,
  readable (files w) l -> List.NoDup l ->
  List.NoDup (map (fun f => PyStr.join d (PyStr.basename f)) l) ->
  (forall f g, In f l -> In g l -> PyStr.join d (PyStr.basename g) <> f) ->
  exists us w',
    for_each (fun f => shutil_move f d) l w = Ret us w'
    /\ (forall f, In f l ->
          files w' !! f = None
          /\ files w' !! PyStr.join d (PyStr.basename f) = files w !! f)
    /\ (forall g, ~ In g l ->
          ~ In g (map (fun f => PyStr.join d (PyStr.basename f)) l) ->
          files w' !! g = files w !! g).
Proof.
  induction l as [|f l IH]; intros w Hread Hnd Hnd' Hcross.
  - exists [], w. split; [reflexivity|]. split; [intros f []|auto].
  - inversion Hread as [|? ? [r Hr] Hread']; subst.
    inversion Hnd as [|? ? Hf Hnd1]; subst.
    cbn [map] in Hnd'. inversion Hnd' as [|? ? Hf' Hnd1']; subst.
    set (w1 := add_call (Move f d)
                 (set_files (<[PyStr.join d (PyStr.basename f) := r]>
                               (delete f (files w))) w)).
    assert (Hkeep : forall g, In g l -> files w1 !! g = files w !! g).
    { intros g Hg. cbn.
      rewrite lookup_insert_ne
        by (apply Hcross; [now right|now left]).
      apply lookup_delete_ne. intros ->. contradiction. }
    destruct (IH w1) as (us & w' & Hrun & Hin & Hout); try assumption.
    { unfold readable in *. rewrite List.Forall_forall in *. intros g Hg.
      rewrite Hkeep by assumption. now apply Hread'. }
    { intros a b Ha Hb. apply Hcross; now right. }
    exists (tt :: us), w'. split; [|split].
    + cbn [for_each]. rewrite (shutil_move_returns f d w r Hr).
      change (add_call _ _) with w1. now rewrite Hrun.
    + intros g [<-|Hg].
      * assert (Hself : PyStr.join d (PyStr.basename f) <> f)
          by (apply Hcross; now left).
        split.
        -- rewrite Hout; [|assumption|].
           ++ cbn. rewrite lookup_insert_ne by assumption.
              apply lookup_delete_eq.
           ++ intros Hin'. apply in_map_iff in Hin' as (g & Hg & Hgl).
              apply (Hcross f g); [now left|now right|assumption].
        -- rewrite Hout; [| |assumption].
           ++ cbn. rewrite lookup_insert_eq. now rewrite Hr.
           ++ intros Hin'.
              apply (Hcross (PyStr.join d (PyStr.basename f)) f);
                [now right|now left|reflexivity].
      * destruct (Hin g Hg) as [Hnone Hdst]. split; [assumption|].
        rewrite Hdst. now apply Hkeep.
    + intros g Hg Hg'. cbn [map In] in Hg, Hg'.
      rewrite Hout by tauto. cbn.
      rewrite lookup_insert_ne by tauto.
      apply lookup_delete_ne. tauto.
Qed.

(** X20. What is moved to the product directory follows the output
    type: the power rasters for [power], the decibel rasters for [dB], the
    byte rasters for [dB-byte], the amplitude raster of every power raster
    for [amp], its byte-scaled version for [sigma-byte], and nothing for
    any other type. When the moving returns, it has made one call to
    [shutil.move] for each of these rasters, in the order of the list, and
    no other call, and the log is as it was. For the first three types
    the moving does return when the rasters are readable and no two of
    them collide, and then each raster is gone from where it was and is
    found in the product directory under its base name. *)
Theorem move_products_moves_the_chosen_type
  o prodDir power_filelist dB_filelist byte_filelist w :
  let l := published o power_filelist dB_filelist byte_filelist in
  let dst f := PyStr.join prodDir (PyStr.basename f) in
  (forall w',
      move_products o prodDir power_filelist dB_filelist byte_filelist w
      = Ret tt w' ->
      calls w' = (calls w ++ map (fun f => Move f prodDir) l)%list
      /\ log w' = log w /\ log_st w' = log_st w)
  /\ (String.eqb (o_type o) "power" || String.eqb (o_type o) "dB"
      || String.eqb (o_type o) "dB-byte" = true ->
      readable (files w) l -> List.NoDup l -> List.NoDup (map dst l) ->
      (forall f g, In f l -> In g l -> dst g <> f) ->
      exists w',
        move_products o prodDir power_filelist dB_filelist byte_filelist w
        = Ret tt w'
        /\ forall f, In f l ->
             files w' !! f = None /\ files w' !! dst f = files w !! f).
Proof.
  intros l dst. split; [intros w'; apply move_products_inv|].
  intros Htype Hread Hnd Hnd' Hcross.
  destruct (move_loop_returns prodDir l w Hread Hnd Hnd' Hcross)
    as (us & w' & Hrun & Hin & _).
  exists w'. split; [|exact Hin].
  unfold move_products. subst l. unfold published in Hrun.
  destruct (String.eqb (o_type o) "power");
    [now rewrite (bind_Ret _ _ _ _ _ Hrun)|].
  destruct (String.eqb (o_type o) "dB");
    [now rewrite (bind_Ret _ _ _ _ _ Hrun)|].
  destruct (String.eqb (o_type o) "dB-byte");
    [now rewrite (bind_Ret _ _ _ _ _ Hrun)|].
  discriminate.
Qed.

End Products.

(** ** What holds along every call of the program *)

Create HintDb walk.

Section Along.

Context {F : Floats} {C : Collaborators}.

Variable allowed : os_call -> Prop.
Variable P : world -> Prop.
Variable E : Z -> world -> Prop.
Variable X : exn -> world -> Prop.

Hypothesis P_store : forall w fs, P w -> P (set_files fs w).
Hypothesis P_log : forall w msg, P w -> P (add_log msg w).
Hypothesis P_call : forall w c, allowed c -> P w -> P (add_call c w).
Hypothesis P_close : forall w, P w -> P (set_log_st LogClosed w).
Hypothesis P_open :
  forall w, P w ->
            P {| files := files w; log := []; log_st := LogOpen;
                 calls := calls w |}.
Hypothesis E_exit :
  forall w, P w -> log_st w <> LogUnset -> E 1 (set_log_st LogClosed w).
Hypothesis X_raise :
  forall e w, P w -> (e = NameError "log" -> log_st w = LogUnset) -> X e w.

Hypothesis A_chdir : forall d, allowed (Chdir d).
Hypothesis A_symlink : forall s d, allowed (Symlink s d).
Hypothesis A_remove : forall f, allowed (Remove f).
Hypothesis A_move : forall s d, allowed (Move s d).
Hypothesis A_execute : forall cmd, allowed (Execute cmd).
Hypothesis A_mk_scratch : allowed (Mkdir "TEMP").
Hypothesis A_rm_scratch : allowed (Rmtree "TEMP").

Lemma along_ret {A} (a : A) : along P E X (ret a).
Proof. intros w Hw. exact Hw. Qed.

Lemma along_raise {A} e : e <> NameError "log" -> along P E X (@raise _ A e).
Proof. intros He w Hw. apply X_raise; [assumption|]. intros ->. contradiction. Qed.

Lemma along_bind {A B} (m : M A) (k : A -> M B) :
  along P E X m -> (forall a, along P E X (k a)) -> along P E X (bind m k).
Proof.
  intros Hm Hk w Hw. specialize (Hm w Hw). unfold bind.
  destruct (m w) as [a w1|c w1|e w1]; [|assumption..].
  now apply Hk.
Qed.

Lemma along_for_each {A B} (f : A -> M B) l :
  (forall a, along P E X (f a)) -> along P E X (for_each f l).
Proof.
  intros Hf. induction l as [|a l IH]; intros w Hw; [exact Hw|].
  cbn [for_each]. specialize (Hf a w Hw).
  destruct (f a w) as [b w1|c w1|e w1]; [|assumption..].
  specialize (IH w1 Hf).
  now destruct (for_each f l w1).
Qed.

Lemma along_item {A} (l : list A) i : along P E X (item l i).
Proof.
  unfold item.
  destruct (nth_error l i); [apply along_ret|apply along_raise; discriminate].
Qed.

Lemma along_first_char s : along P E X (first_char s).
Proof.
  destruct s; [apply along_raise; discriminate|apply along_ret].
Qed.

Lemma along_plog msg : along P E X (plog msg).
Proof.
  intros w Hw. unfold plog. destruct (log_st w) eqn:Hs.
  - now apply X_raise.
  - now apply P_log.
  - apply X_raise; [assumption|discriminate].
Qed.

Lemma along_mexit {A} : along P E X (@mexit _ A 1).
Proof.
  intros w Hw. unfold mexit. destruct (log_st w) eqn:Hs.
  - now apply X_raise.
  - apply E_exit; [assumption|congruence].
  - apply E_exit; [assumption|congruence].
Qed.

Lemma along_os_do c : allowed c -> along P E X (os_do c).
Proof. intros Hc w Hw. now apply P_call. Qed.

Lemma along_store_do f : along P E X (store_do f).
Proof. intros w Hw. now apply P_store. Qed.

Lemma along_execute cmd : along P E X (execute cmd).
Proof. intros w Hw. apply P_call; [apply A_execute|now apply P_store]. Qed.

Lemma along_os_remove f : along P E X (os_remove f).
Proof.
  intros w Hw. unfold os_remove. destruct (files w !! f).
  - apply P_call; [apply A_remove|now apply P_store].
  - apply X_raise; [assumption|discriminate].
Qed.

Lemma along_raster_isfile f : along P E X (raster_isfile f).
Proof. intros w Hw. exact Hw. Qed.

Lemma along_os_symlink src dst : along P E X (os_symlink src dst).
Proof.
  intros w Hw. unfold os_symlink. destruct (files w !! dst).
  - apply X_raise; [assumption|discriminate].
  - apply P_call; [apply A_symlink|].
    destruct (files w !! src); [now apply P_store|assumption].
Qed.

Lemma along_shutil_move src d : along P E X (shutil_move src d).
Proof.
  intros w Hw. unfold shutil_move. destruct (files w !! src).
  - apply P_call; [apply A_move|now apply P_store].
  - apply X_raise; [assumption|discriminate].
Qed.

Lemma along_open_gdal_file fi : along P E X (open_gdal_file fi).
Proof. intros w Hw. exact Hw. Qed.

Lemma along_read_gdal_file fi ds : along P E X (read_gdal_file fi ds).
Proof.
  destruct ds; [apply along_ret|apply along_raise; discriminate].
Qed.

Lemma along_write_gdal_file_float fi r : along P E X (write_gdal_file_float fi r).
Proof. intros w Hw. now apply P_store. Qed.

Lemma along_gdal_call out fi f : along P E X (gdal_call out fi f).
Proof.
  intros w Hw. unfold gdal_call.
  destruct (files w !! fi); [now apply P_store|assumption].
Qed.

Lemma along_open_log : along P E X open_log.
Proof. intros w Hw. now apply P_open. Qed.

Lemma along_close_log : along P E X close_log.
Proof.
  intros w Hw. unfold close_log. destruct (log_st w) eqn:Hs.
  - now apply X_raise.
  - now apply P_close.
  - now apply P_close.
Qed.

Lemma along_cutGeotiffsByLine filelist :
  along P E X (fun w =>
    let '(power_filelist, fs) := cutGeotiffsByLine filelist (files w) in
    Ret power_filelist (set_files fs w)).
Proof.
  intros w Hw. destruct (cutGeotiffsByLine _ _). now apply P_store.
Qed.

Ltac walk :=
  repeat first
    [ solve [auto with walk nocore]
    | apply along_ret
    | apply along_raise; congruence
    | apply along_mexit
    | apply along_item
    | apply along_first_char
    | apply along_plog
    | apply along_execute
    | apply along_os_remove
    | apply along_os_symlink
    | apply along_shutil_move
    | apply along_os_do; solve [auto]
    | apply along_open_gdal_file
    | apply along_read_gdal_file
    | apply along_write_gdal_file_float
    | apply along_gdal_call
    | apply along_store_do
    | apply along_raster_isfile
    | apply along_open_log
    | apply along_close_log
    | apply along_cutGeotiffsByLine
    | apply along_bind; [|intros ?]
    | apply along_for_each; intros ?
    | progress cbv zeta
    | match goal with
      | |- along _ _ _ (match ?x with _ => _ end) => destruct x
      end
    ].

Lemma along_createCleanDir d :
  allowed (Mkdir d) -> allowed (Rmtree d) -> along P E X (createCleanDir d).
Proof. intros Hm Hr. unfold createCleanDir. walk. Qed.

Lemma along_apply_speckle_filter fi : along P E X (apply_speckle_filter fi).
Proof. unfold apply_speckle_filter. walk. Qed.

Lemma along_create_dB fi : along P E X (create_dB fi).
Proof. unfold create_dB. walk. Qed.

Lemma along_pwr2amp fi : along P E X (pwr2amp fi).
Proof. unfold pwr2amp. walk. Qed.

Lemma along_amp2pwr filelist : along P E X (amp2pwr filelist).
Proof. unfold amp2pwr. walk. Qed.

Lemma along_byteScale fi lower upper : along P E X (byteScale fi lower upper).
Proof. unfold byteScale. walk. Qed.

Lemma along_get2sigmacutoffs fi : along P E X (get2sigmacutoffs fi).
Proof. unfold get2sigmacutoffs. walk. Qed.

Lemma along_changeRes res fi : along P E X (changeRes res fi).
Proof. unfold changeRes. walk. Qed.

Lemma along_cut pt1 pt2 pt3 pt4 fi thresh :
  along P E X (cut pt1 pt2 pt3 pt4 fi thresh).
Proof. unfold cut. walk. Qed.

Lemma along_getDates filelist : along P E X (getDates filelist).
Proof. unfold getDates. walk. Qed.

Lemma along_report_stats myfile tmpfile frac :
  along P E X (report_stats myfile tmpfile frac).
Proof. unfold report_stats. walk. Qed.

Local Hint Resolve along_apply_speckle_filter along_create_dB along_pwr2amp
  along_amp2pwr along_byteScale along_get2sigmacutoffs along_changeRes
  along_cut along_getDates along_report_stats : walk.

Lemma along_filterStack filelist : along P E X (filterStack filelist).
Proof. unfold filterStack. walk. Qed.

Lemma along_changeResStack filelist res : along P E X (changeResStack filelist res).
Proof. unfold changeResStack. walk. Qed.

Lemma along_reconcile zone1 hemi pixsize file2 :
  along P E X (reconcile zone1 hemi pixsize file2).
Proof. unfold reconcile. walk. Qed.

Local Hint Resolve along_filterStack along_changeResStack along_reconcile
  : walk.

Lemma along_fix_projections filelist : along P E X (fix_projections filelist).
Proof. unfold fix_projections. walk. Qed.

Lemma along_clip_scene clip thresh fi : along P E X (clip_scene clip thresh fi).
Proof.
  unfold clip_scene. destruct clip as [[[pt1 pt2] pt3] pt4]. walk.
Qed.

Lemma along_shape_scene shape fi : along P E X (shape_scene shape fi).
Proof. unfold shape_scene. walk. Qed.

Local Hint Resolve along_fix_projections along_clip_scene along_shape_scene
  : walk.

Lemma along_cutStack filelist overlap clip shape thresh :
  along P E X (cutStack filelist overlap clip shape thresh).
Proof. unfold cutStack. walk. Qed.

Lemma along_best_overlap clip l : forall mf mfile,
  along P E X (best_overlap clip l mf mfile).
Proof.
  destruct clip as [[[pt1 pt2] pt3] pt4].
  induction l as [|f l IH]; intros mf mfile; cbn [best_overlap]; walk.
Qed.

Local Hint Resolve along_cutStack along_best_overlap : walk.

Lemma along_fix_file_list filelist clip : along P E X (fix_file_list filelist clip).
Proof. unfold fix_file_list. walk. Qed.

Lemma along_getAscDesc myxml : along P E X (getAscDesc myxml).
Proof. unfold getAscDesc. walk. Qed.

Lemma along_getXmlFiles filelist : along P E X (getXmlFiles filelist).
Proof. unfold getXmlFiles. walk. Qed.

Local Hint Resolve along_fix_file_list along_getAscDesc along_getXmlFiles
  : walk.

Lemma along_cull_loop filelist direction : forall xmlFiles,
  along P E X (cull_loop filelist xmlFiles direction).
Proof.
  induction filelist as [|f l IH]; intros xmlFiles; cbn [cull_loop]; walk.
Qed.

Local Hint Resolve along_cull_loop : walk.

Lemma along_cull_list_by_direction filelist direction :
  along P E X (cull_list_by_direction filelist direction).
Proof. unfold cull_list_by_direction. walk. Qed.

Lemma along_check_options o : along P E X (check_options o).
Proof. unfold check_options. walk. Qed.

Lemma along_resolve_path o : along P E X (resolve_path o).
Proof. unfold resolve_path. walk. Qed.

Lemma along_discover o path : along P E X (discover o path).
Proof. unfold discover. walk. Qed.

Lemma along_download o path : along P E X (download o path).
Proof. unfold download. walk. Qed.

Lemma along_unzip_all path : along P E X (unzip_all path).
Proof. unfold unzip_all, unzip_one. walk. Qed.

Lemma along_link_product path myfile :
  along P E X (link_product path myfile).
Proof. unfold link_product. walk. Qed.

Lemma along_take_infiles infiles : along P E X (take_infiles infiles).
Proof. unfold take_infiles. walk. Qed.

Local Hint Resolve along_cull_list_by_direction along_check_options
  along_resolve_path along_discover along_take_infiles : walk.

Lemma along_find_files o path : along P E X (find_files o path).
Proof. unfold find_files. walk. Qed.

Lemma along_link_files filelist : along P E X (link_files filelist).
Proof. unfold link_files. walk. Qed.

Lemma along_link_one fi : along P E X (link_one fi).
Proof. unfold link_one. walk. Qed.

Lemma along_scratch : along P E X (createCleanDir "TEMP").
Proof. apply along_createCleanDir; assumption. Qed.

Local Hint Resolve along_find_files along_link_files along_scratch : walk.

Lemma along_catalog o : along P E X (catalog o).
Proof. unfold catalog. walk. Qed.

Lemma along_direction_filter keep infiles filelist :
  along P E X (direction_filter keep infiles filelist).
Proof. unfold direction_filter. walk. Qed.

Lemma along_cut_stage o filelist : along P E X (cut_stage o filelist).
Proof. unfold cut_stage. walk. Qed.

Local Hint Resolve along_catalog along_direction_filter along_cut_stage
  : walk.

Lemma along_run_to_cut o : along P E X (run_to_cut o).
Proof. unfold run_to_cut. walk. Qed.

Lemma along_check_survivors o power_filelist :
  along P E X (check_survivors o power_filelist).
Proof. unfold check_survivors. walk. Qed.

Lemma along_scale_to_dB power_filelist : along P E X (scale_to_dB power_filelist).
Proof. unfold scale_to_dB. walk. Qed.

Lemma along_scale_to_byte scale dB_filelist :
  along P E X (scale_to_byte scale dB_filelist).
Proof. unfold scale_to_byte. walk. Qed.

Lemma along_make_pngs byte_filelist : along P E X (make_pngs byte_filelist).
Proof. unfold make_pngs. walk. Qed.

Lemma along_pair_with_dates infiles font png_filelist : forall dates,
  along P E X (pair_with_dates infiles font png_filelist dates).
Proof.
  induction png_filelist as [|f l IH]; intros dates;
    cbn [pair_with_dates]; walk.
Qed.

Local Hint Resolve along_run_to_cut along_check_survivors along_scale_to_dB
  along_scale_to_byte along_make_pngs along_pair_with_dates : walk.

Lemma along_date_and_file infiles font png_filelist :
  along P E X (date_and_file infiles font png_filelist).
Proof. unfold date_and_file. walk. Qed.

Lemma along_animate o frames : along P E X (animate o frames).
Proof. unfold animate. walk. Qed.

Lemma along_move_products o prodDir power_filelist dB_filelist byte_filelist :
  along P E X (move_products o prodDir power_filelist dB_filelist byte_filelist).
Proof. unfold move_products. walk. Qed.

Local Hint Resolve along_date_and_file along_animate along_move_products
  : walk.

Section Driver.

Variable o : options.
Hypothesis A_mk_product : allowed (Mkdir (prodDir o)).
Hypothesis A_rm_product : allowed (Rmtree (prodDir o)).

Lemma along_product_dir : along P E X (createCleanDir (prodDir o)).
Proof. apply along_createCleanDir; assumption. Qed.

Local Hint Resolve along_product_dir : walk.

Lemma along_publish output power_filelist dB_filelist byte_filelist :
  along P E X (publish o output power_filelist dB_filelist byte_filelist).
Proof. unfold publish. walk. Qed.

Local Hint Resolve along_publish : walk.

Lemma along_finish infiles power_filelist dB_filelist :
  along P E X (finish o infiles power_filelist dB_filelist).
Proof. unfold finish. walk. Qed.

Local Hint Resolve along_finish : walk.

Lemma along_produce infiles power_filelist :
  along P E X (produce o infiles power_filelist).
Proof. unfold produce. walk. Qed.

Local Hint Resolve along_produce : walk.

Lemma along_after_cut infiles power_filelist :
  along P E X (after_cut o infiles power_filelist).
Proof. unfold after_cut. walk. Qed.

Local Hint Resolve along_after_cut : walk.

Lemma along_procS1StackRTC : along P E X (procS1StackRTC o).
Proof. unfold procS1StackRTC. walk. Qed.

End Driver.

End Along.

(** ** The run as a whole *)

Section Run.

Context {F : Floats} {C : Collaborators}.

(** X21. The run leaves through [exit] in one way only: with code 1,
    and with the log closed. *)
Theorem every_exit_has_code_1_and_a_closed_log o w c w' :
  procS1StackRTC o w = Exit c w' -> c = 1 /\ log_st w' = LogClosed.
Proof.
  intros H.
  pose proof (along_procS1StackRTC (fun _ => True) (fun _ => True)
                (fun c w => c = 1 /\ log_st w = LogClosed) (fun _ _ => True))
    as Hrun.
  specialize (Hrun ltac:(easy) ltac:(easy) ltac:(easy) ltac:(easy) ltac:(easy)
                ltac:(easy) ltac:(easy) ltac:(easy) ltac:(easy) ltac:(easy)
                ltac:(easy) ltac:(easy) ltac:(easy) ltac:(easy) o
                ltac:(easy) ltac:(easy) w I).
  now rewrite H in Hrun.
Qed.

(** X22. The run makes and removes no directory other than its scratch
    directory [TEMP] and its product directory, however it ends: after a
    return, after an exit and after an exception alike. *)
Theorem no_other_directory_is_made_or_removed o w :
  Forall (spares_other_dirs o) (calls w) ->
  Forall (spares_other_dirs o) (calls (world_of (procS1StackRTC o w))).
Proof.
  intros Hw.
  pose proof (along_procS1StackRTC (spares_other_dirs o)
                (fun w => Forall (spares_other_dirs o) (calls w))
                (fun _ w => Forall (spares_other_dirs o) (calls w))
                (fun _ w => Forall (spares_other_dirs o) (calls w)))
    as Hrun.
  assert (Hcall : forall w0 c,
             spares_other_dirs o c ->
             Forall (spares_other_dirs o) (calls w0) ->
             Forall (spares_other_dirs o) (calls (add_call c w0))).
  { intros w0 c Hc H0. cbn. apply Forall_app. split; [assumption|].
    now constructor. }
  specialize (Hrun ltac:(easy) ltac:(easy) Hcall ltac:(easy) ltac:(easy)
                ltac:(easy) ltac:(easy) ltac:(easy) ltac:(easy) ltac:(easy)
                ltac:(easy) ltac:(easy)
                ltac:(now left) ltac:(now left) o
                ltac:(now right) ltac:(now right) w Hw).
  now destruct (procS1StackRTC o w).
Qed.

Lemma run_opens_the_log o w :
  procS1StackRTC o w
  = procS1StackRTC o {| files := files w; log := []; log_st := LogOpen;
                        calls := calls w |}.
Proof. reflexivity. Qed.

(** X23. The log belongs to the run: whatever the state of the log
    before the run, the run opens it first, and it never dies for want of
    an open log, that is with [NameError] on [log]. Called before any run
    has opened the log, the helpers that write to it die in just this
    way: the speckle filter, the change of resolution, the report of one
    clip, the check for survivors, and the cutter in overlap and in
    shapefile mode at once, with the world as it was; the cutter in box
    mode as soon as the reconciliation of projections has returned, and
    with the error of the reconciliation if that fails; the cutter
    without any clipping writes nothing to the log and returns its
    list. *)
Theorem the_log_is_set_by_the_run_alone o w :
  (forall e w', procS1StackRTC o w = Raise e w' -> e <> NameError "log")
  /\ (forall w0, log_st w0 = LogUnset ->
        (forall filelist,
            filterStack filelist w0 = Raise (NameError "log") w0)
        /\ (forall filelist res,
               changeResStack filelist res w0 = Raise (NameError "log") w0)
        /\ (forall filelist clip shape thresh,
               cutStack filelist true clip shape thresh w0
               = Raise (NameError "log") w0)
        /\ (forall filelist shape thresh,
               cutStack filelist false None (Some shape) thresh w0
               = Raise (NameError "log") w0)
        /\ (forall filelist clip shape thresh,
               match fix_projections filelist w0 with
               | Ret _ w1 =>
                   cutStack filelist false (Some clip) shape thresh w0
                   = Raise (NameError "log") w1
               | Exit c w1 =>
                   cutStack filelist false (Some clip) shape thresh w0
                   = Exit c w1
               | Raise e w1 =>
                   cutStack filelist false (Some clip) shape thresh w0
                   = Raise e w1
               end)
        /\ (forall filelist thresh,
               cutStack filelist false None None thresh w0
               = Ret filelist w0)
        /\ (forall myfile tmpfile frac,
               report_stats myfile tmpfile frac w0
               = Raise (NameError "log") w0)
        /\ check_survivors o [] w0 = Raise (NameError "log") w0).
Proof.
  split.
  - intros e w' H. rewrite run_opens_the_log in H.
    pose proof (along_procS1StackRTC (fun _ => True)
                  (fun w => log_st w <> LogUnset) (fun _ _ => True)
                  (fun e _ => e <> NameError "log"))
      as Hrun.
    specialize (Hrun ltac:(easy) ltac:(easy) ltac:(easy)
                  ltac:(intros; cbn; discriminate)
                  ltac:(intros; cbn; discriminate) ltac:(easy)
                  ltac:(intros e0 w0 H0 He Heq; now apply H0, He)
                  ltac:(easy) ltac:(easy) ltac:(easy) ltac:(easy)
                  ltac:(easy) ltac:(easy) ltac:(easy) o
                  ltac:(easy) ltac:(easy)
                  {| files := files w; log := []; log_st := LogOpen;
                     calls := calls w |}
                  ltac:(cbn; discriminate)).
    now rewrite H in Hrun.
  - intros w0 H0.
    assert (Hplog : forall msg, plog msg w0 = Raise (NameError "log") w0)
      by (intros msg; unfold plog; now rewrite H0).
    split; [|split; [|split; [|split; [|split; [|split; [|split]]]]]].
    + intros filelist. unfold filterStack.
      now rewrite (bind_Raise _ _ _ _ _ (Hplog _)).
    + intros filelist res. unfold changeResStack.
      now rewrite (bind_Raise _ _ _ _ _ (Hplog _)).
    + intros filelist clip shape thresh. unfold cutStack.
      now rewrite (bind_Raise _ _ _ _ _ (Hplog _)).
    + intros filelist shape thresh. unfold cutStack.
      now rewrite (bind_Raise _ _ _ _ _ (Hplog _)).
    + intros filelist [[[pt1 pt2] pt3] pt4] shape thresh. unfold cutStack.
      destruct (fix_projections filelist w0) as [fl1 w1|c w1|e w1] eqn:Hfix.
      * rewrite (bind_Ret _ _ _ _ _ Hfix).
        assert (Hst : log_st w1 = LogUnset)
          by exact (preserves_fix_projections
                      (fun w => log_st w = LogUnset) ltac:(easy)
                      filelist w0 fl1 w1 H0 Hfix).
        assert (Hplog1 : forall msg, plog msg w1 = Raise (NameError "log") w1)
          by (intros msg; unfold plog; now rewrite Hst).
        now rewrite (bind_Raise _ _ _ _ _ (Hplog1 _)).
      * now rewrite (bind_Exit _ _ _ _ _ Hfix).
      * now rewrite (bind_Raise _ _ _ _ _ Hfix).
    + intros filelist thresh. reflexivity.
    + intros myfile tmpfile frac. unfold report_stats.
      destruct tmpfile; apply Hplog.
    + unfold check_survivors. cbn [length Nat.eqb].
      now rewrite (bind_Raise _ _ _ _ _ (Hplog _)).
Qed.

Lemma discover_unfold o path :
  discover o path
  = bind (download o path) (fun r =>
      let '(zipFlag, path) := r in
      bind (if zipFlag : bool then unzip_all path else link_products path)
        (fun _ => glob_scenes o)).
Proof. reflexivity. Qed.

(** *** A run that returns *)

Lemma for_each_names {A B} (f : A -> M B) (name : A -> B) l :
  (forall a w b w', f a w = Ret b w' -> b = name a) ->
  forall w bs w', for_each f l w = Ret bs w' -> bs = map name l.
Proof.
  intros Hf. induction l as [|a l IH]; intros w bs w' H.
  - now inversion H.
  - apply for_each_cons_inv in H as (b & w1 & bs' & H1 & H2 & ->).
    cbn [map]. f_equal; [eapply Hf, H1|eapply IH, H2].
Qed.

Lemma check_survivors_inv o l w w' :
  check_survivors o l w = Ret tt w' -> l <> [] /\ w' = w.
Proof.
  unfold check_survivors. destruct l as [|f l]; cbn [length Nat.eqb].
  - intros H. exfalso.
    apply bind_inv_Ret in H as (? & ? & _ & H).
    apply bind_inv_Ret in H as (? & ? & _ & H).
    apply bind_inv_Ret in H as (? & ? & _ & H).
    apply bind_inv_Ret in H as (? & w3 & _ & H).
    unfold mexit in H. destruct (log_st w3); discriminate.
  - intros H. inversion H. split; [discriminate|reflexivity].
Qed.

Lemma scale_to_dB_inv l w l' w' :
  scale_to_dB l w = Ret l' w' -> l' = map dB_name l.
Proof.
  unfold scale_to_dB. intros H. apply bind_inv_Ret in H as (? & w1 & _ & H).
  eapply for_each_names; [|exact H].
  intros f v n v' Hf. unfold create_dB, bind, open_gdal_file in Hf.
  destruct (files v !! f); [|discriminate]. now inversion Hf.
Qed.

Lemma scale_to_byte_inv scale l w l' w' :
  scale_to_byte scale l w = Ret l' w' -> l' = map (byte_name scale) l.
Proof.
  unfold scale_to_byte. intros H. apply bind_inv_Ret in H as (? & w1 & _ & H).
  eapply for_each_names; [|exact H].
  intros f v n v' Hf. unfold byteScale in Hf.
  apply bind_inv_Ret in Hf as (? & ? & _ & Hf).
  apply bind_inv_Ret in Hf as (? & ? & _ & Hf).
  apply bind_inv_Ret in Hf as (? & ? & _ & Hf).
  now inversion Hf.
Qed.

Lemma animate_inv o frames w output w' :
  animate o frames w = Ret output w' -> output = animation o.
Proof.
  unfold animate. intros H. apply bind_inv_Ret in H as (? & ? & _ & H).
  now inversion H.
Qed.

Lemma createCleanDir_inv d w w' :
  createCleanDir d w = Ret tt w' ->
  exists cs, calls w' = (calls w ++ cs ++ [Mkdir d])%list.
Proof.
  unfold createCleanDir. destruct (negb (os_isdir d)).
  - intros H. inversion H; subst. now exists [].
  - intros H. apply bind_inv_Ret in H as ([] & w1 & H1 & H).
    apply bind_inv_Ret in H as ([] & w2 & H2 & H).
    unfold plog in H1. destruct (log_st w); try discriminate.
    inversion H1; subst. inversion H2; subst. inversion H; subst.
    exists [Rmtree d]. cbn. now rewrite <- app_assoc.
Qed.

Lemma publish_inv o output power_filelist dB_filelist byte_filelist w w' :
  publish o output power_filelist dB_filelist byte_filelist w = Ret tt w' ->
  log_st w' = LogClosed
  /\ exists cs,
       calls w'
       = (cs ++ [Mkdir (prodDir o);
                 Move ("../" ++ logFile o) (prodDir o);
                 Move output (prodDir o)]
          ++ map (fun f => Move f (prodDir o))
               (published o power_filelist dB_filelist byte_filelist)
          ++ Chdir ".." :: (if o_leave o then [] else [Rmtree "TEMP"]))%list.
Proof.
  unfold publish. intros H.
  apply bind_inv_Ret in H as ([] & w1 & H1 & H).
  apply bind_inv_Ret in H as ([] & w2 & H2 & H).
  apply bind_inv_Ret in H as ([] & w3 & H3 & H).
  apply bind_inv_Ret in H as ([] & w4 & H4 & H).
  apply bind_inv_Ret in H as ([] & w5 & H5 & H).
  apply bind_inv_Ret in H as ([] & w6 & H6 & H).
  apply createCleanDir_inv in H1 as (cs & Hc1).
  assert (Hs2 : log_st w2 = LogClosed /\ calls w2 = calls w1).
  { unfold close_log in H2. destruct (log_st w1); inversion H2; now subst. }
  destruct Hs2 as [Hs2 Hc2].
  inversion H3; subst; clear H3.
  apply shutil_move_inv in H4 as (Hc4 & _ & Hs4).
  apply move_products_inv in H5 as (Hc5 & _ & Hs5).
  inversion H6; subst; clear H6.
  assert (Hs5' : log_st w5 = LogClosed) by (rewrite Hs5, Hs4; exact Hs2).
  assert (Hs : log_st w' = LogClosed
               /\ calls w'
                  = (calls (add_call (Chdir "..") w5)
                     ++ (if o_leave o then [] else [Rmtree "TEMP"]))%list).
  { destruct (o_leave o); cbn [negb] in H; inversion H; subst; cbn.
    - rewrite app_nil_r. split; [exact Hs5'|reflexivity].
    - split; [exact Hs5'|reflexivity]. }
  destruct Hs as [Hs Hc]. split; [exact Hs|].
  exists (calls w ++ cs)%list. rewrite Hc. cbn [calls add_call].
  rewrite Hc5, Hc4. cbn [calls add_call]. rewrite Hc2, Hc1.
  rewrite <- !app_assoc. cbn. reflexivity.
Qed.

(** X24. A run that returns has published: the log is closed, and the
    calls end with the making of the product directory, the move of the
    log, of the animation and of the rasters of the output type into it,
    the change back to the directory of the start and, unless the scratch
    directory is to stay, its removal. The rasters are those of a stack of
    power rasters that is not empty. *)
Theorem a_run_that_returns_has_published o w w' :
  procS1StackRTC o w = Ret tt w' ->
  log_st w' = LogClosed
  /\ exists cs power_filelist,
       power_filelist <> []
       /\ calls w' = (cs ++ publishing_calls o power_filelist)%list.
Proof.
  unfold procS1StackRTC. intros H.
  apply bind_inv_Ret in H as ([infiles pfl] & w1 & _ & H).
  unfold after_cut in H.
  apply bind_inv_Ret in H as ([] & w2 & Hsurv & H).
  apply check_survivors_inv in Hsurv as [Hne ->].
  unfold produce in H.
  apply bind_inv_Ret in H as (dfl & w3 & HdB & H).
  apply scale_to_dB_inv in HdB as ->.
  unfold finish in H.
  apply bind_inv_Ret in H as (bfl & w4 & Hbyte & H).
  apply scale_to_byte_inv in Hbyte as ->.
  apply bind_inv_Ret in H as (pngs & w5 & _ & H).
  apply bind_inv_Ret in H as (frames & w6 & _ & H).
  apply bind_inv_Ret in H as (output & w7 & Hout & H).
  apply animate_inv in Hout as ->.
  apply publish_inv in H as (Hs & cs & Hc).
  split; [exact Hs|]. exists cs, pfl. split; [exact Hne|exact Hc].
Qed.

(** *** The changes of directory *)

Lemma chdirs_add_call c w :
  chdirs (calls (add_call c w))
  = (chdirs (calls w) ++ (if is_chdir c then [c] else []))%list.
Proof.
  unfold chdirs. cbn [calls add_call]. rewrite List.filter_app. cbn [List.filter].
  now destruct (is_chdir c).
Qed.

Lemma moves_ret {A} (a : A) : moves [] (ret a).
Proof. intros w b w' H. inversion H. now rewrite app_nil_r. Qed.

Lemma moves_chdir d : moves [Chdir d] (os_do (Chdir d)).
Proof. intros w [] w' H. inversion H. apply chdirs_add_call. Qed.

Lemma moves_bind {A B} cs1 cs2 (m : M A) (k : A -> M B) :
  moves cs1 m -> (forall a, moves cs2 (k a)) -> moves (cs1 ++ cs2) (bind m k).
Proof.
  intros Hm Hk w b w' H. apply bind_inv_Ret in H as (a & w1 & H1 & H2).
  rewrite (Hk a _ _ _ H2), (Hm _ _ _ H1). now rewrite app_assoc.
Qed.

Lemma moves_for_each {A B} (f : A -> M B) l :
  (forall a, moves [] (f a)) -> moves [] (for_each f l).
Proof.
  intros Hf. induction l as [|a l IH]; intros w bs w' H.
  - inversion H. now rewrite app_nil_r.
  - apply for_each_cons_inv in H as (b & w1 & bs' & H1 & H2 & ->).
    rewrite (IH _ _ _ H2), (Hf a _ _ _ H1). now rewrite !app_nil_r.
Qed.

Lemma moves_along {A} (m : M A) :
  (forall L, along (fun w => chdirs (calls w) = L)
               (fun _ _ => True) (fun _ _ => True) m) ->
  moves [] m.
Proof.
  intros H w a w' Hm. specialize (H (chdirs (calls w)) w eq_refl).
  rewrite Hm in H. now rewrite app_nil_r.
Qed.

Ltac still_by lem :=
  apply moves_along; intros L;
  first [eapply (lem (fun c : os_call => is_chdir c = false)) | eapply lem];
  try solve
    [ easy
    | intros w0 c Hc H0; rewrite chdirs_add_call, Hc, app_nil_r; exact H0 ].

Lemma still_plog msg : moves [] (plog msg).
Proof. still_by along_plog. Qed.

Lemma still_open_log : moves [] open_log.
Proof. still_by along_open_log. Qed.

Lemma still_close_log : moves [] close_log.
Proof. still_by along_close_log. Qed.

Lemma still_shutil_move src d : moves [] (shutil_move src d).
Proof. still_by along_shutil_move. Qed.

Lemma still_check_options o : moves [] (check_options o).
Proof. still_by along_check_options. Qed.

Lemma still_resolve_path o : moves [] (resolve_path o).
Proof. still_by along_resolve_path. Qed.

Lemma still_createCleanDir d : moves [] (createCleanDir d).
Proof. still_by along_createCleanDir. Qed.

Lemma still_take_infiles infiles : moves [] (take_infiles infiles).
Proof. still_by along_take_infiles. Qed.

Lemma still_fix_file_list filelist clip : moves [] (fix_file_list filelist clip).
Proof. still_by along_fix_file_list. Qed.

Lemma still_direction_filter keep infiles filelist :
  moves [] (direction_filter keep infiles filelist).
Proof. still_by along_direction_filter. Qed.

Lemma still_amp2pwr filelist : moves [] (amp2pwr filelist).
Proof. still_by along_amp2pwr. Qed.

Lemma still_cut_stage o filelist : moves [] (cut_stage o filelist).
Proof. still_by along_cut_stage. Qed.

Lemma still_check_survivors o l : moves [] (check_survivors o l).
Proof. still_by along_check_survivors. Qed.

Lemma still_scale_to_dB l : moves [] (scale_to_dB l).
Proof. still_by along_scale_to_dB. Qed.

Lemma still_scale_to_byte scale l : moves [] (scale_to_byte scale l).
Proof. still_by along_scale_to_byte. Qed.

Lemma still_make_pngs l : moves [] (make_pngs l).
Proof. still_by along_make_pngs. Qed.

Lemma still_date_and_file infiles font l :
  moves [] (date_and_file infiles font l).
Proof. still_by along_date_and_file. Qed.

Lemma still_animate o frames : moves [] (animate o frames).
Proof. still_by along_animate. Qed.

Lemma still_move_products o d pl dl bl : moves [] (move_products o d pl dl bl).
Proof. still_by along_move_products. Qed.

Lemma still_download o path : moves [] (download o path).
Proof. still_by along_download. Qed.

Lemma still_unzip_all path : moves [] (unzip_all path).
Proof. still_by along_unzip_all. Qed.

Lemma still_link_product path myfile : moves [] (link_product path myfile).
Proof. still_by along_link_product. Qed.

Lemma still_link_one fi : moves [] (link_one fi).
Proof. still_by along_link_one. Qed.

Lemma moves_link_products path :
  moves [Chdir "TEMP"; Chdir ".."] (link_products path).
Proof.
  unfold link_products.
  apply (moves_bind [] [Chdir "TEMP"; Chdir ".."]); [apply still_plog|intros _].
  apply (moves_bind [Chdir "TEMP"] [Chdir ".."]); [apply moves_chdir|intros _].
  apply (moves_bind [] [Chdir ".."]); [|intros _; apply moves_chdir].
  apply moves_for_each. intros myfile. apply still_link_product.
Qed.

Lemma moves_glob_scenes o : moves [Chdir "TEMP"; Chdir ".."] (glob_scenes o).
Proof.
  unfold glob_scenes.
  apply (moves_bind [Chdir "TEMP"] [Chdir ".."]); [apply moves_chdir|intros _].
  apply (moves_bind [] [Chdir ".."]).
  - destruct (truthy (o_hyp o)), (o_clip o);
      first [apply still_fix_file_list|apply moves_ret].
  - intros filelist.
    apply (moves_bind [Chdir ".."] []); [apply moves_chdir|intros _].
    apply moves_ret.
Qed.

Lemma download_inv o path w r w' :
  download o path w = Ret r w' -> fst r = from_zip o.
Proof.
  unfold download, from_zip. destruct (o_hyp o) as [[|c h]|]; cbn [truthy orb].
  - intros H. now inversion H.
  - intros H. apply bind_inv_Ret in H as (? & ? & _ & H).
    apply bind_inv_Ret in H as (? & ? & _ & H). now inversion H.
  - intros H. now inversion H.
Qed.

Lemma moves_discover o path :
  moves ((if from_zip o then [] else [Chdir "TEMP"; Chdir ".."])
         ++ [Chdir "TEMP"; Chdir ".."]) (discover o path).
Proof.
  rewrite discover_unfold. intros w fl w' H.
  apply bind_inv_Ret in H as ([zipFlag p] & w1 & Hd & H).
  pose proof (download_inv _ _ _ _ _ Hd) as Hz. cbn [fst] in Hz. subst zipFlag.
  apply still_download in Hd. rewrite app_nil_r in Hd. rewrite <- Hd.
  revert H. apply moves_bind; [|intros _; apply moves_glob_scenes].
  destruct (from_zip o); [apply still_unzip_all|apply moves_link_products].
Qed.

Lemma moves_find_files o path :
  moves (match o_infiles o with
         | Some (_ :: _) => []
         | _ => (if from_zip o then [] else [Chdir "TEMP"; Chdir ".."])
                ++ [Chdir "TEMP"; Chdir ".."]
         end) (find_files o path).
Proof.
  unfold find_files.
  assert (Hcheck : forall (filelist : list string),
             moves []
               (if (length filelist =? 0)%nat
                then bind (plog "ERROR: Found no files to process.")
                       (fun _ => mexit 1)
                else ret tt)).
  { intros filelist. destruct (length filelist =? 0)%nat; [|apply moves_ret].
    intros w a w' H. apply bind_inv_Ret in H as (? & w1 & _ & H).
    unfold mexit in H. destruct (log_st w1); discriminate. }
  destruct (o_infiles o) as [[|f l]|].
  - rewrite <- (app_nil_r (_ ++ _)). apply moves_bind.
    + rewrite <- (app_nil_r (_ ++ _)). apply moves_bind;
        [apply moves_discover|intros fl; apply moves_ret].
    + intros [inf fl]. apply (moves_bind [] []); [apply Hcheck|].
      intros _. apply moves_ret.
  - apply (moves_bind [] []).
    + apply (moves_bind [] []);
        [apply still_take_infiles|intros fl; apply moves_ret].
    + intros [inf fl]. apply (moves_bind [] []); [apply Hcheck|].
      intros _. apply moves_ret.
  - rewrite <- (app_nil_r (_ ++ _)). apply moves_bind.
    + rewrite <- (app_nil_r (_ ++ _)). apply moves_bind;
        [apply moves_discover|intros fl; apply moves_ret].
    + intros [inf fl]. apply (moves_bind [] []); [apply Hcheck|].
      intros _. apply moves_ret.
Qed.

Lemma moves_link_files filelist : moves [Chdir "TEMP"] (link_files filelist).
Proof.
  rewrite link_files_unfold.
  apply (moves_bind [Chdir "TEMP"] []); [apply moves_chdir|intros _].
  apply (moves_bind [] []);
    [apply moves_for_each; intros fi; apply still_link_one|intros fl].
  apply (moves_bind [] []); [apply still_plog|intros _].
  apply (moves_bind [] []); [apply still_plog|intros _]. apply moves_ret.
Qed.

Lemma moves_publish o output pl dl bl :
  moves [Chdir ".."] (publish o output pl dl bl).
Proof.
  unfold publish.
  apply (moves_bind [] [Chdir ".."]); [apply still_createCleanDir|intros _].
  apply (moves_bind [] [Chdir ".."]); [apply still_close_log|intros _].
  apply (moves_bind [] [Chdir ".."]).
  { intros w [] w' H. inversion H. rewrite chdirs_add_call. reflexivity. }
  intros _.
  apply (moves_bind [] [Chdir ".."]); [apply still_shutil_move|intros _].
  apply (moves_bind [] [Chdir ".."]); [apply still_move_products|intros _].
  apply (moves_bind [Chdir ".."] []); [apply moves_chdir|intros _].
  destruct (negb (o_leave o)); [|apply moves_ret].
  intros w [] w' H. inversion H. rewrite chdirs_add_call. reflexivity.
Qed.

(** X25. A run that returns is back in the directory it started from:
    its changes of directory are, in this order, into the scratch
    directory and back for the linking of unzipped products and for the
    search for scenes (when no input files were given), into the scratch
    directory for the processing, and back after the publishing. *)
Theorem a_run_that_returns_is_back_where_it_started o w w' :
  procS1StackRTC o w = Ret tt w' ->
  chdirs (calls w') = (chdirs (calls w) ++ run_chdirs o)%list.
Proof.
  intros H.
  apply (fun Hm : moves (run_chdirs o) (procS1StackRTC o) => Hm w tt w' H).
  clear H. unfold run_chdirs, procS1StackRTC.
  set (D := match o_infiles o with
            | Some (_ :: _) => []
            | _ => ((if from_zip o then [] else [Chdir "TEMP"; Chdir ".."])
                    ++ [Chdir "TEMP"; Chdir ".."])%list
            end).
  replace (D ++ [Chdir "TEMP"; Chdir ".."])%list
    with ((D ++ [Chdir "TEMP"]) ++ [Chdir ".."])%list
    by (now rewrite <- app_assoc).
  apply moves_bind.
  - unfold run_to_cut. rewrite <- (app_nil_r (D ++ _)). apply moves_bind.
    + unfold catalog.
      apply (moves_bind [] (D ++ [Chdir "TEMP"]));
        [apply still_open_log|intros _].
      apply (moves_bind [] (D ++ [Chdir "TEMP"]));
        [apply still_check_options|intros _].
      apply (moves_bind [] (D ++ [Chdir "TEMP"]));
        [apply still_resolve_path|intros path].
      apply (moves_bind [] (D ++ [Chdir "TEMP"]));
        [apply still_createCleanDir|intros _].
      apply moves_bind; [apply moves_find_files|intros [inf fl]].
      rewrite <- (app_nil_r [Chdir "TEMP"]).
      apply moves_bind; [apply moves_link_files|intros fl'; apply moves_ret].
    + intros [inf fl].
      apply (moves_bind [] []); [apply still_direction_filter|intros fl1].
      apply (moves_bind [] []);
        [destruct (o_amp o); [apply still_amp2pwr|apply moves_ret]|intros fl2].
      apply (moves_bind [] []); [apply still_cut_stage|intros pfl].
      apply moves_ret.
  - intros [inf pfl]. unfold after_cut.
    apply (moves_bind [] [Chdir ".."]); [apply still_check_survivors|intros _].
    unfold produce.
    apply (moves_bind [] [Chdir ".."]); [apply still_scale_to_dB|intros dfl].
    unfold finish.
    apply (moves_bind [] [Chdir ".."]); [apply still_scale_to_byte|intros bfl].
    apply (moves_bind [] [Chdir ".."]); [apply still_make_pngs|intros pngs].
    apply (moves_bind [] [Chdir ".."]); [apply still_date_and_file|intros fr].
    apply (moves_bind [] [Chdir ".."]); [apply still_animate|intros output].
    apply moves_publish.
Qed.

(** *** A run that finds no scene *)

Lemma ro_ret {A} (a : A) : returns_open (ret a).
Proof. intros w Hw. now exists a, w. Qed.

Lemma ro_bind {A B} (m : M A) (k : A -> M B) :
  returns_open m -> (forall a, returns_open (k a)) -> returns_open (bind m k).
Proof.
  intros Hm Hk w Hw. destruct (Hm w Hw) as (a & w1 & H1 & Hw1).
  destruct (Hk a w1 Hw1) as (b & w2 & H2 & Hw2).
  exists b, w2. split; [|exact Hw2]. now rewrite (bind_Ret _ _ _ _ _ H1).
Qed.

Lemma ro_for_each {A B} (f : A -> M B) l :
  (forall a, returns_open (f a)) -> returns_open (for_each f l).
Proof.
  intros Hf. induction l as [|a l IH]; intros w Hw; [now exists [], w|].
  destruct (Hf a w Hw) as (b & w1 & H1 & Hw1).
  destruct (IH w1 Hw1) as (bs & w2 & H2 & Hw2).
  exists (b :: bs), w2. split; [|exact Hw2]. cbn [for_each]. now rewrite H1, H2.
Qed.

Lemma ro_plog msg : returns_open (plog msg).
Proof. intros w Hw. exists tt, (add_log msg w). now rewrite plog_open. Qed.

Lemma ro_os_do c : returns_open (os_do c).
Proof. intros w Hw. now exists tt, (add_call c w). Qed.

Lemma ro_store_do f : returns_open (store_do f).
Proof. intros w Hw. now exists tt, (set_files (f (files w)) w). Qed.

Lemma ro_createCleanDir d : returns_open (createCleanDir d).
Proof.
  unfold createCleanDir. destruct (negb (os_isdir d)); [apply ro_os_do|].
  apply ro_bind; [apply ro_plog|intros _].
  apply ro_bind; [apply ro_os_do|intros _; apply ro_os_do].
Qed.

Lemma ro_download o path : returns_open (download o path).
Proof.
  unfold download. destruct (o_hyp o) as [[|c h]|]; try apply ro_ret.
  apply ro_bind; [apply ro_plog|intros _].
  apply ro_bind; [apply ro_store_do|intros _; apply ro_ret].
Qed.

Lemma ro_unzip_all path : returns_open (unzip_all path).
Proof.
  unfold unzip_all. apply ro_bind; [apply ro_plog|intros _].
  apply ro_bind; [|intros _; apply ro_ret].
  apply ro_for_each. intros myfile. unfold unzip_one.
  destruct (PyStr.contains ".zip" myfile); [|apply ro_ret].
  apply ro_bind; [apply ro_plog|intros _; apply ro_store_do].
Qed.

Lemma ro_link_products path : returns_open (link_products path).
Proof.
  unfold link_products. apply ro_bind; [apply ro_plog|intros _].
  apply ro_bind; [apply ro_os_do|intros _].
  apply ro_bind; [|intros _; apply ro_os_do].
  apply ro_for_each. intros myfile. unfold link_product.
  destruct (_ && _); [|apply ro_ret].
  apply ro_bind; [apply ro_os_do|intros _; apply ro_store_do].
Qed.

Lemma resolve_path_returns o w :
  match o_path o with
  | None => True
  | Some p => p <> "" /\ os_isdir (absolute p) = true
  end ->
  exists path, resolve_path o w = Ret path w.
Proof.
  unfold resolve_path. destruct (o_path o) as [p|]; [|now exists os_getcwd].
  intros [Hne Hdir]. destruct p as [|c p]; [contradiction|].
  unfold bind. cbn [first_char ret absolute] in *.
  destruct (Ascii.eqb c "/"); cbn [negb]; rewrite Hdir; cbn [negb]; eauto.
Qed.

Lemma glob_scenes_no_scene o w :
  log_st w = LogOpen -> found_scenes = [] ->
  match truthy (o_hyp o), o_clip o with
  | true, Some _ =>
      glob_scenes o w
      = Exit 1 (set_log_st LogClosed
                  (add_log "ERROR: None of the input scenes overlap with your area of interest!"
                     (add_call (Chdir "TEMP") w)))
  | _, _ =>
      glob_scenes o w
      = Ret [] (add_call (Chdir "..") (add_call (Chdir "TEMP") w))
  end.
Proof.
  intros Hw Hnone. unfold glob_scenes. rewrite Hnone.
  unfold bind at 1. cbn [os_do].
  destruct (truthy (o_hyp o)), (o_clip o) as [[[[pt1 pt2] pt3] pt4]|];
    try reflexivity.
  apply bind_Exit. unfold fix_file_list.
  unfold bind at 1. cbn [best_overlap ret].
  change (Qeq_bool 0 0) with true.
  unfold bind at 1. unfold bind at 1.
  rewrite plog_open by exact Hw. unfold mexit. cbn. now rewrite Hw.
Qed.

(** X26. A run without input files that finds no scene in the scratch
    directory, neither in product directories nor loose, ends with exit
    code 1 and the log closed. Its last line in the log is that no files
    were found, and it has left the scratch directory again; except that
    with a subscription and a box it is the election of the reference
    scene that complains, about no overlap, from within the scratch
    directory. In both cases the scratch directory is left behind. *)
Theorem a_run_that_finds_no_scene_exits o w :
  option_error o = None ->
  match o_path o with
  | None => True
  | Some p => p <> "" /\ os_isdir (absolute p) = true
  end ->
  o_infiles o = None \/ o_infiles o = Some [] ->
  found_scenes = [] ->
  exists w',
    procS1StackRTC o w = Exit 1 w'
    /\ log_st w' = LogClosed
    /\ match truthy (o_hyp o), o_clip o with
       | true, Some _ =>
           List.last (log w') ""
           = "ERROR: None of the input scenes overlap with your area of interest!"
           /\ List.last (calls w') (Chdir "") = Chdir "TEMP"
       | _, _ =>
           List.last (log w') "" = "ERROR: Found no files to process."
           /\ List.last (calls w') (Chdir "") = Chdir ".."
       end.
Proof.
  intros Hopt Hpath Hinf Hnone.
  set (w0 := {| files := files w; log := []; log_st := LogOpen;
                calls := calls w |}).
  pose proof (check_options_outcome o w0 eq_refl) as Hcheck.
  rewrite Hopt in Hcheck.
  set (w1 := {| files := files w0; log := (log w0 ++ option_messages o)%list;
                log_st := LogOpen; calls := calls w0 |}) in Hcheck.
  destruct (resolve_path_returns o w1 Hpath) as (path & Hres).
  destruct (ro_createCleanDir "TEMP" w1 eq_refl) as ([] & w2 & Hclean & Hw2).
  destruct (ro_download o path w2 Hw2) as ([zipFlag p] & w3 & Hdown & Hw3).
  assert (Hblock : exists w4,
             (if zipFlag then unzip_all p else link_products p) w3 = Ret tt w4
             /\ log_st w4 = LogOpen).
  { destruct zipFlag;
      [destruct (ro_unzip_all p w3 Hw3) as ([] & w4 & ? & ?)
      |destruct (ro_link_products p w3 Hw3) as ([] & w4 & ? & ?)]; eauto. }
  destruct Hblock as (w4 & Hblock & Hw4).
  pose proof (glob_scenes_no_scene o w4 Hw4 Hnone) as Hglob.
  assert (Hfind : exists w',
             find_files o path w2 = Exit 1 w'
             /\ log_st w' = LogClosed
             /\ match truthy (o_hyp o), o_clip o with
                | true, Some _ =>
                    List.last (log w') ""
                    = "ERROR: None of the input scenes overlap with your area of interest!"
                    /\ List.last (calls w') (Chdir "") = Chdir "TEMP"
                | _, _ =>
                    List.last (log w') "" = "ERROR: Found no files to process."
                    /\ List.last (calls w') (Chdir "") = Chdir ".."
                end).
  { assert (Hd : discover o path w2 = glob_scenes o w4).
    { rewrite discover_unfold. rewrite (bind_Ret _ _ _ _ _ Hdown).
      cbn beta iota. now rewrite (bind_Ret _ _ _ _ _ Hblock). }
    assert (Hff : find_files o path w2
                  = bind (bind (discover o path)
                            (fun filelist => ret (@None (list string), filelist)))
                      (fun r =>
                         let '(infiles, filelist) := r in
                         bind (if (length filelist =? 0)%nat
                               then bind (plog "ERROR: Found no files to process.")
                                      (fun _ => mexit 1)
                               else ret tt)
                           (fun _ => ret (infiles, filelist))) w2).
    { unfold find_files. now destruct Hinf as [-> | ->]. }
    rewrite Hff. clear Hff.
    assert (no_files :
              glob_scenes o w4
              = Ret [] (add_call (Chdir "..") (add_call (Chdir "TEMP") w4)) ->
              bind (bind (discover o path)
                      (fun filelist => ret (@None (list string), filelist)))
                (fun r =>
                   let '(infiles, filelist) := r in
                   bind (if (length filelist =? 0)%nat
                         then bind (plog "ERROR: Found no files to process.")
                                (fun _ => mexit 1)
                         else ret tt)
                     (fun _ => ret (infiles, filelist))) w2
              = Exit 1 (set_log_st LogClosed
                          (add_log "ERROR: Found no files to process."
                             (add_call (Chdir "..")
                                (add_call (Chdir "TEMP") w4))))).
    { intros Hg. unfold bind at 1. unfold bind at 1. rewrite Hd, Hg. cbn [ret].
      cbn [length Nat.eqb]. unfold bind at 1. unfold bind at 1.
      rewrite plog_open by exact Hw4. unfold mexit. cbn.
      rewrite Hw4. reflexivity. }
    destruct (truthy (o_hyp o)), (o_clip o) as [clip|].
    - eexists. split; [do 2 apply bind_Exit; rewrite Hd; exact Hglob|].
      split; [reflexivity|]. cbn [log calls set_log_st add_log add_call].
      rewrite !List.last_last. now split.
    - eexists. split; [apply no_files; exact Hglob|].
      split; [reflexivity|]. cbn [log calls set_log_st add_log add_call].
      rewrite !List.last_last. now split.
    - eexists. split; [apply no_files; exact Hglob|].
      split; [reflexivity|]. cbn [log calls set_log_st add_log add_call].
      rewrite !List.last_last. now split.
    - eexists. split; [apply no_files; exact Hglob|].
      split; [reflexivity|]. cbn [log calls set_log_st add_log add_call].
      rewrite !List.last_last. now split. }
  destruct Hfind as (w' & Hfind & Hclosed & Hlast).
  exists w'. split; [|split; assumption].
  unfold procS1StackRTC, run_to_cut, catalog.
  do 2 apply bind_Exit. unfold bind at 1. cbn [open_log]. fold w0.
  rewrite (bind_Ret _ _ _ _ _ Hcheck).
  rewrite (bind_Ret _ _ _ _ _ Hres).
  rewrite (bind_Ret _ _ _ _ _ Hclean).
  now apply bind_Exit.
Qed.

End Run.

(** ** The further properties on the small instance *)

Section FurtherOnDemo.

Import Demo.

Ltac by_vm :=
  match goal with |- ?a = ?b => exact (@eq_refl _ b <: a = b) end.

Ltac plain := repeat constructor; vm_compute; reflexivity.

Lemma getDate_reads_fifth_field_witness :
  getDate
    ("/d/anno_s1b-iw-rtcm-vv-" ++ long_field ++ "-40_0.png")
  = Some "20180118T031947".
Proof.
  refine (proj1 (proj2 (getDate_reads_fifth_field (Some "/d")
            "anno_s1b" "iw" "rtcm" "vv" long_field "-40_0.png" _ _ _))
            "S1B" "IW" "GRDH" "1SDV" "20180118T031947"
            "_20180118T032012_009220_01084D_97C9_clipped_dB" _ _ _ _).
  - repeat constructor.
  - reflexivity.
  - right. eexists. reflexivity.
  - reflexivity.
  - repeat constructor.
  - right. eexists. reflexivity.
  - vm_compute. lia.
Defined.

Lemma getDates_needs_five_fields_witness :
  getDates ["/d/a.tif"] w3 = Raise IndexError w3.
Proof.
  apply (getDates_needs_five_fields ["/d/a.tif"] "/d/a.tif" w3).
  - now left.
  - vm_compute. lia.
Defined.

Lemma take_infiles_checks_each_file_witness :
  take_infiles [scene_jan; "b.tif"] w_open
  = Ret [scene_jan; "/data/b.tif"] (add_log "Infiles found; using them" w_open)
  /\ take_infiles (C := bare) ["/d/a.tif"; "b.tif"; "c.tif"] w_open
     = Exit 1 {| files := store_run;
                 log := ["Infiles found; using them";
                         "ERROR: Can't find input file b.tif"];
                 log_st := LogClosed; calls := [] |}.
Proof.
  split.
  - refine (proj1 (take_infiles_checks_each_file
                     [scene_jan; "b.tif"] w_open eq_refl) _).
    repeat constructor; discriminate.
  - refine (proj2 (take_infiles_checks_each_file (C := bare)
                     ["/d/a.tif"; "b.tif"; "c.tif"] w_open eq_refl)
              ["/d/a.tif"] "b.tif" ["c.tif"] _ _ _).
    + reflexivity.
    + repeat constructor; discriminate.
    + reflexivity.
Defined.

Lemma link_files_gives_base_names_witness :
  link_files [scene_jan] w_open
  = Ret ["s1b-iw-rtcm-vv-20180118T031947_G.tif"]
      (world_of (link_files [scene_jan] w_open))
  /\ log (world_of (link_files [scene_jan] w_open))
     = ["List of files to operate on";
        "s1b-iw-rtcm-vv-20180118T031947_G.tif"]
  /\ files (world_of (link_files [scene_jan] w_open))
       !! "s1b-iw-rtcm-vv-20180118T031947_G.tif"
     = Some (img utm5 [1; 0; 0; 0; 0; 0; 0; 0; 0; 0]).
Proof.
  assert (H : link_files [scene_jan] w_open
              = Ret ["s1b-iw-rtcm-vv-20180118T031947_G.tif"]
                  (world_of (link_files [scene_jan] w_open)))
    by (apply (Ret_world_of (link_files [scene_jan] w_open)); by_vm).
  destruct (link_files_gives_base_names _ _ _ _ H) as (_ & _ & Hl & _ & Hf).
  split; [exact H|]. split; [exact Hl|].
  apply (Hf scene_jan); [now left|by_vm].
Defined.

Lemma link_files_same_base_name_raises_witness :
  exists dst w',
    link_files [scene_jan; scene_jan_copy] w_open = Raise (OSError dst) w'.
Proof.
  apply (link_files_same_base_name_raises [] scene_jan [] scene_jan_copy []
           w_open (img utm5 [1; 0; 0; 0; 0; 0; 0; 0; 0; 0])); by_vm.
Defined.

Lemma resolve_path_checks_the_directory_witness :
  resolve_path (C := bare) opts_none w_open = Ret "/data" w_open
  /\ resolve_path (C := bare) (opts_dir "") w_open = Raise IndexError w_open
  /\ resolve_path (C := bare) (opts_dir "in") w_open = Ret "/data/in" w_open
  /\ resolve_path (C := bare) (opts_dir "/out") w_open
     = Exit 1 {| files := store_run;
                 log := ["ERROR: Unable to find directory /out"];
                 log_st := LogClosed; calls := [] |}.
Proof.
  split; [|split; [|split]].
  - exact (proj1 (resolve_path_checks_the_directory (C := bare)
                    opts_none w_open) eq_refl).
  - exact (proj1 (proj2 (resolve_path_checks_the_directory (C := bare)
                           (opts_dir "") w_open)) eq_refl).
  - refine (proj1 (proj2 (proj2 (resolve_path_checks_the_directory
                                   (C := bare) (opts_dir "in") w_open))
                     "in" eq_refl _) eq_refl).
    discriminate.
  - refine (proj1 (proj2 (proj2 (proj2 (resolve_path_checks_the_directory
                                   (C := bare) (opts_dir "/out") w_open))
                     "/out" eq_refl _)) eq_refl eq_refl).
    discriminate.
Defined.

Lemma invalid_options_end_the_run_at_once_witness :
  procS1StackRTC opts_clash w_run
  = Exit 1
      {| files := store_run;
         log := ["Creating dB-byte output frames";
                 "ERROR: Can not use both clip to overlap and image clipping options"];
         log_st := LogClosed; calls := [] |}.
Proof.
  now apply (proj1 (invalid_options_end_the_run_at_once opts_clash w_run)).
Defined.

Lemma unknown_type_is_reported_but_not_fatal_witness :
  (exists w', check_options opts_odd w_open = Ret tt w'
              /\ nth_error (log w') 0
                 = Some "ERROR: unknown output type jpeg")
  /\ move_products opts_odd "PRODUCT" ["a.tif"] ["a_dB.tif"] ["a_dB-40_0.tif"] w3
     = Ret tt w3.
Proof.
  split.
  - now apply (proj1 (unknown_type_is_reported_but_not_fatal opts_odd eq_refl)
                 w_open).
  - apply (proj2 (unknown_type_is_reported_but_not_fatal opts_odd eq_refl)).
Defined.

Lemma cut_keeps_or_removes_the_clip_witness :
  cut 0 10 10 0 "b.tif" (Some (4 # 10)%Q) w3
  = Ret (None, (1 # 10)%Q)
      {| files := delete "b_clipped.tif" store3;
         log := ["    Image fraction (1/10) less than threshold of 4/10 discarding"];
         log_st := LogOpen;
         calls := [Remove "b_clipped.tif"] |}
  /\ cut 0 10 10 0 "c.tif" (Some (4 # 10)%Q) w3
     = Ret (Some "c_clipped.tif", (4 # 10)%Q)
         (set_files
            (<["c_clipped.tif" := img utm5 [1; 1; 1; 1; 0; 0; 0; 0; 0; 0]]>
               store3) w3).
Proof.
  split.
  - refine (proj1 (proj2 (cut_keeps_or_removes_the_clip 0 10 10 0 "b.tif"
                            (4 # 10)%Q w3
                            (img utm6 [1; 0; 0; 0; 0; 0; 0; 0; 0; 0]) _ eq_refl))
              _); [by_vm|reflexivity].
  - refine (proj2 (proj2 (cut_keeps_or_removes_the_clip 0 10 10 0
                            "c.tif" (4 # 10)%Q w3
                            (img utm5 [1; 1; 1; 1; 0; 0; 0; 0; 0; 0]) _ eq_refl))
              _); [by_vm|discriminate].
Defined.

Lemma cutStack_of_no_scene_witness :
  (exists w',
      cutStack [] true None None (4 # 10)%Q w3 = Raise IndexError w'
      /\ files w' = files w3 /\ calls w' = calls w3)
  /\ cutStack scenes3 false None None (4 # 10)%Q w3 = Ret scenes3 w3.
Proof.
  split.
  - apply (proj1 (cutStack_of_no_scene true None None (4 # 10)%Q w3 eq_refl)).
    now left.
  - now apply (proj2 (cutStack_of_no_scene false None None (4 # 10)%Q w3
                        eq_refl)).
Defined.

Lemma fix_projections_without_reference_zone_witness :
  fix_projections [] w3 = Raise IndexError w3
  /\ fix_projections ["x.tif"; "a.tif"] w3 = Raise (RasterError "x.tif") w3
  /\ fix_projections ["g.tif"; "a.tif"] w_mixed
     = Ret ["g.tif"; "a.tif"] w_mixed
  /\ fix_projections ["u.tif"] w_unnumbered
     = Raise AttributeError w_unnumbered.
Proof.
  split; [|split; [|split]].
  - exact (proj1 (fix_projections_without_reference_zone "a.tif" [] w3)).
  - refine (proj1 (proj2 (fix_projections_without_reference_zone
                            "x.tif" ["a.tif"] w3)) _).
    by_vm.
  - apply (proj1 (proj2 (proj2 (fix_projections_without_reference_zone
                                   "g.tif" ["a.tif"] w_mixed)))
             (img geographic [1; 1; 1; 1; 1; 1; 1; 1; 1; 1])); by_vm.
  - apply (proj2 (proj2 (proj2 (fix_projections_without_reference_zone
                                   "u.tif" [] w_unnumbered)))
             (img utm_unnumbered [1; 1; 1; 1; 1; 1; 1; 1; 1; 1]));
      [by_vm|vm_compute; discriminate|by_vm].
Defined.

Lemma fix_projections_keeps_the_stack_in_place_witness :
  fix_projections scenes3 w3
  = Ret ["a.tif"; "b_reproj.tif"; "c.tif"] w3_reconciled
  /\ log w3_reconciled = [] /\ calls w3_reconciled = []
  /\ files w3_reconciled !! "b.tif" = files w3 !! "b.tif".
Proof.
  assert (H : fix_projections scenes3 w3
              = Ret ["a.tif"; "b_reproj.tif"; "c.tif"] w3_reconciled)
    by (apply (Ret_world_of (fix_projections scenes3 w3)); by_vm).
  destruct (fix_projections_keeps_the_stack_in_place _ _ _ _ H)
    as (_ & _ & Hl & _ & Hc & _ & Hf).
  split; [exact H|]. split; [exact Hl|]. split; [exact Hc|].
  apply Hf. vm_compute. intros [E|[E|[]]]; discriminate E.
Defined.

Lemma zone_comparison_ignores_the_hemisphere_witness :
  reference_zone utm5 = Some (5, "N")
  /\ later_zone utm5s = Some 5
  /\ fix_projections ["n.tif"; "s.tif"] w_hemi = Ret ["n.tif"; "s.tif"] w_hemi.
Proof.
  destruct (zone_comparison_ignores_the_hemisphere "n.tif" "s.tif" w_hemi
              (img utm5 [1; 1; 1; 1; 1; 1; 1; 1; 1; 1])
              (img utm5s [1; 1; 1; 1; 1; 1; 1; 1; 1; 1])
              "PROJCS[WGS 84 / " "5" "N" ",GEOGCS[WGS 84]]"
              "PROJCS[WGS 84 / " "5" "S" ",GEOGCS[WGS 84]]")
    as (Hr & Hz & Hs & _).
  - by_vm.
  - by_vm.
  - repeat split; try reflexivity; discriminate.
  - repeat split; try reflexivity; discriminate.
  - split; [exact Hr|]. split; [exact Hz|]. now apply Hs.
Defined.

Lemma fix_file_list_elects_the_first_best_witness :
  (exists pre best post w',
      ["b.tif"; "c.tif"; "d.tif"] = (pre ++ best :: post)%list
      /\ Forall (fun f => (CoverageFraction (F := floats) box store_tie f
                           < CoverageFraction (F := floats) box store_tie best)%Q) pre
      /\ Forall (fun f => (CoverageFraction (F := floats) box store_tie f
                           <= CoverageFraction (F := floats) box store_tie best)%Q) post
      /\ fix_file_list ["b.tif"; "c.tif"; "d.tif"] box w_tie
         = Ret (match pre with
                | [] => ["b.tif"; "c.tif"; "d.tif"]
                | first :: pre' => (best :: pre' ++ first :: post)%list
                end) w')
  /\ returned (fix_file_list ["b.tif"; "c.tif"; "d.tif"] box w_tie)
     = Some ["c.tif"; "b.tif"; "d.tif"].
Proof.
  split; [|by_vm].
  apply (fix_file_list_elects_the_first_best (F := floats)
           ["b.tif"; "c.tif"; "d.tif"]
           box w_tie eq_refl).
  - unfold readable; repeat constructor; eexists; vm_compute; reflexivity.
  - vm_compute; repeat split; repeat constructor; discriminate.
  - constructor 1. vm_compute. discriminate.
Defined.

Lemma fix_file_list_outcomes_witness :
  (exists filelist' w',
      fix_file_list scenes3 box w3 = Ret filelist' w'
      /\ Permutation scenes3 filelist')
  \/ (exists w',
         fix_file_list scenes3 box w3 = Exit 1 w' /\ log_st w' = LogClosed)
  \/ (exists f w',
         fix_file_list scenes3 box w3 = Raise (RasterError (clipped_name f)) w'
         /\ In f scenes3 /\ files w' !! f = None).
Proof.
  apply (fix_file_list_outcomes (F := floats) scenes3 box w3 eq_refl).
Defined.

Lemma getAscDesc_reads_the_first_telling_line_witness :
  getAscDesc "20180118T031947-rtc-gamma/meta.iso.xml" w3 = Ret (Some "a") w3
  /\ getAscDesc "20180211T031947-rtc-gamma/meta.iso.xml" w3
     = Ret (Some "d") w3
  /\ getAscDesc "other.iso.xml" w3 = Ret None w3
  /\ getAscDesc (C := bare) "other.iso.xml" w3
     = Raise (IOError "other.iso.xml") w3.
Proof.
  split; [|split; [|split]].
  - refine (proj1 (proj1 (proj2 (getAscDesc_reads_the_first_telling_line
                                   "20180118T031947-rtc-gamma/meta.iso.xml" w3))
                     [] "<gml:description>ascending</gml:description>" []
                     eq_refl _) eq_refl).
    constructor.
  - refine (proj2 (proj1 (proj2 (getAscDesc_reads_the_first_telling_line
                                   "20180211T031947-rtc-gamma/meta.iso.xml" w3))
                     [] "<gml:description>descending</gml:description>" []
                     eq_refl _) eq_refl eq_refl).
    constructor.
  - refine (proj2 (proj2 (getAscDesc_reads_the_first_telling_line
                            "other.iso.xml" w3))
              ["<gml:description/>"] eq_refl _).
    repeat constructor.
  - exact (proj1 (getAscDesc_reads_the_first_telling_line (C := bare)
                    "other.iso.xml" w3) eq_refl).
Defined.

Lemma getXmlFiles_needs_a_product_directory_witness :
  getXmlFiles [scene_jan] w3
  = Ret ["20180118T031947-rtc-gamma/meta.iso.xml"] w3
  /\ getXmlFiles (C := bare) [scene_jan] w3 = Raise IndexError w3
  /\ cull_list_by_direction (C := bare) [scene_jan] "a" w3
     = Raise IndexError w3.
Proof.
  assert (Hd : dates_of [scene_jan] ["20180118T031947"])
    by (repeat constructor).
  split; [|split].
  - refine (proj1 (getXmlFiles_needs_a_product_directory _ _ w3 Hd) _ _).
    repeat constructor.
  - refine (proj1 (proj2 (getXmlFiles_needs_a_product_directory (C := bare)
                            _ _ w3 Hd) _)).
    now constructor 1.
  - refine (proj2 (proj2 (getXmlFiles_needs_a_product_directory (C := bare)
                            _ _ w3 Hd) _) "a").
    now constructor 1.
Defined.

Lemma conversions_spare_the_input_iff_tif_witness :
  let r := img utm5 [1; 1; 1; 1; 1; 1; 1; 1; 1; 1] in
  create_dB "a.tif" w3
  = Ret "a_dB.tif" (set_files (<["a_dB.tif" := dB_raster r]> store3) w3)
  /\ pwr2amp "a.tif" w3
     = Ret "a_amp.tif" (set_files (<["a_amp.tif" := amp_raster r]> store3) w3)
  /\ <["a_dB.tif" := dB_raster r]> store3 !! "a.tif" = Some r.
Proof.
  intros r.
  destruct (conversions_spare_the_input_iff_tif (F := floats) "a.tif" w3 r)
    as (Hd & Ha & Ht & _); [by_vm|].
  split; [exact Hd|]. split; [exact Ha|].
  now apply Ht.
Defined.

Lemma amp2pwr_squares_each_scene_witness :
  amp2pwr ["a.tif"; "c.tif"] w3
  = Ret ["a_amp.tif"; "c_amp.tif"]
      (set_files (pwr_store store3 ["a.tif"; "c.tif"]) w3)
  /\ amp2pwr ["a.tif"; "x.tif"; "c.tif"] w3
     = Raise (RasterError "x.tif")
         (set_files (pwr_store store3 ["a.tif"]) w3).
Proof.
  split.
  - refine (proj1 (amp2pwr_squares_each_scene (F := floats)
                     ["a.tif"; "c.tif"] w3 _) _).
    + vm_compute; repeat split; repeat constructor; discriminate.
    + unfold readable; repeat constructor; eexists; vm_compute; reflexivity.
  - refine (proj1 (proj2 (amp2pwr_squares_each_scene (F := floats)
                            ["a.tif"; "x.tif"; "c.tif"] w3 _))
              ["a.tif"] "x.tif" ["c.tif"] eq_refl _ _).
    + vm_compute; repeat split; repeat constructor; discriminate.
    + unfold readable; repeat constructor; eexists; vm_compute; reflexivity.
    + by_vm.
Defined.

Lemma move_products_moves_the_chosen_type_witness :
  exists w',
    move_products opts_pass "PRODUCT" [] [] ["a.tif"; "c.tif"] w3 = Ret tt w'
    /\ calls w' = [Move "a.tif" "PRODUCT"; Move "c.tif" "PRODUCT"]
    /\ files w' !! "a.tif" = None
    /\ files w' !! "PRODUCT/a.tif" = files w3 !! "a.tif".
Proof.
  destruct (move_products_moves_the_chosen_type (F := floats)
              opts_pass "PRODUCT" [] [] ["a.tif"; "c.tif"] w3) as (Hc & Hm).
  destruct Hm as (w' & Hw & Hf).
  - reflexivity.
  - unfold readable; repeat constructor; eexists; vm_compute; reflexivity.
  - repeat constructor; cbn; intuition discriminate.
  - repeat constructor; cbn; intuition discriminate.
  - cbn. intros f g [<-|[<-|[]]] [<-|[<-|[]]]; discriminate.
  - exists w'. split; [exact Hw|].
    split; [exact (proj1 (Hc w' Hw))|].
    apply (Hf "a.tif"). now left.
Defined.

Lemma every_exit_has_code_1_and_a_closed_log_witness :
  procS1StackRTC opts_clash w_run
  = Exit 1 (world_of (procS1StackRTC opts_clash w_run))
  /\ log_st (world_of (procS1StackRTC opts_clash w_run)) = LogClosed.
Proof.
  assert (H : procS1StackRTC opts_clash w_run
              = Exit 1 (world_of (procS1StackRTC opts_clash w_run)))
    by reflexivity.
  split; [exact H|].
  exact (proj2 (every_exit_has_code_1_and_a_closed_log _ _ _ _ H)).
Defined.

Lemma no_other_directory_is_made_or_removed_witness :
  Forall (spares_other_dirs opts_pass)
    (calls (world_of (procS1StackRTC opts_pass w_run))).
Proof.
  apply (no_other_directory_is_made_or_removed opts_pass w_run).
  constructor.
Defined.

Lemma the_log_is_set_by_the_run_alone_witness :
  filterStack ["a.tif"] w_run = Raise (NameError "log") w_run
  /\ changeResStack ["a.tif"] 30 w_run = Raise (NameError "log") w_run
  /\ cutStack [scene_jan] true None None (4 # 10)%Q w_run
     = Raise (NameError "log") w_run
  /\ cutStack [scene_jan] false None (Some "aoi.shp") (4 # 10)%Q w_run
     = Raise (NameError "log") w_run
  /\ cutStack [scene_jan] false (Some box) None (4 # 10)%Q w_run
     = Raise (NameError "log") w_run
  /\ cutStack ["x.tif"] false (Some box) None (4 # 10)%Q w_run
     = Raise (RasterError "x.tif") w_run
  /\ cutStack [scene_jan] false None None (4 # 10)%Q w_run
     = Ret [scene_jan] w_run.
Proof.
  destruct (proj2 (the_log_is_set_by_the_run_alone (F := floats)
                     opts_pass w_run) w_run eq_refl)
    as (Hf & Hr & Ho & Hs & Hb & Hn & _).
  split; [apply Hf|]. split; [apply Hr|]. split; [apply Ho|].
  split; [apply Hs|].
  split; [exact (Hb [scene_jan] box None (4 # 10)%Q)|].
  split; [exact (Hb ["x.tif"] box None (4 # 10)%Q)|apply Hn].
Defined.

Lemma a_run_that_returns_has_published_witness :
  procS1StackRTC opts_pass w_run
  = Ret tt (world_of (procS1StackRTC opts_pass w_run))
  /\ log_st (world_of (procS1StackRTC opts_pass w_run)) = LogClosed
  /\ exists cs power_filelist,
       power_filelist <> []
       /\ calls (world_of (procS1StackRTC opts_pass w_run))
          = (cs ++ publishing_calls opts_pass power_filelist)%list.
Proof.
  assert (H : procS1StackRTC opts_pass w_run
              = Ret tt (world_of (procS1StackRTC opts_pass w_run)))
    by (apply (Ret_world_of (procS1StackRTC opts_pass w_run)); by_vm).
  split; [exact H|].
  exact (a_run_that_returns_has_published _ _ _ H).
Defined.

Lemma a_run_that_returns_is_back_where_it_started_witness :
  procS1StackRTC opts_pass w_run
  = Ret tt (world_of (procS1StackRTC opts_pass w_run))
  /\ chdirs (calls (world_of (procS1StackRTC opts_pass w_run)))
     = [Chdir "TEMP"; Chdir ".."].
Proof.
  assert (H : procS1StackRTC opts_pass w_run
              = Ret tt (world_of (procS1StackRTC opts_pass w_run)))
    by (apply (Ret_world_of (procS1StackRTC opts_pass w_run)); by_vm).
  split; [exact H|].
  exact (a_run_that_returns_is_back_where_it_started _ _ _ H).
Defined.

Lemma a_run_that_finds_no_scene_exits_witness :
  exists w',
    procS1StackRTC opts_none w_run = Exit 1 w'
    /\ log_st w' = LogClosed
    /\ List.last (log w') "" = "ERROR: Found no files to process."
    /\ List.last (calls w') (Chdir "") = Chdir "..".
Proof.
  apply (a_run_that_finds_no_scene_exits (F := floats) opts_none w_run);
    [reflexivity|exact I|now left|reflexivity].
Defined.

End FurtherOnDemo.

(** * The amplitude and power round trip on 32-bit floats *)

(** ** Shifting and rounding *)


















(** ** The numbers that square well *)







(** ** The round trip of a raster *)

Section RoundTrip.

Variable np_log : spec_float -> spec_float.
Variable passed_on : Floats.



End RoundTrip.

(** ** The round trip on small rasters *)

Section RoundTripOnDemo.

Import Demo.

Ltac by_vm :=
  match goal with |- ?a = ?b => exact (@eq_refl _ b <: a = b) end.



End RoundTripOnDemo.
